(** * RecordStore: the per-table record cache of the blocks SDK

    A shallow embedding of [packages/sdk/src/models/record_store.js].

    The store keeps, per table, the record map of the table data, the memoized
    record models, and three per-field tables: the loaded flags, the pending
    load promises and the retain counts.  Loading is asynchronous (promises),
    unloading is delayed ([setTimeout]); both are modelled by an explicit event
    loop state [World] holding the promise table, the timer queue and the
    trace of the calls the store makes to its collaborators (the airtable
    interface, the console and the watchable substrate [_onChange]).

    Conventions.
    - A JS object used as a table whose key order is never observed is a
      [gmap]; an object whose keys are enumerated ([Object.keys], [entries])
      is the list of its entries in enumeration order.  All ids are strings of
      the form [fld...], [rec...], so enumeration order is insertion order.
    - [obj[k] = undefined] keeps the key with the value [undefined]: tables
      whose entries are assigned [undefined] have an optional value.
    - The getters inherited from [AbstractModelWithAsyncData] ([isDataLoaded],
      [isDeleted], [_data]) are components of the store state.
    - [this._data] is read as on a live table.  On a deleted table
      ([isDeleted s = true]) the inherited getter throws before anything else
      happens, so the functions that read it ([isRecordMetadataLoaded], the
      merge of a fetched snapshot, [triggerOnChangeForDirtyPaths],
      [getRecordByIdIfExists]) describe the code for [isDeleted s = false]
      only; a property that would otherwise speak about a deleted table
      assumes [isDeleted s = false], or assumes a result that the code gives
      on a live table only. *)

From stdpp Require Import gmap strings list fin_maps.
From Stdlib Require Import ZArith Lia.

Local Open Scope Z_scope.

(** ** Data model *)

Abbreviation FieldId := string (only parsing).
Abbreviation RecordId := string (only parsing).
Abbreviation TableId := string (only parsing).
Abbreviation PromiseId := nat (only parsing).
Abbreviation WatchableRecordStoreKey := string (only parsing).

(** Cell values are opaque to the store; [VUndefined] is JS [undefined]. *)
Inductive Value :=
| VUndefined
| VNull
| VBool (b : bool)
| VNum (n : Z)
| VStr (s : string).

#[global] Instance Value_eq_dec : EqDecision Value.
Proof. solve_decision. Defined.

(** [RecordData]: [cellValuesByFieldId] may be absent. *)
Record RecordData := mkRecordData {
  cellValuesByFieldId : option (gmap FieldId Value);
  commentCount : Z;
  createdTime : string;
}.

(** A thrown error: [invariant(cond, msg)] throws when [cond] is falsy. *)
Inductive Error :=
| InvariantViolation (msg : string)
| BackendError (msg : string).

(** Payloads passed to [_onChange]. *)
Inductive Payload :=
| NoPayload
| RecordsChange (addedRecordIds removedRecordIds : list string)
| CellValuesChange (recordIds : list string) (fieldIds : list FieldId)
| CellValuesInFieldChange (recordIds : list string) (fieldId : FieldId).

(** Calls made by the store to its collaborators, in program order. *)
Inductive Event :=
| FetchAndSubscribeToCellValuesInFields (tableId : TableId) (fieldIds : list FieldId)
| UnsubscribeFromCellValuesInFields (tableId : TableId) (fieldIds : list FieldId)
| UnsubscribeFromTableData (tableId : TableId)
| ConsoleLog (msg : string)
| OnChange (key : WatchableRecordStoreKey) (payload : Payload)
| RecordModelTrigger (recordId : RecordId).

(** A record model is identified by the record id it was created for and a
    serial number standing for the object identity. *)
Record RecordModel := mkRecordModel {
  modelRecordId : string;
  modelSerial : nat;
}.

Record RecordStore := mkRecordStore {
  tableId : TableId;
  isDataLoaded : bool;
  isDeleted : bool;
  recordsById : option (gmap RecordId RecordData);
  fieldsById : list FieldId;
  _primaryFieldId : FieldId;
  _recordModelsById : gmap RecordId RecordModel;
  _areCellValuesLoadedByFieldId : gmap FieldId bool;
  _pendingCellValuesLoadPromiseByFieldId : gmap FieldId (option PromiseId);
  _cellValuesRetainCountByFieldId : gmap FieldId Z;
}.

Definition WatchableRecordStoreKeys_records : string := "records".
Definition WatchableRecordStoreKeys_recordIds : string := "recordIds".
Definition WatchableRecordStoreKeys_cellValues : string := "cellValues".
Definition WatchableCellValuesInFieldKeyPrefix : string := "cellValuesInField:".

(** ** Synchronous accessors *)

(** [!!this._data.recordsById], on a live table. *)
Definition isRecordMetadataLoaded (s : RecordStore) : bool :=
  bool_decide (is_Some (recordsById s)).

(** [this._areCellValuesLoadedByFieldId[fieldId]] as a condition. *)
Definition fieldFlag (s : RecordStore) (fieldId : FieldId) : bool :=
  default false (_areCellValuesLoadedByFieldId s !! fieldId).

Definition areCellValuesLoadedForFieldId (s : RecordStore) (fieldId : FieldId) : bool :=
  isDataLoaded s || fieldFlag s fieldId || false.

(** ** Merging a fetched snapshot ([_loadCellValuesInFieldIdsAsync], after the await) *)

(** [newRecordObj.cellValuesByFieldId ? newRecordObj.cellValuesByFieldId[fieldId] : undefined] *)
Definition incomingCell (newRecordObj : RecordData) (fieldId : FieldId) : Value :=
  match cellValuesByFieldId newRecordObj with
  | Some cells => default VUndefined (cells !! fieldId)
  | None => VUndefined
  end.

(** The inner [for] loop over [fieldIds]. *)
Fixpoint overwriteCells (fieldIds : list FieldId) (newRecordObj : RecordData)
    (existingCellValuesByFieldId : gmap string Value) : gmap string Value :=
  match fieldIds with
  | [] => existingCellValuesByFieldId
  | fieldId :: rest =>
      overwriteCells rest newRecordObj
        (<[fieldId := incomingCell newRecordObj fieldId]> existingCellValuesByFieldId)
  end.

Definition mergeExisting (fieldIds : list FieldId) (existingRecordObj newRecordObj : RecordData)
    : RecordData + Error :=
  if negb (commentCount existingRecordObj =? commentCount newRecordObj)%Z then
    inr (InvariantViolation "comment count out of sync")
  else if negb (String.eqb (createdTime existingRecordObj) (createdTime newRecordObj)) then
    inr (InvariantViolation "created time out of sync")
  else
    inl {| cellValuesByFieldId :=
             Some (overwriteCells fieldIds newRecordObj
                     (default ∅ (cellValuesByFieldId existingRecordObj)));
           commentCount := commentCount existingRecordObj;
           createdTime := createdTime existingRecordObj |}.

(** The outer [for ... of entries(newRecordsById)] loop.  The record map is
    mutated in place, so a throw leaves the entries merged so far. *)
Fixpoint mergeEntries (fieldIds : list FieldId) (newEntries : list (RecordId * RecordData))
    (existingRecordsById : gmap string RecordData)
    : gmap string RecordData * option Error :=
  match newEntries with
  | [] => (existingRecordsById, None)
  | (recordId, newRecordObj) :: rest =>
      match existingRecordsById !! recordId with
      | None => mergeEntries fieldIds rest (<[recordId := newRecordObj]> existingRecordsById)
      | Some existingRecordObj =>
          match mergeExisting fieldIds existingRecordObj newRecordObj with
          | inl merged => mergeEntries fieldIds rest (<[recordId := merged]> existingRecordsById)
          | inr e => (existingRecordsById, Some e)
          end
      end
  end.

Definition changedKeysForFieldIds (fieldIds : list FieldId) : list string :=
  (map (fun fieldId => WatchableCellValuesInFieldKeyPrefix +:+ fieldId) fieldIds
     ++ [WatchableRecordStoreKeys_records])
    ++ [WatchableRecordStoreKeys_recordIds]
    ++ [WatchableRecordStoreKeys_cellValues].

Definition setRecordsById (s : RecordStore) (r : option (gmap string RecordData)) : RecordStore :=
  {| tableId := tableId s; isDataLoaded := isDataLoaded s; isDeleted := isDeleted s;
     recordsById := r; fieldsById := fieldsById s; _primaryFieldId := _primaryFieldId s;
     _recordModelsById := _recordModelsById s;
     _areCellValuesLoadedByFieldId := _areCellValuesLoadedByFieldId s;
     _pendingCellValuesLoadPromiseByFieldId := _pendingCellValuesLoadPromiseByFieldId s;
     _cellValuesRetainCountByFieldId := _cellValuesRetainCountByFieldId s |}.

(** The body of [_loadCellValuesInFieldIdsAsync] after the backend answered
    with [newRecordsById], on a live table: the store after the merge and
    either the changed keys (the promise fulfils) or the thrown error (the
    promise rejects). *)
Definition _loadCellValuesInFieldIdsAsync_merge (fieldIds : list FieldId)
    (newRecordsById : list (RecordId * RecordData)) (s : RecordStore)
    : RecordStore * (list string + Error) :=
  let existingRecordsById := default ∅ (recordsById s) in
  match mergeEntries fieldIds newRecordsById existingRecordsById with
  | (merged, None) => (setRecordsById s (Some merged), inl (changedKeysForFieldIds fieldIds))
  | (merged, Some e) => (setRecordsById s (Some merged), inr e)
  end.

(** ** Store updates *)

Definition setRecordModelsById (s : RecordStore) (m : gmap string RecordModel) : RecordStore :=
  {| tableId := tableId s; isDataLoaded := isDataLoaded s; isDeleted := isDeleted s;
     recordsById := recordsById s; fieldsById := fieldsById s;
     _primaryFieldId := _primaryFieldId s;
     _recordModelsById := m;
     _areCellValuesLoadedByFieldId := _areCellValuesLoadedByFieldId s;
     _pendingCellValuesLoadPromiseByFieldId := _pendingCellValuesLoadPromiseByFieldId s;
     _cellValuesRetainCountByFieldId := _cellValuesRetainCountByFieldId s |}.

Definition setAreCellValuesLoaded (s : RecordStore) (m : gmap string bool) : RecordStore :=
  {| tableId := tableId s; isDataLoaded := isDataLoaded s; isDeleted := isDeleted s;
     recordsById := recordsById s; fieldsById := fieldsById s;
     _primaryFieldId := _primaryFieldId s;
     _recordModelsById := _recordModelsById s;
     _areCellValuesLoadedByFieldId := m;
     _pendingCellValuesLoadPromiseByFieldId := _pendingCellValuesLoadPromiseByFieldId s;
     _cellValuesRetainCountByFieldId := _cellValuesRetainCountByFieldId s |}.

Definition setPendingLoadPromise (s : RecordStore) (m : gmap string (option nat)) : RecordStore :=
  {| tableId := tableId s; isDataLoaded := isDataLoaded s; isDeleted := isDeleted s;
     recordsById := recordsById s; fieldsById := fieldsById s;
     _primaryFieldId := _primaryFieldId s;
     _recordModelsById := _recordModelsById s;
     _areCellValuesLoadedByFieldId := _areCellValuesLoadedByFieldId s;
     _pendingCellValuesLoadPromiseByFieldId := m;
     _cellValuesRetainCountByFieldId := _cellValuesRetainCountByFieldId s |}.

Definition setRetainCount (s : RecordStore) (m : gmap string Z) : RecordStore :=
  {| tableId := tableId s; isDataLoaded := isDataLoaded s; isDeleted := isDeleted s;
     recordsById := recordsById s; fieldsById := fieldsById s;
     _primaryFieldId := _primaryFieldId s;
     _recordModelsById := _recordModelsById s;
     _areCellValuesLoadedByFieldId := _areCellValuesLoadedByFieldId s;
     _pendingCellValuesLoadPromiseByFieldId := _pendingCellValuesLoadPromiseByFieldId s;
     _cellValuesRetainCountByFieldId := m |}.

(** ** Clearing after an unload ([_afterUnloadDataOrUnloadCellValuesInFieldIds]) *)

(** [values(this._areCellValuesLoadedByFieldId).some(isLoaded => isLoaded)] *)
Definition someFieldFlag (s : RecordStore) : bool :=
  bool_decide (map_Exists (fun _ isLoaded => isLoaded = true) (_areCellValuesLoadedByFieldId s)).

Definition areAnyFieldsLoaded (s : RecordStore) : bool :=
  isDataLoaded s || someFieldFlag s.

Fixpoint clearCells (fieldIdsToClear : list FieldId) (cells : gmap string Value)
    : gmap string Value :=
  match fieldIdsToClear with
  | [] => cells
  | fieldId :: rest => clearCells rest (<[fieldId := VUndefined]> cells)
  end.

Definition clearRecord (fieldIdsToClear : list FieldId) (recordObj : RecordData) : RecordData :=
  match cellValuesByFieldId recordObj with
  | Some cells =>
      {| cellValuesByFieldId := Some (clearCells fieldIdsToClear cells);
         commentCount := commentCount recordObj;
         createdTime := createdTime recordObj |}
  | None => recordObj
  end.

Definition _afterUnloadDataOrUnloadCellValuesInFieldIds
    (unloadedFieldIds : option (list string)) (s : RecordStore) : RecordStore :=
  let anyLoaded := areAnyFieldsLoaded s in
  let s1 :=
    if negb (isDeleted s) then
      if negb anyLoaded then setRecordsById s None
      else if negb (isDataLoaded s) then
        let fieldIdsToClear :=
          match unloadedFieldIds with
          | Some ids => ids
          | None => List.filter (fun fieldId => negb (fieldFlag s fieldId)) (fieldsById s)
          end in
        setRecordsById s (fmap (M := option) (fmap (clearRecord fieldIdsToClear)) (recordsById s))
      else s
    else s in
  if negb anyLoaded then setRecordModelsById s1 ∅ else s1.

(** ** The event loop state *)

Inductive PromiseState :=
| Pending
| Fulfilled (changedKeys : list WatchableRecordStoreKey)
| Rejected (e : Error).

(** The promise returned by one call of [_loadCellValuesInFieldIdsAsync],
    with the field ids the call (and the [then] callback registered on it)
    closes over. *)
Record LoadPromise := mkLoadPromise {
  promiseFieldIds : list FieldId;
  promiseState : PromiseState;
}.

Record World := mkWorld {
  store : RecordStore;
  promises : list LoadPromise;
  timers : list (list FieldId);
  trace : list Event;
}.

Definition withStore (f : RecordStore -> RecordStore) (w : World) : World :=
  {| store := f (store w); promises := promises w; timers := timers w; trace := trace w |}.

Definition emit (e : Event) (w : World) : World :=
  {| store := store w; promises := promises w; timers := timers w; trace := trace w ++ [e] |}.

Definition emitAll (es : list Event) (w : World) : World :=
  {| store := store w; promises := promises w; timers := timers w; trace := trace w ++ es |}.

Definition setPromises (ps : list LoadPromise) (w : World) : World :=
  {| store := store w; promises := ps; timers := timers w; trace := trace w |}.

Definition setTimers (ts : list (list string)) (w : World) : World :=
  {| store := store w; promises := promises w; timers := ts; trace := trace w |}.

(** ** Loading ([loadCellValuesInFieldIdsAsync]) *)

(** [this._pendingCellValuesLoadPromiseByFieldId[fieldId]] *)
Definition pendingLoadPromise (s : RecordStore) (fieldId : FieldId) : option nat :=
  default None (_pendingCellValuesLoadPromiseByFieldId s !! fieldId).

Definition retainField (counts : gmap string Z) (fieldId : FieldId) : gmap string Z :=
  match counts !! fieldId with
  | Some n => <[fieldId := n + 1]> counts
  | None => <[fieldId := 1]> counts
  end.

(** The first [for] loop: the retain counts, the cold fields and the joined
    pending promises, in the order they are pushed. *)
Fixpoint loadLoop (s : RecordStore) (fieldIds : list FieldId)
    (counts : gmap string Z)
    (fieldIdsWhichAreNotAlreadyLoadedOrLoading : list string)
    (pendingLoadPromises : list nat)
    : gmap string Z * list string * list nat :=
  match fieldIds with
  | [] => (counts, fieldIdsWhichAreNotAlreadyLoadedOrLoading, pendingLoadPromises)
  | fieldId :: rest =>
      let counts' := retainField counts fieldId in
      if negb (fieldFlag s fieldId) then
        match pendingLoadPromise s fieldId with
        | Some p =>
            loadLoop s rest counts' fieldIdsWhichAreNotAlreadyLoadedOrLoading
              (pendingLoadPromises ++ [p])
        | None =>
            loadLoop s rest counts' (fieldIdsWhichAreNotAlreadyLoadedOrLoading ++ [fieldId])
              pendingLoadPromises
        end
      else loadLoop s rest counts' fieldIdsWhichAreNotAlreadyLoadedOrLoading pendingLoadPromises
  end.

Fixpoint markPending (p : PromiseId) (fieldIds : list FieldId) (m : gmap string (option nat))
    : gmap string (option nat) :=
  match fieldIds with
  | [] => m
  | fieldId :: rest => markPending p rest (<[fieldId := Some p]> m)
  end.

(** The synchronous part of [loadCellValuesInFieldIdsAsync], up to
    [await Promise.all(pendingLoadPromises)]: the new world and the promises
    the caller awaits.  The call of [_loadCellValuesInFieldIdsAsync] runs up
    to its own [await], that is, it issues the fetch. *)
Definition loadCellValuesInFieldIdsAsync (fieldIds : list FieldId) (w : World)
    : World * list nat :=
  let s := store w in
  let '(counts, cold, joined) :=
    loadLoop s fieldIds (_cellValuesRetainCountByFieldId s) [] [] in
  let w1 := withStore (fun s => setRetainCount s counts) w in
  if bool_decide (0 < length cold)%nat then
    let p := length (promises w1) in
    let w2 := emit (FetchAndSubscribeToCellValuesInFields (tableId s) cold) w1 in
    let w3 := setPromises (promises w2 ++ [mkLoadPromise cold Pending]) w2 in
    let w4 := withStore (fun s =>
                setPendingLoadPromise s
                  (markPending p cold (_pendingCellValuesLoadPromiseByFieldId s))) w3 in
    (w4, joined ++ [p])
  else (w1, joined).

(** What [await Promise.all(pendingLoadPromises)] yields, given the promise
    table: rejected as soon as one promise is, fulfilled when all are. *)
Inductive JoinState := JoinPending | JoinFulfilled | JoinRejected.

Definition isRejected (ps : list LoadPromise) (p : PromiseId) : bool :=
  match ps !! p with
  | Some {| promiseState := Rejected _ |} => true
  | _ => false
  end.

Definition isFulfilled (ps : list LoadPromise) (p : PromiseId) : bool :=
  match ps !! p with
  | Some {| promiseState := Fulfilled _ |} => true
  | _ => false
  end.

Definition awaitAll (w : World) (pendingLoadPromises : list nat) : JoinState :=
  if existsb (isRejected (promises w)) pendingLoadPromises then JoinRejected
  else if forallb (isFulfilled (promises w)) pendingLoadPromises then JoinFulfilled
  else JoinPending.

(** The [then] callback of [loadCellValuesInFieldIdsAsync]. *)
Fixpoint markLoaded (fieldIds : list FieldId) (s : RecordStore) : RecordStore :=
  match fieldIds with
  | [] => s
  | fieldId :: rest =>
      let s1 := setAreCellValuesLoaded s (<[fieldId := true]> (_areCellValuesLoadedByFieldId s)) in
      let s2 := setPendingLoadPromise s1
                  (<[fieldId := None]> (_pendingCellValuesLoadPromiseByFieldId s1)) in
      markLoaded rest s2
  end.

Definition settle (p : PromiseId) (st : PromiseState) (ps : list LoadPromise) : list LoadPromise :=
  match ps !! p with
  | Some lp => <[p := mkLoadPromise (promiseFieldIds lp) st]> ps
  | None => ps
  end.

(** The backend answers the fetch of promise [p] with a snapshot: the rest of
    [_loadCellValuesInFieldIdsAsync] runs, and on success the [then] callback
    marks the fields loaded and fires the changed keys.  The two are separate
    jobs of the event loop; this step is their net effect, and does not show
    the state in between, where the promise is fulfilled and the markers of
    its fields are still set. *)
Definition fetchFulfilled (p : PromiseId) (newRecordsById : list (RecordId * RecordData)) (w : World)
    : option World :=
  match promises w !! p with
  | Some {| promiseFieldIds := fieldIds; promiseState := Pending |} =>
      match _loadCellValuesInFieldIdsAsync_merge fieldIds newRecordsById (store w) with
      | (s1, inl changedKeys) =>
          let w1 := withStore (fun _ => s1) w in
          let w2 := setPromises (settle p (Fulfilled changedKeys) (promises w1)) w1 in
          let w3 := withStore (markLoaded fieldIds) w2 in
          Some (emitAll (map (fun key => OnChange key NoPayload) changedKeys) w3)
      | (s1, inr e) =>
          let w1 := withStore (fun _ => s1) w in
          Some (setPromises (settle p (Rejected e) (promises w1)) w1)
      end
  | _ => None
  end.

(** The backend fetch of promise [p] fails: the [await] throws, the promise
    rejects, and the [then] callback (which has no rejection handler) does
    not run. *)
Definition fetchRejected (p : PromiseId) (e : Error) (w : World) : option World :=
  match promises w !! p with
  | Some {| promiseFieldIds := fieldIds; promiseState := Pending |} =>
      Some (setPromises (settle p (Rejected e) (promises w)) w)
  | _ => None
  end.

(** ** Unloading ([unloadCellValuesInFieldIds]) *)

Fixpoint releaseLoop (fieldIds : list FieldId) (fieldIdsWithZeroRetainCount : list string)
    (w : World) : World * list string :=
  match fieldIds with
  | [] => (w, fieldIdsWithZeroRetainCount)
  | fieldId :: rest =>
      let fieldRetainCount :=
        default 0 (_cellValuesRetainCountByFieldId (store w) !! fieldId) - 1 in
      let '(w1, fieldRetainCount) :=
        if (fieldRetainCount <? 0)%Z
        then (emit (ConsoleLog "Field data over-released") w, 0)
        else (w, fieldRetainCount) in
      let w2 := withStore (fun s =>
                  setRetainCount s
                    (<[fieldId := fieldRetainCount]> (_cellValuesRetainCountByFieldId s))) w1 in
      if (fieldRetainCount =? 0)%Z
      then releaseLoop rest (fieldIdsWithZeroRetainCount ++ [fieldId]) w2
      else releaseLoop rest fieldIdsWithZeroRetainCount w2
  end.

(** The call itself: the release loop, then [setTimeout] when some count
    reached zero. *)
Definition unloadCellValuesInFieldIds (fieldIds : list FieldId) (w : World) : World :=
  let '(w1, fieldIdsWithZeroRetainCount) := releaseLoop fieldIds [] w in
  if bool_decide (0 < length fieldIdsWithZeroRetainCount)%nat
  then setTimers (timers w1 ++ [fieldIdsWithZeroRetainCount]) w1
  else w1.

Definition _unloadCellValuesInFieldIds (fieldIds : list FieldId) (w : World) : World :=
  let w1 := emit (UnsubscribeFromCellValuesInFields (tableId (store w)) fieldIds) w in
  withStore (_afterUnloadDataOrUnloadCellValuesInFieldIds (Some fieldIds)) w1.

Fixpoint clearFlags (fieldIds : list FieldId) (s : RecordStore) : RecordStore :=
  match fieldIds with
  | [] => s
  | fieldId :: rest =>
      clearFlags rest
        (setAreCellValuesLoaded s (<[fieldId := false]> (_areCellValuesLoadedByFieldId s)))
  end.

(** [this._cellValuesRetainCountByFieldId[fieldId] === 0] *)
Definition retainCountIsZero (s : RecordStore) (fieldId : FieldId) : bool :=
  bool_decide (_cellValuesRetainCountByFieldId s !! fieldId = Some 0).

(** The callback passed to [setTimeout], closing over
    [fieldIdsWithZeroRetainCount]. *)
Definition unloadTimerCallback (fieldIdsWithZeroRetainCount : list string) (w : World) : World :=
  let fieldIdsToUnload :=
    List.filter (retainCountIsZero (store w)) fieldIdsWithZeroRetainCount in
  if bool_decide (0 < length fieldIdsToUnload)%nat then
    _unloadCellValuesInFieldIds fieldIdsToUnload (withStore (clearFlags fieldIdsToUnload) w)
  else w.

(** All timers have the same delay, so they fire in the order they were set. *)
Definition timerFires (w : World) : option World :=
  match timers w with
  | [] => None
  | fieldIdsWithZeroRetainCount :: rest =>
      Some (unloadTimerCallback fieldIdsWithZeroRetainCount (setTimers rest w))
  end.

Definition _unloadData (w : World) : World :=
  let w1 := emit (UnsubscribeFromTableData (tableId (store w))) w in
  withStore (_afterUnloadDataOrUnloadCellValuesInFieldIds None) w1.

(** ** Dirty paths ([triggerOnChangeForDirtyPaths]) *)

(** The diff of one record: the [_isDirty] marker and the keys of its
    [cellValuesByFieldId] object, when it has one. *)
Record DirtyRecordPaths := mkDirtyRecordPaths {
  _isDirty : bool;
  dirtyCellValuesByFieldId : option (list string);
}.

(** [dirtyPaths.recordsById], when present, as the list of its entries. *)
Record DirtyPaths := mkDirtyPaths {
  dirtyRecordsById : option (list (string * DirtyRecordPaths));
}.

(** [dirtyFieldIdsSet[fieldId] = true] on an object used as an ordered set. *)
Definition setKey (key : WatchableRecordStoreKey) (keys : list string) : list string :=
  if bool_decide (key ∈ keys) then keys else keys ++ [key].

Fixpoint setKeys (newKeys : list string) (keys : list string) : list string :=
  match newKeys with
  | [] => keys
  | key :: rest => setKeys rest (setKey key keys)
  end.

Record DirtyAcc := mkDirtyAcc {
  dirtyFieldIdsSet : list string;
  addedRecordIds : list string;
  removedRecordIds : list string;
}.

(** The [for ... of entries(dirtyPaths.recordsById)] loop. *)
Fixpoint dirtyLoop (dirtyEntries : list (string * DirtyRecordPaths)) (acc : DirtyAcc)
    (w : World) : World * DirtyAcc * option Error :=
  match dirtyEntries with
  | [] => (w, acc, None)
  | (recordId, dirtyRecordPaths) :: rest =>
      let structural : (World * list string * list string) + Error :=
        if _isDirty dirtyRecordPaths then
          match recordsById (store w) with
          | None => inr (InvariantViolation "No recordsById")
          | Some existing =>
              if bool_decide (is_Some (existing !! recordId)) then
                inl (w, addedRecordIds acc ++ [recordId], removedRecordIds acc)
              else
                inl (withStore (fun s =>
                       setRecordModelsById s (delete recordId (_recordModelsById s))) w,
                     addedRecordIds acc, removedRecordIds acc ++ [recordId])
          end
        else
          match _recordModelsById (store w) !! recordId with
          | Some _ => inl (emit (RecordModelTrigger recordId) w,
                           addedRecordIds acc, removedRecordIds acc)
          | None => inl (w, addedRecordIds acc, removedRecordIds acc)
          end in
      match structural with
      | inr e => (w, acc, Some e)
      | inl (w1, added, removed) =>
          let dirtyFieldIds :=
            match dirtyCellValuesByFieldId dirtyRecordPaths with
            | Some fieldIds => setKeys fieldIds (dirtyFieldIdsSet acc)
            | None => dirtyFieldIdsSet acc
            end in
          dirtyLoop rest (mkDirtyAcc dirtyFieldIds added removed) w1
      end
  end.

(** [triggerOnChangeForDirtyPaths], on a live table. *)
Definition triggerOnChangeForDirtyPaths (dirtyPaths : DirtyPaths) (w : World)
    : World * option Error :=
  if isRecordMetadataLoaded (store w) then
    match dirtyRecordsById dirtyPaths with
    | Some dirtyEntries =>
        match dirtyLoop dirtyEntries (mkDirtyAcc [] [] []) w with
        | (w1, _, Some e) => (w1, Some e)
        | (w1, acc, None) =>
            let w2 :=
              if bool_decide (0 < length (addedRecordIds acc))%nat
                 || bool_decide (0 < length (removedRecordIds acc))%nat
              then
                emit (OnChange WatchableRecordStoreKeys_recordIds
                        (RecordsChange (addedRecordIds acc) (removedRecordIds acc)))
                  (emit (OnChange WatchableRecordStoreKeys_records
                           (RecordsChange (addedRecordIds acc) (removedRecordIds acc))) w1)
              else w1 in
            let fieldIds := dirtyFieldIdsSet acc in
            let recordIds := map fst dirtyEntries in
            let w3 :=
              if bool_decide (0 < length fieldIds)%nat && bool_decide (0 < length recordIds)%nat
              then emit (OnChange WatchableRecordStoreKeys_cellValues
                           (CellValuesChange recordIds fieldIds)) w2
              else w2 in
            (emitAll
               (map (fun fieldId =>
                       OnChange (WatchableCellValuesInFieldKeyPrefix +:+ fieldId)
                         (CellValuesInFieldChange recordIds fieldId)) fieldIds) w3,
             None)
        end
    | None => (w, None)
    end
  else (w, None).

(** ** The store as a transition system *)

(** What can happen to a store: calls of its methods, answers of the backend,
    the unload timer, and the base data changing underneath it. *)
Inductive Action :=
| CallLoad (fieldIds : list FieldId)
| CallUnload (fieldIds : list FieldId)
| BackendFulfils (p : PromiseId) (newRecordsById : list (RecordId * RecordData))
| BackendRejects (p : PromiseId) (e : Error)
| TimerFires
| DirtyPathsArrive (dirtyPaths : DirtyPaths)
| UnloadData
| BaseDataChanges (newRecordsById : option (gmap string RecordData))
    (dataLoaded deleted : bool).

Definition baseDataChanges (r : option (gmap string RecordData)) (dataLoaded deleted : bool)
    (s : RecordStore) : RecordStore :=
  {| tableId := tableId s; isDataLoaded := dataLoaded; isDeleted := deleted;
     recordsById := r; fieldsById := fieldsById s; _primaryFieldId := _primaryFieldId s;
     _recordModelsById := _recordModelsById s;
     _areCellValuesLoadedByFieldId := _areCellValuesLoadedByFieldId s;
     _pendingCellValuesLoadPromiseByFieldId := _pendingCellValuesLoadPromiseByFieldId s;
     _cellValuesRetainCountByFieldId := _cellValuesRetainCountByFieldId s |}.

Definition step (a : Action) (w : World) : option World :=
  match a with
  | CallLoad fieldIds => Some (fst (loadCellValuesInFieldIdsAsync fieldIds w))
  | CallUnload fieldIds => Some (unloadCellValuesInFieldIds fieldIds w)
  | BackendFulfils p newRecordsById => fetchFulfilled p newRecordsById w
  | BackendRejects p e => fetchRejected p e w
  | TimerFires => timerFires w
  | DirtyPathsArrive dirtyPaths => Some (fst (triggerOnChangeForDirtyPaths dirtyPaths w))
  | UnloadData => Some (_unloadData w)
  | BaseDataChanges r dataLoaded deleted =>
      Some (withStore (baseDataChanges r dataLoaded deleted) w)
  end.

Fixpoint run (actions : list Action) (w : World) : option World :=
  match actions with
  | [] => Some w
  | a :: rest =>
      match step a w with
      | Some w1 => run rest w1
      | None => None
      end
  end.

(** The store right after its constructor ran: empty per-field tables, no
    record model, nothing in flight. *)
Definition newRecordStore (tbl primaryFieldId : string) (fields : list string)
    (r : option (gmap string RecordData)) : RecordStore :=
  {| tableId := tbl; isDataLoaded := false; isDeleted := false;
     recordsById := r; fieldsById := fields; _primaryFieldId := primaryFieldId;
     _recordModelsById := ∅;
     _areCellValuesLoadedByFieldId := ∅;
     _pendingCellValuesLoadPromiseByFieldId := ∅;
     _cellValuesRetainCountByFieldId := ∅ |}.

Definition newWorld (s : RecordStore) : World :=
  {| store := s; promises := []; timers := []; trace := [] |}.

Definition reachable (w : World) : Prop :=
  exists tbl primaryFieldId fields r actions,
    run actions (newWorld (newRecordStore tbl primaryFieldId fields r)) = Some w.

(** Promise [p] is an outstanding backend fetch that covers field [fieldId]. *)
Definition outstandingFetch (w : World) (p : PromiseId) (fieldId : FieldId) : Prop :=
  exists fieldIds,
    promises w !! p = Some (mkLoadPromise fieldIds Pending) /\ fieldId ∈ fieldIds.

(** The cell of a record as a property read: [None] when the record has no
    cell table or the table has no such key. *)
Definition cellOf (recordObj : RecordData) (fieldId : FieldId) : option Value :=
  cellValuesByFieldId recordObj ≫= (fun cells => cells !! fieldId).

(** The metadata of a resident record and of an incoming one agree: what the
    two [invariant] calls of the merge check. *)
Definition inSync (existingRecordObj newRecordObj : RecordData) : Prop :=
  commentCount existingRecordObj = commentCount newRecordObj
  /\ createdTime existingRecordObj = createdTime newRecordObj.

(** The retain counts after every field of [fieldIds] was released down to
    (or clamped at) zero. *)
Fixpoint zeroCounts (fieldIds : list FieldId) (counts : gmap string Z) : gmap string Z :=
  match fieldIds with
  | [] => counts
  | fieldId :: rest => zeroCounts rest (<[fieldId := 0]> counts)
  end.

(** A field that [loadCellValuesInFieldIdsAsync] has to fetch: neither loaded
    nor loading. *)
Definition isCold (s : RecordStore) (fieldId : FieldId) : bool :=
  negb (fieldFlag s fieldId) && bool_decide (pendingLoadPromise s fieldId = None).

(** The pending promise a requested field is joined to, if any. *)
Definition joinedPromise (s : RecordStore) (fieldId : FieldId) : option nat :=
  if fieldFlag s fieldId then None else pendingLoadPromise s fieldId.

(** The diff of a record changed in place on the cells of [fieldIds], and the
    diff of a record added or removed. *)
Definition cellsChanged (fieldIds : list FieldId) : DirtyRecordPaths :=
  {| _isDirty := false; dirtyCellValuesByFieldId := Some fieldIds |}.

Definition structurallyChanged : DirtyRecordPaths :=
  {| _isDirty := true; dirtyCellValuesByFieldId := None |}.

(** Every outstanding fetch is the one its fields' pending markers point to. *)
Definition pendingMarkersCoverFetches (w : World) : Prop :=
  forall (p : PromiseId) (fieldIds : list FieldId) (fieldId : FieldId),
    promises w !! p = Some (mkLoadPromise fieldIds Pending) ->
    fieldId ∈ fieldIds ->
    _pendingCellValuesLoadPromiseByFieldId (store w) !! fieldId = Some (Some p).

(** ** Example stores

    A table [tblA] with the fields [fldA] (primary) and [fldB], and the
    records [recA] and [recB]. *)

Definition emptyWorld : World :=
  newWorld (newRecordStore "tblA" "fldA" ["fldA"; "fldB"] None).

(** [fldA] was requested and its fetch is in flight. *)
Definition loadingWorld : World :=
  fst (loadCellValuesInFieldIdsAsync ["fldA"] emptyWorld).

(** The fetch of [fldA] failed. *)
Definition failedWorld : World :=
  default loadingWorld (fetchRejected 0 (BackendError "network error") loadingWorld).

Definition recA : RecordData :=
  {| cellValuesByFieldId := Some {[ "fldA" := VStr "a"; "fldB" := VStr "b" ]};
     commentCount := 2; createdTime := "2019-01-01" |}.

Definition incomingRecA : RecordData :=
  {| cellValuesByFieldId := Some {[ "fldA" := VStr "a2" ]};
     commentCount := 2; createdTime := "2019-01-01" |}.

Definition incomingRecB : RecordData :=
  {| cellValuesByFieldId := Some {[ "fldA" := VNum 7 ]};
     commentCount := 0; createdTime := "2019-02-02" |}.

Definition outOfSyncRecA : RecordData :=
  {| cellValuesByFieldId := Some {[ "fldA" := VStr "a2" ]};
     commentCount := 3; createdTime := "2019-01-01" |}.

(** [fldA] is loaded and retained once; [recA] is resident and has a record
    model. *)
Definition loadedStore : RecordStore :=
  {| tableId := "tblA"; isDataLoaded := false; isDeleted := false;
     recordsById := Some {[ "recA" := recA ]};
     fieldsById := ["fldA"; "fldB"]; _primaryFieldId := "fldA";
     _recordModelsById := {[ "recA" := mkRecordModel "recA" 0 ]};
     _areCellValuesLoadedByFieldId := {[ "fldA" := true ]};
     _pendingCellValuesLoadPromiseByFieldId := {[ "fldA" := None ]};
     _cellValuesRetainCountByFieldId := {[ "fldA" := 1 ]} |}.

(** The same records, but every field was unloaded and released. *)
Definition unloadedStore : RecordStore :=
  {| tableId := "tblA"; isDataLoaded := false; isDeleted := false;
     recordsById := Some {[ "recA" := recA ]};
     fieldsById := ["fldA"; "fldB"]; _primaryFieldId := "fldA";
     _recordModelsById := {[ "recA" := mkRecordModel "recA" 0 ]};
     _areCellValuesLoadedByFieldId := {[ "fldA" := false ]};
     _pendingCellValuesLoadPromiseByFieldId := {[ "fldA" := None ]};
     _cellValuesRetainCountByFieldId := {[ "fldA" := 0 ]} |}.

(** The whole table is loaded, no field was ever loaded on its own. *)
Definition fullyLoadedStore : RecordStore :=
  {| tableId := "tblA"; isDataLoaded := true; isDeleted := false;
     recordsById := Some {[ "recA" := recA ]};
     fieldsById := ["fldA"; "fldB"]; _primaryFieldId := "fldA";
     _recordModelsById := ∅;
     _areCellValuesLoadedByFieldId := ∅;
     _pendingCellValuesLoadPromiseByFieldId := ∅;
     _cellValuesRetainCountByFieldId := ∅ |}.

(** [fldA] was loaded, then unloaded, and the unload timer has fired: the
    field is unloaded, with a retain count of zero. *)
Definition unloadedWorld : World :=
  default emptyWorld
    (run [CallLoad ["fldA"]; BackendFulfils 0 [("recA", recA)];
          CallUnload ["fldA"]; TimerFires] emptyWorld).

(** [fldA] was released and retained again before the unload timer fired. *)
Definition reretainedWorld : World :=
  default emptyWorld
    (run [CallLoad ["fldA"]; BackendFulfils 0 [("recA", recA)];
          CallUnload ["fldA"]; CallLoad ["fldA"]] emptyWorld).

(** The diff of the scenario: [recB] was removed and the cell of [fldA]
    changed on [recA]. *)
Definition scenarioDirtyPaths : DirtyPaths :=
  {| dirtyRecordsById :=
       Some [("recA", cellsChanged ["fldA"]); ("recB", structurallyChanged)] |}.

(** The notifications of a trace: its calls of [_onChange]. *)
Definition onChangeCalls (evs : list Event) : list Event :=
  List.filter (fun e => match e with OnChange _ _ => true | _ => false end) evs.

(** ** Watch keys ([_isWatchableKey], [watch], [unwatch]) *)

Definition WatchableRecordIdsInViewKeyPrefix : string := "recordIdsInView:".
Definition WatchableRecordColorsInViewKeyPrefix : string := "recordColorsInView:".

(** [key.startsWith(searchString)] *)
Definition startsWith (key searchString : string) : bool :=
  String.prefix searchString key.

(** [key.substring(start)]: the key without its first [start] characters. *)
Fixpoint substringFrom (start : nat) (key : string) : string :=
  match start, key with
  | O, _ => key
  | S _, EmptyString => EmptyString
  | S start', String _ rest => substringFrom start' rest
  end.

(** [isEnumValue(WatchableRecordStoreKeys, key)]; the helper lives in
    [private_utils], outside these sources: [key] is one of the values of the
    enum object. *)
Definition isWatchableRecordStoreKeysValue (key : string) : bool :=
  String.eqb key WatchableRecordStoreKeys_records
  || String.eqb key WatchableRecordStoreKeys_recordIds
  || String.eqb key WatchableRecordStoreKeys_cellValues.

Definition _isWatchableKey (key : string) : bool :=
  isWatchableRecordStoreKeysValue key
  || startsWith key WatchableCellValuesInFieldKeyPrefix
  || startsWith key WatchableRecordIdsInViewKeyPrefix
  || startsWith key WatchableRecordColorsInViewKeyPrefix.

Definition _shouldLoadDataForKey (key : WatchableRecordStoreKey) : bool :=
  String.eqb key WatchableRecordStoreKeys_cellValues.

Definition _getFieldIdForCausingRecordMetadataToLoad (s : RecordStore) : FieldId :=
  _primaryFieldId s.

Fixpoint _getFieldIdsToLoadFromWatchableKeys (s : RecordStore)
    (keys : list WatchableRecordStoreKey) : list FieldId :=
  match keys with
  | [] => []
  | key :: rest =>
      if startsWith key WatchableCellValuesInFieldKeyPrefix then
        substringFrom (String.length WatchableCellValuesInFieldKeyPrefix) key
          :: _getFieldIdsToLoadFromWatchableKeys s rest
      else if String.eqb key WatchableRecordStoreKeys_records
              || String.eqb key WatchableRecordStoreKeys_recordIds then
        _getFieldIdForCausingRecordMetadataToLoad s
          :: _getFieldIdsToLoadFromWatchableKeys s rest
      else _getFieldIdsToLoadFromWatchableKeys s rest
  end.

(** [watch] after [super.watch] returned [validKeys] (the watchable substrate
    is outside these sources).  [fireAndForgetPromise] starts the load and
    drops its promise. *)
Definition watch (validKeys : list WatchableRecordStoreKey) (w : World) : World :=
  let fieldIdsToLoad := _getFieldIdsToLoadFromWatchableKeys (store w) validKeys in
  if bool_decide (0 < length fieldIdsToLoad)%nat
  then fst (loadCellValuesInFieldIdsAsync fieldIdsToLoad w)
  else w.

(** [unwatch] after [super.unwatch] returned [validKeys]. *)
Definition unwatch (validKeys : list WatchableRecordStoreKey) (w : World) : World :=
  let fieldIdsToUnload := _getFieldIdsToLoadFromWatchableKeys (store w) validKeys in
  if bool_decide (0 < length fieldIdsToUnload)%nat
  then unloadCellValuesInFieldIds fieldIdsToUnload w
  else w.

Definition loadRecordMetadataAsync (w : World) : World * list PromiseId :=
  loadCellValuesInFieldIdsAsync [_getFieldIdForCausingRecordMetadataToLoad (store w)] w.

Definition unloadRecordMetadata (w : World) : World :=
  unloadCellValuesInFieldIds [_getFieldIdForCausingRecordMetadataToLoad (store w)] w.

(** ** Record models ([getRecordByIdIfExists]) *)

(** [serial] is the identity of the object that [new Record(...)] allocates
    when the call has to create the model ([getSdk().base.getTableById], the
    table lookup of the SDK, is outside these sources and is taken to return
    the table).  The result, on a live table, is the store and the model,
    [None] standing for [null]. *)
Definition getRecordByIdIfExists (serial : nat) (recordId : RecordId) (s : RecordStore)
    : (RecordStore * option RecordModel) + Error :=
  match recordsById s with
  | None => inr (InvariantViolation "Record metadata is not loaded")
  | Some records =>
      match records !! recordId with
      | None => inl (s, None)
      | Some _ =>
          match _recordModelsById s !! recordId with
          | Some recordModel => inl (s, Some recordModel)
          | None =>
              let newRecord := mkRecordModel recordId serial in
              inl (setRecordModelsById s (<[recordId := newRecord]> (_recordModelsById s)),
                   Some newRecord)
          end
      end
  end.

(** ** View data stores ([getViewDataStore]) *)

(** A view data store, by the view it was created for and its identity. *)
Record ViewDataStore := mkViewDataStore {
  storeViewId : string;
  storeSerial : nat;
}.

(** The two tables [getViewDataStore] works on: the views of the table
    schema ([this._data.viewsById]) and the memoized view data stores. *)
Record ViewRegistry := mkViewRegistry {
  viewsById : gset string;
  _viewDataStoresByViewId : gmap string ViewDataStore;
}.

Definition getViewDataStore (serial : nat) (viewId : string) (r : ViewRegistry)
    : (ViewRegistry * ViewDataStore) + Error :=
  match _viewDataStoresByViewId r !! viewId with
  | Some viewDataStore => inl (r, viewDataStore)
  | None =>
      if bool_decide (viewId ∈ viewsById r) then
        let viewDataStore := mkViewDataStore viewId serial in
        inl ({| viewsById := viewsById r;
                _viewDataStoresByViewId :=
                  <[viewId := viewDataStore]> (_viewDataStoresByViewId r) |},
             viewDataStore)
      else inr (InvariantViolation "view must exist")
  end.

(** ** Full-table load ([_loadDataAsync], after the await) *)

Definition _loadDataAsync_continuation (tableDataRecordsById : option (gmap string RecordData))
    (s : RecordStore) : RecordStore * list WatchableRecordStoreKey :=
  (setRecordsById s tableDataRecordsById,
   [WatchableRecordStoreKeys_records; WatchableRecordStoreKeys_recordIds;
    WatchableRecordStoreKeys_cellValues]
     ++ map (fun fieldId => WatchableCellValuesInFieldKeyPrefix +:+ fieldId) (fieldsById s)).

(** ** What a step may send to the collaborators *)

Definition mayEmit (a : Action) (w : World) (e : Event) : Prop :=
  match a, e with
  | CallLoad fieldIds, FetchAndSubscribeToCellValuesInFields tbl ids =>
      tbl = tableId (store w) /\ ids ≠ []
      /\ forall fieldId : FieldId, fieldId ∈ ids -> fieldId ∈ fieldIds
  | CallUnload _, ConsoleLog _ => True
  | BackendFulfils p _, OnChange key NoPayload =>
      exists fieldIds,
        promises w !! p = Some (mkLoadPromise fieldIds Pending)
        /\ key ∈ changedKeysForFieldIds fieldIds
  | TimerFires, UnsubscribeFromCellValuesInFields tbl ids =>
      tbl = tableId (store w) /\ ids ≠ []
      /\ forall fieldId : FieldId, fieldId ∈ ids ->
           _cellValuesRetainCountByFieldId (store w) !! fieldId = Some 0
  | DirtyPathsArrive _, RecordModelTrigger recordId =>
      is_Some (_recordModelsById (store w) !! recordId)
  | DirtyPathsArrive _, OnChange key (RecordsChange _ _) =>
      key = WatchableRecordStoreKeys_records \/ key = WatchableRecordStoreKeys_recordIds
  | DirtyPathsArrive _, OnChange key (CellValuesChange _ _) =>
      key = WatchableRecordStoreKeys_cellValues
  | DirtyPathsArrive _, OnChange key (CellValuesInFieldChange _ fieldId) =>
      key = WatchableCellValuesInFieldKeyPrefix +:+ fieldId
  | UnloadData, UnsubscribeFromTableData tbl => tbl = tableId (store w)
  | _, _ => False
  end.

(** The field lists of the fetches of a trace, in order. *)
Definition fetchesOf (evs : list Event) : list (list FieldId) :=
  omap (fun e => match e with
                 | FetchAndSubscribeToCellValuesInFields _ fieldIds => Some fieldIds
                 | _ => None
                 end) evs.

(** Every key a trace fired is a key the store accepts for watching. *)
Definition firesOnlyWatchableKeys (evs : list Event) : Prop :=
  forall key payload, OnChange key payload ∈ evs -> _isWatchableKey key = true.

(** Retain counts are never negative. *)
Definition retainCountsNonNegative (s : RecordStore) : Prop :=
  forall (fieldId : FieldId) (n : Z),
    _cellValuesRetainCountByFieldId s !! fieldId = Some n -> 0 <= n.

(** A pending marker points at a promise of the table that covers the
    field. *)
Definition markersPointAtCoveringFetches (w : World) : Prop :=
  forall (fieldId : FieldId) (p : PromiseId),
    pendingLoadPromise (store w) fieldId = Some p ->
    exists fieldIds st,
      promises w !! p = Some (mkLoadPromise fieldIds st) /\ fieldId ∈ fieldIds.

(** How often a field id occurs in a list of requested field ids. *)
Definition occurrences (fieldId : FieldId) (fieldIds : list FieldId) : Z :=
  Z.of_nat (count_occ String.string_dec fieldIds fieldId).

(** The retain count of a field as the code reads it ([count || 0]). *)
Definition retainCountOf (s : RecordStore) (fieldId : FieldId) : Z :=
  default 0 (_cellValuesRetainCountByFieldId s !! fieldId).

(** [fldA] is loaded; [fldB] was requested and its fetch is in flight. *)
Definition loadingFldBWorld : World :=
  fst (loadCellValuesInFieldIdsAsync ["fldB"] (newWorld loadedStore)).

(** [recA] is resident; [recB] is not, but its record model is still cached. *)
Definition staleModelStore : RecordStore :=
  {| tableId := "tblA"; isDataLoaded := false; isDeleted := false;
     recordsById := Some {[ "recA" := recA ]};
     fieldsById := ["fldA"; "fldB"]; _primaryFieldId := "fldA";
     _recordModelsById :=
       {[ "recA" := mkRecordModel "recA" 0; "recB" := mkRecordModel "recB" 1 ]};
     _areCellValuesLoadedByFieldId := {[ "fldA" := true ]};
     _pendingCellValuesLoadPromiseByFieldId := {[ "fldA" := None ]};
     _cellValuesRetainCountByFieldId := {[ "fldA" := 1 ]} |}.

(** A table with the single view [viwA] and no view data store yet. *)
Definition oneViewRegistry : ViewRegistry :=
  {| viewsById := {[ "viwA" ]}; _viewDataStoresByViewId := ∅ |}.

(** * Properties *)

(** ** Loaded flags *)

(** C9: when the full table data is loaded, [areCellValuesLoadedForFieldId]
    answers [true] for every field id, whatever the per-field flag says and
    whether or not the id belongs to the schema. *)
Theorem areCellValuesLoadedForFieldId_when_data_loaded (s : RecordStore) (fieldId : FieldId) :
  isDataLoaded s = true -> areCellValuesLoadedForFieldId s fieldId = true.
Proof.
  intros Hloaded. unfold areCellValuesLoadedForFieldId. by rewrite Hloaded.
Qed.

(** ** Merging a snapshot *)

Lemma overwriteCells_lookup_notin fieldIds newRecordObj cells (fieldId : FieldId) :
  fieldId ∉ fieldIds ->
  overwriteCells fieldIds newRecordObj cells !! fieldId = cells !! fieldId.
Proof.
  revert cells. induction fieldIds as [|f rest IH]; intros cells Hnotin; simpl; [done|].
  apply not_elem_of_cons in Hnotin as [Hne Hrest].
  rewrite IH by done. by rewrite lookup_insert_ne.
Qed.

Lemma overwriteCells_lookup_in fieldIds newRecordObj cells (fieldId : FieldId) :
  fieldId ∈ fieldIds ->
  overwriteCells fieldIds newRecordObj cells !! fieldId
  = Some (incomingCell newRecordObj fieldId).
Proof.
  revert cells. induction fieldIds as [|f rest IH]; intros cells Hin; simpl.
  - by apply elem_of_nil in Hin.
  - destruct (decide (fieldId ∈ rest)) as [Hrest|Hrest].
    + by apply IH.
    + apply elem_of_cons in Hin as [->|Hin]; [|done].
      rewrite overwriteCells_lookup_notin by done. by rewrite lookup_insert_eq.
Qed.

Lemma mergeExisting_ok fieldIds existingRecordObj newRecordObj merged :
  mergeExisting fieldIds existingRecordObj newRecordObj = inl merged ->
  inSync existingRecordObj newRecordObj
  /\ commentCount merged = commentCount existingRecordObj
  /\ createdTime merged = createdTime existingRecordObj
  /\ cellValuesByFieldId merged
     = Some (overwriteCells fieldIds newRecordObj
               (default ∅ (cellValuesByFieldId existingRecordObj))).
Proof.
  unfold mergeExisting, inSync.
  destruct (Z.eqb_spec (commentCount existingRecordObj) (commentCount newRecordObj));
    simpl; [|discriminate].
  destruct (String.eqb_spec (createdTime existingRecordObj) (createdTime newRecordObj));
    simpl; [|discriminate].
  intros [= <-]. simpl. done.
Qed.

Lemma mergeExisting_in_sync fieldIds existingRecordObj newRecordObj :
  inSync existingRecordObj newRecordObj ->
  exists merged, mergeExisting fieldIds existingRecordObj newRecordObj = inl merged.
Proof.
  intros [Hc Ht]. unfold mergeExisting.
  rewrite Hc, Z.eqb_refl, Ht, String.eqb_refl. simpl. eauto.
Qed.

Lemma mergeExisting_out_of_sync fieldIds existingRecordObj newRecordObj :
  ~ inSync existingRecordObj newRecordObj ->
  exists msg, mergeExisting fieldIds existingRecordObj newRecordObj
              = inr (InvariantViolation msg).
Proof.
  intros Hsync. unfold mergeExisting, inSync in *.
  destruct (Z.eqb_spec (commentCount existingRecordObj) (commentCount newRecordObj));
    simpl; [|eauto].
  destruct (String.eqb_spec (createdTime existingRecordObj) (createdTime newRecordObj));
    simpl; [|eauto].
  tauto.
Qed.

Lemma mergeExisting_cells fieldIds existingRecordObj newRecordObj merged :
  mergeExisting fieldIds existingRecordObj newRecordObj = inl merged ->
  (forall fieldId : FieldId, fieldId ∉ fieldIds ->
     cellOf merged fieldId = cellOf existingRecordObj fieldId)
  /\ (forall fieldId : FieldId, fieldId ∈ fieldIds ->
        cellOf merged fieldId = Some (incomingCell newRecordObj fieldId)).
Proof.
  intros Hm. apply mergeExisting_ok in Hm as (_ & _ & _ & Hcells).
  unfold cellOf. rewrite Hcells. simpl. split; intros fieldId Hf.
  - rewrite overwriteCells_lookup_notin by done.
    destruct (cellValuesByFieldId existingRecordObj); simpl; [done|].
    apply lookup_empty.
  - by apply overwriteCells_lookup_in.
Qed.

(** Records that the snapshot does not mention are not touched, also when
    the merge throws half-way. *)
Lemma mergeEntries_untouched fieldIds newEntries existing merged res (recordId : RecordId) :
  mergeEntries fieldIds newEntries existing = (merged, res) ->
  recordId ∉ newEntries.*1 ->
  merged !! recordId = existing !! recordId.
Proof.
  revert existing. induction newEntries as [|[rid new] rest IH]; intros existing; simpl.
  - by intros [= <- <-] _.
  - intros Hm Hnotin. apply not_elem_of_cons in Hnotin as [Hne Hrest].
    destruct (existing !! rid) as [ex|] eqn:Hex.
    + destruct (mergeExisting fieldIds ex new) as [m|e].
      * rewrite (IH _ Hm Hrest). by rewrite lookup_insert_ne.
      * by injection Hm as <- <-.
    + rewrite (IH _ Hm Hrest). by rewrite lookup_insert_ne.
Qed.

(** A record that is resident stays resident, with the same comment count and
    created time, and with the cells of the other fields as they were. *)
Lemma mergeEntries_resident fieldIds newEntries existing merged res
    (recordId : RecordId) existingRecordObj :
  mergeEntries fieldIds newEntries existing = (merged, res) ->
  existing !! recordId = Some existingRecordObj ->
  exists recordObj,
    merged !! recordId = Some recordObj
    /\ commentCount recordObj = commentCount existingRecordObj
    /\ createdTime recordObj = createdTime existingRecordObj
    /\ (forall fieldId : FieldId, fieldId ∉ fieldIds ->
          cellOf recordObj fieldId = cellOf existingRecordObj fieldId).
Proof.
  revert existing existingRecordObj.
  induction newEntries as [|[rid new] rest IH]; intros existing exObj; simpl.
  - intros [= <- <-] Hex. eauto.
  - intros Hm Hex. destruct (decide (rid = recordId)) as [->|Hne].
    + rewrite Hex in Hm.
      destruct (mergeExisting fieldIds exObj new) as [m|e] eqn:Hme.
      * destruct (IH _ m Hm) as (r & Hr & Hc & Ht & Hcells);
          [by rewrite lookup_insert_eq|].
        pose proof (mergeExisting_ok _ _ _ _ Hme) as (_ & Hc' & Ht' & _).
        pose proof (mergeExisting_cells _ _ _ _ Hme) as [Hframe _].
        exists r. repeat split; [done|congruence|congruence|].
        intros f Hf. rewrite Hcells by done. by apply Hframe.
      * injection Hm as <- <-. eauto.
    + destruct (existing !! rid) as [ex|] eqn:Hrid.
      * destruct (mergeExisting fieldIds ex new) as [m|e].
        -- apply (IH _ _ Hm). by rewrite lookup_insert_ne.
        -- injection Hm as <- <-. eauto.
      * apply (IH _ _ Hm). by rewrite lookup_insert_ne.
Qed.

(** With distinct keys in the snapshot and no throw, every entry of the
    snapshot is either inserted as it is or merged field by field. *)
Lemma mergeEntries_entry fieldIds newEntries existing merged
    (recordId : RecordId) newRecordObj :
  mergeEntries fieldIds newEntries existing = (merged, None) ->
  NoDup newEntries.*1 ->
  (recordId, newRecordObj) ∈ newEntries ->
  match existing !! recordId with
  | None => merged !! recordId = Some newRecordObj
  | Some existingRecordObj =>
      exists recordObj,
        mergeExisting fieldIds existingRecordObj newRecordObj = inl recordObj
        /\ merged !! recordId = Some recordObj
  end.
Proof.
  revert existing. induction newEntries as [|[rid new] rest IH]; intros existing; simpl.
  - intros _ _ Hin. by apply elem_of_nil in Hin.
  - intros Hm Hnodup Hin. apply NoDup_cons in Hnodup as [Hfresh Hnodup].
    apply elem_of_cons in Hin as [[= -> ->]|Hin].
    + destruct (existing !! rid) as [ex|] eqn:Hex.
      * destruct (mergeExisting fieldIds ex new) as [m|e] eqn:Hme; [|by injection Hm].
        exists m. split; [done|].
        rewrite (mergeEntries_untouched _ _ _ _ _ _ Hm Hfresh).
        by rewrite lookup_insert_eq.
      * rewrite (mergeEntries_untouched _ _ _ _ _ _ Hm Hfresh).
        by rewrite lookup_insert_eq.
    + assert (rid ≠ recordId) as Hne.
      { intros ->. apply Hfresh. apply list_elem_of_fmap. by exists (recordId, newRecordObj). }
      destruct (existing !! rid) as [ex|] eqn:Hex.
      * destruct (mergeExisting fieldIds ex new) as [m|e] eqn:Hme; [|by injection Hm].
        specialize (IH _ Hm Hnodup Hin). by rewrite lookup_insert_ne in IH.
      * specialize (IH _ Hm Hnodup Hin). by rewrite lookup_insert_ne in IH.
Qed.

Lemma mergeExisting_error fieldIds existingRecordObj newRecordObj e :
  mergeExisting fieldIds existingRecordObj newRecordObj = inr e ->
  exists msg, e = InvariantViolation msg.
Proof.
  unfold mergeExisting.
  destruct (negb _); [intros [= <-]; eauto|].
  destruct (negb _); [intros [= <-]; eauto|discriminate].
Qed.

(** A snapshot entry that is out of sync with the resident record makes the
    merge throw. *)
Lemma mergeEntries_out_of_sync fieldIds newEntries existing
    (recordId : RecordId) newRecordObj existingRecordObj :
  (recordId, newRecordObj) ∈ newEntries ->
  existing !! recordId = Some existingRecordObj ->
  ~ inSync existingRecordObj newRecordObj ->
  exists merged msg,
    mergeEntries fieldIds newEntries existing = (merged, Some (InvariantViolation msg)).
Proof.
  revert existing existingRecordObj.
  induction newEntries as [|[rid new] rest IH]; intros existing exObj Hin Hex Hsync; simpl.
  - by apply elem_of_nil in Hin.
  - apply elem_of_cons in Hin as [[= <- <-]|Hin].
    + rewrite Hex.
      destruct (mergeExisting_out_of_sync fieldIds exObj newRecordObj Hsync) as [msg ->].
      eauto.
    + destruct (existing !! rid) as [ex|] eqn:Hrid.
      * destruct (mergeExisting fieldIds ex new) as [m|e] eqn:Hme.
        -- destruct (decide (rid = recordId)) as [->|Hne].
           ++ rewrite Hex in Hrid. injection Hrid as <-.
              pose proof (mergeExisting_ok _ _ _ _ Hme) as (_ & Hc & Ht & _).
              apply (IH _ m Hin); [by rewrite lookup_insert_eq|].
              unfold inSync in *. rewrite Hc, Ht. done.
           ++ apply (IH _ exObj Hin); [by rewrite lookup_insert_ne|done].
        -- destruct (mergeExisting_error _ _ _ _ Hme) as [msg ->]. eauto.
      * assert (rid ≠ recordId) as Hne by congruence.
        apply (IH _ exObj Hin); [by rewrite lookup_insert_ne|done].
Qed.

(** With distinct keys in the snapshot, the resident record that is out of
    sync is left exactly as it was. *)
Lemma mergeEntries_out_of_sync_kept fieldIds newEntries existing merged res
    (recordId : RecordId) newRecordObj existingRecordObj :
  mergeEntries fieldIds newEntries existing = (merged, res) ->
  NoDup newEntries.*1 ->
  (recordId, newRecordObj) ∈ newEntries ->
  existing !! recordId = Some existingRecordObj ->
  ~ inSync existingRecordObj newRecordObj ->
  merged !! recordId = Some existingRecordObj.
Proof.
  revert existing.
  induction newEntries as [|[rid new] rest IH]; intros existing Hm Hnodup Hin Hex Hsync.
  - by apply elem_of_nil in Hin.
  - simpl in Hm. apply NoDup_cons in Hnodup as [Hfresh Hnodup].
    apply elem_of_cons in Hin as [[= <- <-]|Hin].
    + rewrite Hex in Hm.
      destruct (mergeExisting_out_of_sync fieldIds existingRecordObj newRecordObj Hsync)
        as [msg Hme].
      rewrite Hme in Hm. by injection Hm as <- <-.
    + assert (rid ≠ recordId) as Hne.
      { intros ->. apply Hfresh. apply list_elem_of_fmap. by exists (recordId, newRecordObj). }
      destruct (existing !! rid) as [ex|] eqn:Hrid.
      * destruct (mergeExisting fieldIds ex new) as [m|e] eqn:Hme.
        -- apply (IH _ Hm Hnodup Hin); [by rewrite lookup_insert_ne|done].
        -- by injection Hm as <- <-.
      * apply (IH _ Hm Hnodup Hin); [by rewrite lookup_insert_ne|done].
Qed.

(** With distinct keys, a snapshot whose resident records are all in sync
    merges without a throw. *)
Lemma mergeEntries_in_sync fieldIds newEntries existing :
  NoDup newEntries.*1 ->
  (forall (recordId : RecordId) newRecordObj existingRecordObj,
     (recordId, newRecordObj) ∈ newEntries ->
     existing !! recordId = Some existingRecordObj ->
     inSync existingRecordObj newRecordObj) ->
  exists merged, mergeEntries fieldIds newEntries existing = (merged, None).
Proof.
  revert existing. induction newEntries as [|[rid new] rest IH]; intros existing; simpl.
  - eauto.
  - intros Hnodup Hsync. apply NoDup_cons in Hnodup as [Hfresh Hnodup].
    assert (forall m, (forall k : string, k ≠ rid -> m !! k = existing !! k) ->
              exists merged, mergeEntries fieldIds rest m = (merged, None)) as Hrest.
    { intros m Hm. apply IH; [done|]. intros k new' ex' Hin Hk.
      assert (k ≠ rid) as Hne.
      { intros ->. apply Hfresh. apply list_elem_of_fmap. by exists (rid, new'). }
      rewrite Hm in Hk by done. eapply Hsync; [|done]. by apply elem_of_cons; right. }
    destruct (existing !! rid) as [ex|] eqn:Hex.
    + destruct (mergeExisting_in_sync fieldIds ex new) as [m ->].
      { eapply Hsync; [|done]. by apply elem_of_cons; left. }
      apply Hrest. intros k Hk. by rewrite lookup_insert_ne.
    + apply Hrest. intros k Hk. by rewrite lookup_insert_ne.
Qed.

(** C5: when the snapshot fetched for the field ids [fieldIds] is merged, a
    record that was resident keeps its entry (and its comment count and
    created time); its cells for the field ids outside [fieldIds] are left
    as they were and its cells for the field ids in [fieldIds] are overwritten
    with the incoming ones; a resident record the snapshot does not mention is
    not touched; a record id that was not resident is inserted as the
    snapshot gives it; nothing else appears. *)
Theorem merge_overwrites_exactly_the_batch_fields
    (fieldIds : list FieldId) (newRecordsById : list (RecordId * RecordData))
    (s s' : RecordStore) (changedKeys : list WatchableRecordStoreKey) :
  NoDup newRecordsById.*1 ->
  _loadCellValuesInFieldIdsAsync_merge fieldIds newRecordsById s = (s', inl changedKeys) ->
  exists merged,
    s' = setRecordsById s (Some merged)
    /\ (forall (recordId : RecordId) existingRecordObj,
          default ∅ (recordsById s) !! recordId = Some existingRecordObj ->
          exists recordObj,
            merged !! recordId = Some recordObj
            /\ commentCount recordObj = commentCount existingRecordObj
            /\ createdTime recordObj = createdTime existingRecordObj
            /\ (forall fieldId : FieldId, fieldId ∉ fieldIds ->
                  cellOf recordObj fieldId = cellOf existingRecordObj fieldId)
            /\ (forall newRecordObj (fieldId : FieldId),
                  (recordId, newRecordObj) ∈ newRecordsById -> fieldId ∈ fieldIds ->
                  cellOf recordObj fieldId = Some (incomingCell newRecordObj fieldId))
            /\ (recordId ∉ newRecordsById.*1 -> recordObj = existingRecordObj))
    /\ (forall (recordId : RecordId) newRecordObj,
          default ∅ (recordsById s) !! recordId = None ->
          (recordId, newRecordObj) ∈ newRecordsById ->
          merged !! recordId = Some newRecordObj)
    /\ (forall recordId : RecordId,
          default ∅ (recordsById s) !! recordId = None ->
          recordId ∉ newRecordsById.*1 ->
          merged !! recordId = None).
Proof.
  intros Hnodup. unfold _loadCellValuesInFieldIdsAsync_merge.
  destruct (mergeEntries fieldIds newRecordsById (default ∅ (recordsById s)))
    as [merged [e|]] eqn:Hm; [discriminate|].
  intros [= <- <-]. exists merged. split; [done|]. split; [|split].
  - intros recordId exObj Hex.
    destruct (mergeEntries_resident _ _ _ _ _ _ _ Hm Hex) as (r & Hr & Hc & Ht & Hframe).
    exists r. repeat split; try done.
    + intros new fieldId Hin Hf.
      pose proof (mergeEntries_entry _ _ _ _ _ _ Hm Hnodup Hin) as Hentry.
      rewrite Hex in Hentry. destruct Hentry as (r' & Hme & Hr').
      rewrite Hr in Hr'. injection Hr' as <-.
      by apply (mergeExisting_cells _ _ _ _ Hme).
    + intros Hnotin. rewrite (mergeEntries_untouched _ _ _ _ _ _ Hm Hnotin) in Hr.
      congruence.
  - intros recordId new Hex Hin.
    pose proof (mergeEntries_entry _ _ _ _ _ _ Hm Hnodup Hin) as Hentry.
    by rewrite Hex in Hentry.
  - intros recordId Hex Hnotin.
    by rewrite (mergeEntries_untouched _ _ _ _ _ _ Hm Hnotin).
Qed.

(** C6: a snapshot entry for a resident record whose comment count or created
    time differs from the resident one makes the merge throw an invariant
    violation, and the resident record is left as it was; when every entry
    for a resident record agrees with it, the merge on a live table does not
    throw and returns the changed keys. *)
Theorem merge_halts_on_out_of_sync_metadata
    (fieldIds : list FieldId) (newRecordsById : list (RecordId * RecordData))
    (s : RecordStore) :
  NoDup newRecordsById.*1 ->
  (forall (recordId : RecordId) newRecordObj existingRecordObj,
     (recordId, newRecordObj) ∈ newRecordsById ->
     default ∅ (recordsById s) !! recordId = Some existingRecordObj ->
     (commentCount existingRecordObj ≠ commentCount newRecordObj
      \/ createdTime existingRecordObj ≠ createdTime newRecordObj) ->
     exists merged msg,
       _loadCellValuesInFieldIdsAsync_merge fieldIds newRecordsById s
       = (setRecordsById s (Some merged), inr (InvariantViolation msg))
       /\ merged !! recordId = Some existingRecordObj)
  /\ (isDeleted s = false ->
      (forall (recordId : RecordId) newRecordObj existingRecordObj,
         (recordId, newRecordObj) ∈ newRecordsById ->
         default ∅ (recordsById s) !! recordId = Some existingRecordObj ->
         commentCount existingRecordObj = commentCount newRecordObj
         /\ createdTime existingRecordObj = createdTime newRecordObj) ->
      exists merged,
        _loadCellValuesInFieldIdsAsync_merge fieldIds newRecordsById s
        = (setRecordsById s (Some merged), inl (changedKeysForFieldIds fieldIds))).
Proof.
  intros Hnodup. split.
  - intros recordId new exObj Hin Hex Hdiff.
    assert (~ inSync exObj new) as Hsync by (unfold inSync; tauto).
    destruct (mergeEntries_out_of_sync fieldIds _ _ _ _ _ Hin Hex Hsync)
      as (merged & msg & Hm).
    exists merged, msg. unfold _loadCellValuesInFieldIdsAsync_merge. rewrite Hm.
    split; [done|].
    by apply (mergeEntries_out_of_sync_kept _ _ _ _ _ _ _ _ Hm Hnodup Hin Hex).
  - intros _ Hsync.
    destruct (mergeEntries_in_sync fieldIds newRecordsById (default ∅ (recordsById s)) Hnodup)
      as [merged Hm]; [exact Hsync|].
    exists merged. unfold _loadCellValuesInFieldIdsAsync_merge. by rewrite Hm.
Qed.

(** ** Completion of a batch load *)

(** The lookup at [fieldId] in a table where [f] and then every key of [rest]
    were assigned the same value. *)
Ltac lookup_after_inserts fieldId f rest :=
  destruct (decide (fieldId ∈ rest)) as [Hin|Hnotin];
  [ rewrite !bool_decide_eq_true_2; [done| |done]; by apply elem_of_cons; right
  | rewrite (bool_decide_eq_false_2 _ Hnotin);
    destruct (decide (fieldId = f)) as [->|Hne];
    [ rewrite lookup_insert_eq; rewrite bool_decide_eq_true_2; [done|];
      by apply elem_of_cons; left
    | rewrite lookup_insert_ne by done; rewrite bool_decide_eq_false_2; [done|];
      intros [?|?]%elem_of_cons; done ] ].

Lemma markLoaded_flags fieldIds s (fieldId : FieldId) :
  _areCellValuesLoadedByFieldId (markLoaded fieldIds s) !! fieldId
  = if bool_decide (fieldId ∈ fieldIds) then Some true
    else _areCellValuesLoadedByFieldId s !! fieldId.
Proof.
  revert s. induction fieldIds as [|f rest IH]; intros s; simpl; [done|].
  rewrite IH. simpl.
  by lookup_after_inserts fieldId f rest.
Qed.

Lemma markLoaded_pending fieldIds s (fieldId : FieldId) :
  _pendingCellValuesLoadPromiseByFieldId (markLoaded fieldIds s) !! fieldId
  = if bool_decide (fieldId ∈ fieldIds) then Some None
    else _pendingCellValuesLoadPromiseByFieldId s !! fieldId.
Proof.
  revert s. induction fieldIds as [|f rest IH]; intros s; simpl; [done|].
  rewrite IH. simpl.
  by lookup_after_inserts fieldId f rest.
Qed.

Lemma markLoaded_recordsById fieldIds s :
  recordsById (markLoaded fieldIds s) = recordsById s.
Proof. revert s. induction fieldIds as [|f rest IH]; intros s; simpl; [done|]. by rewrite IH. Qed.

(** C10: when the fetch of a batch is answered and the merge goes through,
    the store fires, without payload and in this order, one
    [cellValuesInField:F] key per field [F] of the batch, then [records],
    [recordIds] and [cellValues], whatever the snapshot holds; in particular
    for a snapshot that mentions no record at all. *)
Theorem batch_load_broadcasts_all_keys
    (p : PromiseId) (fieldIds : list FieldId) (newRecordsById : list (RecordId * RecordData))
    (w : World) (changedKeys : list WatchableRecordStoreKey) :
  promises w !! p = Some (mkLoadPromise fieldIds Pending) ->
  snd (_loadCellValuesInFieldIdsAsync_merge fieldIds newRecordsById (store w))
  = inl changedKeys ->
  (exists w',
     fetchFulfilled p newRecordsById w = Some w'
     /\ trace w'
        = trace w
          ++ map (fun fieldId => OnChange ("cellValuesInField:" +:+ fieldId) NoPayload) fieldIds
          ++ [OnChange "records" NoPayload; OnChange "recordIds" NoPayload;
              OnChange "cellValues" NoPayload])
  /\ (exists w',
        fetchFulfilled p [] w = Some w'
        /\ default ∅ (recordsById (store w')) = default ∅ (recordsById (store w))
        /\ trace w'
           = trace w
             ++ map (fun fieldId => OnChange ("cellValuesInField:" +:+ fieldId) NoPayload)
                  fieldIds
             ++ [OnChange "records" NoPayload; OnChange "recordIds" NoPayload;
                 OnChange "cellValues" NoPayload]).
Proof.
  intros Hp Hok.
  assert (forall ids : list string,
            map (fun key => OnChange key NoPayload) (changedKeysForFieldIds ids)
            = map (fun fieldId => OnChange ("cellValuesInField:" +:+ fieldId) NoPayload) ids
              ++ [OnChange "records" NoPayload; OnChange "recordIds" NoPayload;
                  OnChange "cellValues" NoPayload]) as Hkeys.
  { intros ids. unfold changedKeysForFieldIds. rewrite !map_app, map_map.
    rewrite <- !app_assoc. done. }
  split.
  - unfold fetchFulfilled. rewrite Hp.
    unfold _loadCellValuesInFieldIdsAsync_merge in *.
    destruct (mergeEntries fieldIds newRecordsById (default ∅ (recordsById (store w))))
      as [merged [e|]]; [discriminate|].
    eexists. split; [done|]. simpl. by rewrite Hkeys.
  - unfold fetchFulfilled. rewrite Hp. simpl.
    eexists. split; [done|]. simpl. rewrite markLoaded_recordsById. simpl.
    split; [done|]. by rewrite Hkeys.
Qed.

(** ** Unloading *)

Lemma someFieldFlag_false s :
  someFieldFlag s = false <->
  forall fieldId : FieldId, _areCellValuesLoadedByFieldId s !! fieldId ≠ Some true.
Proof.
  unfold someFieldFlag. rewrite bool_decide_eq_false. split.
  - intros Hnone fieldId Hf. apply Hnone. exists fieldId, true. done.
  - intros Hall (fieldId & b & Hf & ->). by apply (Hall fieldId).
Qed.

Lemma areAnyFieldsLoaded_false s :
  areAnyFieldsLoaded s = false <->
  isDataLoaded s = false
  /\ forall fieldId : FieldId, _areCellValuesLoadedByFieldId s !! fieldId ≠ Some true.
Proof.
  unfold areAnyFieldsLoaded. rewrite orb_false_iff, someFieldFlag_false. done.
Qed.

Lemma fieldFlag_true_any s (fieldId : FieldId) :
  fieldFlag s fieldId = true -> areAnyFieldsLoaded s = true.
Proof.
  unfold fieldFlag. intros Hf.
  destruct (areAnyFieldsLoaded s) eqn:Hany; [done|].
  apply areAnyFieldsLoaded_false in Hany as [_ Hall].
  specialize (Hall fieldId).
  destruct (_areCellValuesLoadedByFieldId s !! fieldId) as [[]|]; simpl in Hf; done.
Qed.

Lemma afterUnload_frame unloadedFieldIds s :
  let s' := _afterUnloadDataOrUnloadCellValuesInFieldIds unloadedFieldIds s in
  tableId s' = tableId s
  /\ isDataLoaded s' = isDataLoaded s
  /\ isDeleted s' = isDeleted s
  /\ _areCellValuesLoadedByFieldId s' = _areCellValuesLoadedByFieldId s
  /\ _pendingCellValuesLoadPromiseByFieldId s' = _pendingCellValuesLoadPromiseByFieldId s
  /\ _cellValuesRetainCountByFieldId s' = _cellValuesRetainCountByFieldId s.
Proof.
  unfold _afterUnloadDataOrUnloadCellValuesInFieldIds. cbv zeta.
  destruct (isDeleted s) eqn:Hdel, (areAnyFieldsLoaded s) eqn:Hany,
    (isDataLoaded s) eqn:Hdata; simpl; rewrite ?Hdel, ?Hdata; done.
Qed.

Lemma afterUnload_drops unloadedFieldIds s :
  areAnyFieldsLoaded s = false ->
  let s' := _afterUnloadDataOrUnloadCellValuesInFieldIds unloadedFieldIds s in
  _recordModelsById s' = ∅
  /\ (isDeleted s = false -> recordsById s' = None)
  /\ (isDeleted s = true -> recordsById s' = recordsById s).
Proof.
  intros Hany. unfold _afterUnloadDataOrUnloadCellValuesInFieldIds. rewrite Hany.
  cbv zeta. destruct (isDeleted s); simpl; done.
Qed.

Lemma clearFlags_flags fieldIds s (fieldId : FieldId) :
  _areCellValuesLoadedByFieldId (clearFlags fieldIds s) !! fieldId
  = if bool_decide (fieldId ∈ fieldIds) then Some false
    else _areCellValuesLoadedByFieldId s !! fieldId.
Proof.
  revert s. induction fieldIds as [|f rest IH]; intros s; simpl; [done|].
  rewrite IH. simpl.
  by lookup_after_inserts fieldId f rest.
Qed.

Lemma clearFlags_frame fieldIds s :
  let s' := clearFlags fieldIds s in
  tableId s' = tableId s
  /\ isDataLoaded s' = isDataLoaded s
  /\ isDeleted s' = isDeleted s
  /\ recordsById s' = recordsById s
  /\ _recordModelsById s' = _recordModelsById s
  /\ _pendingCellValuesLoadPromiseByFieldId s' = _pendingCellValuesLoadPromiseByFieldId s
  /\ _cellValuesRetainCountByFieldId s' = _cellValuesRetainCountByFieldId s.
Proof.
  revert s. induction fieldIds as [|f rest IH]; intros s; cbv zeta in *; simpl; [done|].
  destruct (IH (setAreCellValuesLoaded s
                  (<[f := false]> (_areCellValuesLoadedByFieldId s))))
    as (H1 & H2 & H3 & H4 & H5 & H6 & H7).
  rewrite H1, H2, H3, H4, H5, H6, H7. done.
Qed.

Lemma clearCells_lookup_notin fieldIdsToClear cells (fieldId : FieldId) :
  fieldId ∉ fieldIdsToClear ->
  clearCells fieldIdsToClear cells !! fieldId = cells !! fieldId.
Proof.
  revert cells. induction fieldIdsToClear as [|f rest IH]; intros cells Hnotin; simpl; [done|].
  apply not_elem_of_cons in Hnotin as [Hne Hrest].
  rewrite IH by done. by rewrite lookup_insert_ne.
Qed.

Lemma clearCells_lookup_in fieldIdsToClear cells (fieldId : FieldId) :
  fieldId ∈ fieldIdsToClear ->
  clearCells fieldIdsToClear cells !! fieldId = Some VUndefined.
Proof.
  revert cells. induction fieldIdsToClear as [|f rest IH]; intros cells Hin; simpl.
  - by apply elem_of_nil in Hin.
  - destruct (decide (fieldId ∈ rest)) as [Hrest|Hrest]; [by apply IH|].
    apply elem_of_cons in Hin as [->|Hin]; [|done].
    rewrite clearCells_lookup_notin by done. by rewrite lookup_insert_eq.
Qed.

Lemma clearRecord_cellOf_cleared fieldIdsToClear recordObj (fieldId : FieldId) :
  fieldId ∈ fieldIdsToClear ->
  is_Some (cellValuesByFieldId recordObj) ->
  cellOf (clearRecord fieldIdsToClear recordObj) fieldId = Some VUndefined.
Proof.
  intros Hin [cells Hcells]. unfold clearRecord, cellOf. rewrite Hcells. simpl.
  by apply clearCells_lookup_in.
Qed.

Lemma clearRecord_cellOf fieldIdsToClear recordObj (fieldId : FieldId) :
  fieldId ∉ fieldIdsToClear ->
  cellOf (clearRecord fieldIdsToClear recordObj) fieldId = cellOf recordObj fieldId.
Proof.
  intros Hnotin. unfold clearRecord, cellOf.
  destruct (cellValuesByFieldId recordObj) eqn:Hcells; simpl; [|by rewrite Hcells].
  by apply clearCells_lookup_notin.
Qed.

(** After the clearing, either the whole record map was dropped because
    nothing is loaded any more, or every record is still there with the cells
    of the fields that were not unloaded as they were. *)
Lemma afterUnload_cells unloadedFieldIds s (fieldId : FieldId) :
  fieldId ∉ unloadedFieldIds ->
  let s' := _afterUnloadDataOrUnloadCellValuesInFieldIds (Some unloadedFieldIds) s in
  (areAnyFieldsLoaded s = false /\ isDeleted s = false /\ recordsById s' = None)
  \/ (forall (recordId : RecordId) recordObj,
        recordsById s ≫= (fun records => records !! recordId) = Some recordObj ->
        exists recordObj',
          recordsById s' ≫= (fun records => records !! recordId) = Some recordObj'
          /\ cellOf recordObj' fieldId = cellOf recordObj fieldId).
Proof.
  intros Hnotin. unfold _afterUnloadDataOrUnloadCellValuesInFieldIds. cbv zeta.
  destruct (isDeleted s) eqn:Hdel, (areAnyFieldsLoaded s) eqn:Hany,
    (isDataLoaded s) eqn:Hdata; simpl; eauto.
  right. intros recordId recordObj Hrec.
  destruct (recordsById s) as [records|]; simpl in *; [|done].
  rewrite lookup_fmap, Hrec. simpl.
  eexists. split; [done|]. by apply clearRecord_cellOf.
Qed.

(** C8: after an unload, per-field (the timer callback that unloads some
    field, or [_unloadCellValuesInFieldIds] itself) or of the full table
    ([_unloadData]), when the full-table data is not loaded and no per-field
    flag is true any more, the record model cache is empty and, unless the
    table is deleted, the record map is absent. *)
Theorem unload_drops_record_map_when_nothing_is_loaded (w w' : World) :
  (w' = _unloadData w
   \/ (exists fieldIds, w' = _unloadCellValuesInFieldIds fieldIds w)
   \/ (exists fieldIdsWithZeroRetainCount,
         w' = unloadTimerCallback fieldIdsWithZeroRetainCount w
         /\ List.filter (retainCountIsZero (store w)) fieldIdsWithZeroRetainCount ≠ [])) ->
  isDataLoaded (store w') = false ->
  (forall fieldId : FieldId,
     _areCellValuesLoadedByFieldId (store w') !! fieldId ≠ Some true) ->
  _recordModelsById (store w') = ∅
  /\ (isDeleted (store w') = false -> recordsById (store w') = None).
Proof.
  intros Hunload Hdata Hflags.
  assert (forall ids s,
            isDataLoaded (_afterUnloadDataOrUnloadCellValuesInFieldIds ids s) = false ->
            (forall fieldId : FieldId,
               _areCellValuesLoadedByFieldId
                 (_afterUnloadDataOrUnloadCellValuesInFieldIds ids s) !! fieldId ≠ Some true) ->
            _recordModelsById (_afterUnloadDataOrUnloadCellValuesInFieldIds ids s) = ∅
            /\ (isDeleted (_afterUnloadDataOrUnloadCellValuesInFieldIds ids s) = false ->
                recordsById (_afterUnloadDataOrUnloadCellValuesInFieldIds ids s) = None))
    as Hafter.
  { intros ids s Hd Hf.
    destruct (afterUnload_frame ids s) as (_ & Hd' & Hdel & Hfl & _).
    rewrite Hd' in Hd. rewrite Hfl in Hf. rewrite Hdel.
    assert (areAnyFieldsLoaded s = false) as Hany by by apply areAnyFieldsLoaded_false.
    destruct (afterUnload_drops ids s Hany) as (Hmodels & Hrecords & _). done. }
  destruct Hunload as [->|[[fieldIds ->]|(zero & -> & Hnonempty)]].
  - by apply Hafter.
  - by apply Hafter.
  - unfold unloadTimerCallback in *.
    destruct (List.filter (retainCountIsZero (store w)) zero) as [|f rest] eqn:Hfilter; [done|].
    rewrite bool_decide_eq_true_2 in * by (simpl; lia).
    by apply Hafter.
Qed.

Lemma filter_retainCountIsZero_elem s fieldIds (fieldId : FieldId) :
  fieldId ∈ List.filter (retainCountIsZero s) fieldIds ->
  fieldId ∈ fieldIds /\ _cellValuesRetainCountByFieldId s !! fieldId = Some 0.
Proof.
  rewrite list_elem_of_In, List.filter_In, <- list_elem_of_In.
  unfold retainCountIsZero. rewrite bool_decide_eq_true. done.
Qed.

(** C7: when the unload timer fires, a field whose retain count is greater
    than zero is skipped: the backend unsubscribe (if any) lists only fields
    whose count is zero, the loaded flag of the retained field and the retain
    counts are as before, and its cached cells are not cleared field-wise
    (either nothing at all is loaded any more and the whole record map was
    dropped, or every record keeps the cell it had for that field; the latter
    whenever the retained field is loaded). *)
Theorem unload_timer_skips_retained_field
    (w w' : World) (fieldId : FieldId) (n : Z) :
  timerFires w = Some w' ->
  _cellValuesRetainCountByFieldId (store w) !! fieldId = Some n ->
  0 < n ->
  (exists evs,
     trace w' = trace w ++ evs
     /\ forall tbl fieldIds,
          UnsubscribeFromCellValuesInFields tbl fieldIds ∈ evs ->
          (fieldId ∉ fieldIds)
          /\ (forall f : string, f ∈ fieldIds ->
                _cellValuesRetainCountByFieldId (store w) !! f = Some 0))
  /\ _areCellValuesLoadedByFieldId (store w') !! fieldId
     = _areCellValuesLoadedByFieldId (store w) !! fieldId
  /\ _cellValuesRetainCountByFieldId (store w') = _cellValuesRetainCountByFieldId (store w)
  /\ ((areAnyFieldsLoaded (store w') = false /\ recordsById (store w') = None)
      \/ (forall (recordId : RecordId) recordObj,
            recordsById (store w) ≫= (fun records => records !! recordId) = Some recordObj ->
            exists recordObj',
              recordsById (store w') ≫= (fun records => records !! recordId) = Some recordObj'
              /\ cellOf recordObj' fieldId = cellOf recordObj fieldId))
  /\ (fieldFlag (store w) fieldId = true ->
      forall (recordId : RecordId) recordObj,
        recordsById (store w) ≫= (fun records => records !! recordId) = Some recordObj ->
        exists recordObj',
          recordsById (store w') ≫= (fun records => records !! recordId) = Some recordObj'
          /\ cellOf recordObj' fieldId = cellOf recordObj fieldId).
Proof.
  intros Hfire Hcount Hpos. unfold timerFires in Hfire.
  destruct (timers w) as [|zero rest]; [discriminate|]. injection Hfire as <-.
  unfold unloadTimerCallback. simpl.
  set (toUnload := List.filter (retainCountIsZero (store w)) zero).
  assert (fieldId ∉ toUnload) as Hskip.
  { intros [_ Hzero]%filter_retainCountIsZero_elem. rewrite Hcount in Hzero.
    injection Hzero as ->. lia. }
  case_bool_decide as Hlen; simpl.
  2:{ split; [exists []; split; [by rewrite app_nil_r|]; intros ?? []%elem_of_nil|].
      repeat split; eauto. }
  set (s1 := clearFlags toUnload (store w)).
  destruct (clearFlags_frame toUnload (store w))
    as (Htbl & Hdata & Hdel & Hrecords & Hmodels & Hpending & Hretain).
  fold s1 in Htbl, Hdata, Hdel, Hrecords, Hmodels, Hpending, Hretain.
  destruct (afterUnload_frame (Some toUnload) s1)
    as (Htbl' & Hdata' & Hdel' & Hflags' & Hpending' & Hretain').
  assert (_areCellValuesLoadedByFieldId s1 !! fieldId
          = _areCellValuesLoadedByFieldId (store w) !! fieldId) as Hflag.
  { unfold s1. rewrite clearFlags_flags. by rewrite bool_decide_eq_false_2. }
  assert (areAnyFieldsLoaded (_afterUnloadDataOrUnloadCellValuesInFieldIds (Some toUnload) s1)
          = areAnyFieldsLoaded s1) as Hany.
  { unfold areAnyFieldsLoaded, someFieldFlag. by rewrite Hdata', Hflags'. }
  pose proof (afterUnload_cells toUnload s1 fieldId Hskip) as Hcells.
  cbv zeta in Hcells. rewrite Hrecords in Hcells.
  split; [|split; [|split; [|split]]].
  - eexists. split; [done|]. intros tbl fieldIds Hin.
    apply list_elem_of_singleton in Hin. injection Hin as -> ->.
    split; [done|]. intros f Hf. by apply filter_retainCountIsZero_elem in Hf as [_ Hf].
  - by rewrite Hflags'.
  - by rewrite Hretain'.
  - destruct Hcells as [(Hnone & _ & Hdrop)|Hkeep]; [left|right; done].
    by rewrite Hany.
  - intros Hloaded. destruct Hcells as [(Hnone & _ & _)|Hkeep]; [|done].
    assert (fieldFlag s1 fieldId = true) as Hloaded1.
    { unfold fieldFlag in *. by rewrite Hflag. }
    apply fieldFlag_true_any in Hloaded1. congruence.
Qed.

Lemma zeroCounts_lookup_in fieldIds counts (fieldId : FieldId) :
  fieldId ∈ fieldIds -> zeroCounts fieldIds counts !! fieldId = Some 0.
Proof.
  revert counts. induction fieldIds as [|f rest IH]; intros counts Hin; simpl.
  - by apply elem_of_nil in Hin.
  - destruct (decide (fieldId ∈ rest)) as [Hrest|Hrest]; [by apply IH|].
    apply elem_of_cons in Hin as [->|Hin]; [|done].
    clear IH. revert counts. induction rest as [|g rest IH]; intros counts; simpl.
    + by rewrite lookup_insert_eq.
    + apply not_elem_of_cons in Hrest as [Hne Hrest].
      rewrite insert_insert_ne by done. by apply IH.
Qed.

(** Releasing fields whose count is zero or absent: one log line per field,
    the counts written as zero, and every field pushed on the zero list. *)
Lemma releaseLoop_over_released fieldIds zero w :
  (forall fieldId : FieldId, fieldId ∈ fieldIds ->
     default 0 (_cellValuesRetainCountByFieldId (store w) !! fieldId) = 0) ->
  releaseLoop fieldIds zero w
  = (emitAll (map (fun _ => ConsoleLog "Field data over-released") fieldIds)
       (withStore (fun s =>
          setRetainCount s (zeroCounts fieldIds (_cellValuesRetainCountByFieldId s))) w),
     zero ++ fieldIds).
Proof.
  revert zero w. induction fieldIds as [|f rest IH]; intros zero w Hzero.
  - simpl. rewrite app_nil_r. destruct w as [[] ? ? ?]. unfold emitAll, withStore. simpl.
    by rewrite app_nil_r.
  - simpl. rewrite (Hzero f) by (by apply elem_of_cons; left). simpl.
    rewrite IH.
    + unfold emitAll, withStore, emit. simpl. rewrite <- !app_assoc. done.
    + intros g Hg. simpl.
      destruct (decide (f = g)) as [->|Hne].
      * by rewrite lookup_insert_eq.
      * rewrite lookup_insert_ne by done. apply Hzero. by apply elem_of_cons; right.
Qed.

(** C3 (amended): unloading fields that are already unloaded (count zero or
    absent, flag not set) is not a no-op.  At the call, each field is logged
    as over-released and its count is written as zero, no flag, record or
    record model changes and no backend call is made, but the unload timer
    is set for these fields.  When that timer fires with the counts still at
    zero, the unload step runs for them: the flag of each of these fields is
    written [false] (the other flags are left alone), the backend is told to
    unsubscribe from exactly these fields, and the after-unload clearing
    runs: when nothing is loaded any more the record models are dropped and,
    on a live table, the record map too; otherwise, when the full-table data
    is not loaded and the table is live, the record models stay and in every
    record the cells of these fields are set to [undefined] and the other
    cells are as they were. *)
Theorem unload_of_unloaded_fields_schedules_unload (fieldIds : list FieldId) (w : World) :
  fieldIds ≠ [] ->
  (forall fieldId : FieldId, fieldId ∈ fieldIds ->
     default 0 (_cellValuesRetainCountByFieldId (store w) !! fieldId) = 0
     /\ fieldFlag (store w) fieldId = false) ->
  unloadCellValuesInFieldIds fieldIds w
  = setTimers (timers w ++ [fieldIds])
      (emitAll (map (fun _ => ConsoleLog "Field data over-released") fieldIds)
         (withStore (fun s =>
            setRetainCount s (zeroCounts fieldIds (_cellValuesRetainCountByFieldId s))) w))
  /\ (forall fieldId : FieldId, fieldId ∈ fieldIds ->
        _cellValuesRetainCountByFieldId (store (unloadCellValuesInFieldIds fieldIds w))
          !! fieldId = Some 0)
  /\ (forall w2 : World,
        (forall fieldId : FieldId, fieldId ∈ fieldIds ->
           _cellValuesRetainCountByFieldId (store w2) !! fieldId = Some 0) ->
        unloadTimerCallback fieldIds w2
        = _unloadCellValuesInFieldIds fieldIds (withStore (clearFlags fieldIds) w2)
        /\ trace (unloadTimerCallback fieldIds w2)
           = trace w2 ++ [UnsubscribeFromCellValuesInFields (tableId (store w2)) fieldIds]
        /\ (forall fieldId : FieldId, fieldId ∈ fieldIds ->
              _areCellValuesLoadedByFieldId (store (unloadTimerCallback fieldIds w2))
                !! fieldId = Some false)
        /\ (forall fieldId : FieldId, fieldId ∉ fieldIds ->
              _areCellValuesLoadedByFieldId (store (unloadTimerCallback fieldIds w2))
                !! fieldId
              = _areCellValuesLoadedByFieldId (store w2) !! fieldId)
        /\ (areAnyFieldsLoaded (store (unloadTimerCallback fieldIds w2)) = false ->
            _recordModelsById (store (unloadTimerCallback fieldIds w2)) = ∅
            /\ (isDeleted (store w2) = false ->
                recordsById (store (unloadTimerCallback fieldIds w2)) = None))
        /\ (areAnyFieldsLoaded (store (unloadTimerCallback fieldIds w2)) = true ->
            isDataLoaded (store w2) = false ->
            isDeleted (store w2) = false ->
            _recordModelsById (store (unloadTimerCallback fieldIds w2))
            = _recordModelsById (store w2)
            /\ forall (recordId : RecordId) recordObj,
                 recordsById (store w2) ≫= (fun records => records !! recordId)
                 = Some recordObj ->
                 exists recordObj',
                   recordsById (store (unloadTimerCallback fieldIds w2))
                     ≫= (fun records => records !! recordId) = Some recordObj'
                   /\ (forall fieldId : FieldId, fieldId ∈ fieldIds ->
                         is_Some (cellValuesByFieldId recordObj) ->
                         cellOf recordObj' fieldId = Some VUndefined)
                   /\ (forall fieldId : FieldId, fieldId ∉ fieldIds ->
                         cellOf recordObj' fieldId = cellOf recordObj fieldId))).
Proof.
  intros Hnonempty Hunloaded.
  assert (unloadCellValuesInFieldIds fieldIds w
          = setTimers (timers w ++ [fieldIds])
              (emitAll (map (fun _ => ConsoleLog "Field data over-released") fieldIds)
                 (withStore (fun s =>
                    setRetainCount s
                      (zeroCounts fieldIds (_cellValuesRetainCountByFieldId s))) w)))
    as Hcall.
  { unfold unloadCellValuesInFieldIds.
    rewrite releaseLoop_over_released by (intros f Hf; by apply Hunloaded).
    simpl. rewrite bool_decide_eq_true_2; [done|].
    destruct fieldIds; [done|simpl; lia]. }
  split; [done|]. split.
  - intros fieldId Hin. rewrite Hcall. simpl. by apply zeroCounts_lookup_in.
  - intros w2 Hzero.
    assert (List.filter (retainCountIsZero (store w2)) fieldIds = fieldIds) as Hfilter.
    { clear -Hzero. induction fieldIds as [|f rest IH]; simpl; [done|].
      unfold retainCountIsZero at 1.
      rewrite bool_decide_eq_true_2 by (apply Hzero; by apply elem_of_cons; left).
      f_equal. apply IH. intros g Hg. apply Hzero. by apply elem_of_cons; right. }
    assert (unloadTimerCallback fieldIds w2
            = _unloadCellValuesInFieldIds fieldIds (withStore (clearFlags fieldIds) w2))
      as Htimer.
    { unfold unloadTimerCallback. rewrite Hfilter.
      by rewrite bool_decide_eq_true_2 by (destruct fieldIds; [done|simpl; lia]). }
    rewrite Htimer. unfold _unloadCellValuesInFieldIds.
    cbn [store trace withStore emit].
    set (s1 := clearFlags fieldIds (store w2)).
    destruct (clearFlags_frame fieldIds (store w2))
      as (Htbl & Hdata & Hdel & Hrecords & Hmodels & _ & _).
    fold s1 in Htbl, Hdata, Hdel, Hrecords, Hmodels.
    destruct (afterUnload_frame (Some fieldIds) s1) as (_ & Hdata' & _ & Hflags' & _ & _).
    assert (areAnyFieldsLoaded (_afterUnloadDataOrUnloadCellValuesInFieldIds
                                  (Some fieldIds) s1)
            = areAnyFieldsLoaded s1) as Hany.
    { unfold areAnyFieldsLoaded, someFieldFlag. by rewrite Hdata', Hflags'. }
    split_and!.
    + done.
    + by rewrite Htbl.
    + intros fieldId Hin. rewrite Hflags'. unfold s1. rewrite clearFlags_flags.
      by rewrite bool_decide_eq_true_2.
    + intros fieldId Hnotin. rewrite Hflags'. unfold s1. rewrite clearFlags_flags.
      by rewrite bool_decide_eq_false_2.
    + rewrite Hany. intros Hnone.
      destruct (afterUnload_drops (Some fieldIds) s1 Hnone) as (Hdrop & Hgone & _).
      split; [exact Hdrop|]. intros Hlive. apply Hgone. by rewrite Hdel.
    + rewrite Hany. intros Hsome Hnodata Hlive.
      unfold _afterUnloadDataOrUnloadCellValuesInFieldIds.
      rewrite Hsome, Hdel, Hlive, Hdata, Hnodata. cbn [negb].
      cbn [_recordModelsById recordsById setRecordsById].
      split; [exact Hmodels|].
      intros recordId recordObj Hrec. rewrite Hrecords.
      destruct (recordsById (store w2)) as [records|]; simpl in Hrec; [|done].
      simpl. rewrite lookup_fmap, Hrec. simpl. eexists. split; [done|]. split.
      * intros fieldId Hin Hcells. by apply clearRecord_cellOf_cleared.
      * intros fieldId Hnotin. by apply clearRecord_cellOf.
Qed.

(** ** Dirty paths *)

(** C4 (amended): with the record metadata loaded, a diff that marks [R2]
    (no longer in the record map) as structurally changed and reports a
    change of the cell of field [F1] on the resident record [R1] fires, in
    this order, [records] and [recordIds] with no added id and [R2] removed,
    then [cellValues] and [cellValuesInField:F1], both carrying every record
    id of the diff, [R2] included, in the order of the diff.  Before them,
    the diff of [R1] is forwarded to its record model when there is one. *)
Theorem dirty_paths_scenario_notifications
    (w : World) (records : gmap string RecordData) (R1 R2 F1 : string)
    (dirtyEntries : list (string * DirtyRecordPaths)) :
  recordsById (store w) = Some records ->
  is_Some (records !! R1) ->
  records !! R2 = None ->
  (dirtyEntries = [(R1, cellsChanged [F1]); (R2, structurallyChanged)]
   \/ dirtyEntries = [(R2, structurallyChanged); (R1, cellsChanged [F1])]) ->
  exists w',
    triggerOnChangeForDirtyPaths (mkDirtyPaths (Some dirtyEntries)) w = (w', None)
    /\ trace w'
       = trace w
         ++ match _recordModelsById (store w) !! R1 with
            | Some _ => [RecordModelTrigger R1]
            | None => []
            end
         ++ [OnChange "records" (RecordsChange [] [R2]);
             OnChange "recordIds" (RecordsChange [] [R2]);
             OnChange "cellValues" (CellValuesChange (map fst dirtyEntries) [F1]);
             OnChange ("cellValuesInField:" +:+ F1)
               (CellValuesInFieldChange (map fst dirtyEntries) F1)].
Proof.
  intros Hrecords HR1 HR2 Horder.
  assert (R1 ≠ R2) as Hne by (intros ->; rewrite HR2 in HR1; by destruct HR1).
  unfold triggerOnChangeForDirtyPaths, isRecordMetadataLoaded.
  rewrite Hrecords. rewrite bool_decide_eq_true_2 by eauto.
  destruct Horder as [-> | ->]; simpl.
  - destruct (_recordModelsById (store w) !! R1) as [model|] eqn:Hmodel; simpl;
      rewrite Hrecords, HR2; simpl; eexists; (split; [done|]); simpl;
      rewrite <- ?app_assoc; done.
  - rewrite Hrecords, HR2. simpl. rewrite lookup_delete_ne by done.
    destruct (_recordModelsById (store w) !! R1) as [model|] eqn:Hmodel; simpl;
      eexists; (split; [done|]); simpl; rewrite <- ?app_assoc; done.
Qed.

(** ** Deduplication of loads *)

Lemma loadLoop_spec s fieldIds counts cold joined :
  loadLoop s fieldIds counts cold joined
  = (foldl retainField counts fieldIds,
     cold ++ List.filter (isCold s) fieldIds,
     joined ++ omap (joinedPromise s) fieldIds).
Proof.
  revert counts cold joined.
  induction fieldIds as [|f rest IH]; intros counts cold joined; simpl.
  - by rewrite !app_nil_r.
  - unfold isCold, joinedPromise.
    destruct (fieldFlag s f); simpl.
    + by rewrite IH.
    + destruct (pendingLoadPromise s f) as [p|]; simpl.
      * rewrite IH. by rewrite <- app_assoc.
      * rewrite IH. by rewrite <- app_assoc.
Qed.

Lemma isCold_spec s (fieldId : FieldId) :
  isCold s fieldId = true <->
  fieldFlag s fieldId = false /\ pendingLoadPromise s fieldId = None.
Proof.
  unfold isCold. rewrite andb_true_iff, negb_true_iff, bool_decide_eq_true. done.
Qed.

Lemma markPending_lookup_notin p fieldIds m (fieldId : FieldId) :
  fieldId ∉ fieldIds -> markPending p fieldIds m !! fieldId = m !! fieldId.
Proof.
  revert m. induction fieldIds as [|f rest IH]; intros m Hnotin; simpl; [done|].
  apply not_elem_of_cons in Hnotin as [Hne Hrest].
  rewrite IH by done. by rewrite lookup_insert_ne.
Qed.

Lemma markPending_lookup_in p fieldIds m (fieldId : FieldId) :
  fieldId ∈ fieldIds -> markPending p fieldIds m !! fieldId = Some (Some p).
Proof.
  revert m. induction fieldIds as [|f rest IH]; intros m Hin; simpl.
  - by apply elem_of_nil in Hin.
  - destruct (decide (fieldId ∈ rest)) as [Hrest|Hrest]; [by apply IH|].
    apply elem_of_cons in Hin as [->|Hin]; [|done].
    rewrite markPending_lookup_notin by done. by rewrite lookup_insert_eq.
Qed.

(** What the call does to the world, in closed form. *)
Lemma loadCellValuesInFieldIdsAsync_spec fieldIds w :
  let s := store w in
  let cold := List.filter (isCold s) fieldIds in
  let counts := foldl retainField (_cellValuesRetainCountByFieldId s) fieldIds in
  loadCellValuesInFieldIdsAsync fieldIds w
  = match cold with
    | [] =>
        (withStore (fun s => setRetainCount s counts) w, omap (joinedPromise s) fieldIds)
    | _ :: _ =>
        ({| store :=
              setPendingLoadPromise (setRetainCount s counts)
                (markPending (length (promises w)) cold
                   (_pendingCellValuesLoadPromiseByFieldId s));
            promises := promises w ++ [mkLoadPromise cold Pending];
            timers := timers w;
            trace := trace w ++ [FetchAndSubscribeToCellValuesInFields (tableId s) cold] |},
         omap (joinedPromise s) fieldIds ++ [length (promises w)])
    end.
Proof.
  cbv zeta. unfold loadCellValuesInFieldIdsAsync. rewrite loadLoop_spec. simpl.
  destruct (List.filter (isCold (store w)) fieldIds) as [|f rest]; simpl; done.
Qed.

Lemma settle_lookup p st ps (q : nat) lp :
  settle p st ps !! q = Some lp ->
  (q = p /\ promiseState lp = st /\
     exists lp0, ps !! p = Some lp0 /\ promiseFieldIds lp = promiseFieldIds lp0)
  \/ (q ≠ p /\ ps !! q = Some lp).
Proof.
  unfold settle. destruct (ps !! p) as [lp0|] eqn:Hp.
  - destruct (decide (q = p)) as [->|Hne].
    + rewrite list_lookup_insert_eq by (by eapply lookup_lt_Some).
      intros [= <-]. left. simpl. eauto.
    + rewrite list_lookup_insert_ne by done. eauto.
  - intros Hq. right. split; [|done]. intros ->. congruence.
Qed.

Lemma loadCellValuesInFieldIdsAsync_covers fieldIds w :
  pendingMarkersCoverFetches w ->
  pendingMarkersCoverFetches (fst (loadCellValuesInFieldIdsAsync fieldIds w)).
Proof.
  intros Hinv. pose proof (loadCellValuesInFieldIdsAsync_spec fieldIds w) as Hspec.
  cbv zeta in Hspec. rewrite Hspec. clear Hspec.
  destruct (List.filter (isCold (store w)) fieldIds) as [|c cold] eqn:Hcold.
  - exact Hinv.
  - remember (c :: cold) as batch eqn:Hbatch. clear Hbatch.
    intros p ids f Hp Hf. simpl in *.
    destruct (decide (p < length (promises w))%nat) as [Hlt|Hge].
    + rewrite lookup_app_l in Hp by done.
      pose proof (Hinv p ids f Hp Hf) as Hmark.
      rewrite markPending_lookup_notin; [done|].
      rewrite <- Hcold. intros Hin.
      apply list_elem_of_In, List.filter_In in Hin as [_ Hc].
      apply isCold_spec in Hc as [_ Hc]. unfold pendingLoadPromise in Hc.
      rewrite Hmark in Hc. done.
    + rewrite lookup_app_r in Hp by lia.
      destruct (p - length (promises w))%nat as [|k] eqn:Hk; simpl in Hp; [|done].
      injection Hp as <-. assert (p = length (promises w)) as -> by lia.
      by apply markPending_lookup_in.
Qed.

Lemma fetchFulfilled_covers p newRecordsById w w' :
  pendingMarkersCoverFetches w ->
  fetchFulfilled p newRecordsById w = Some w' ->
  pendingMarkersCoverFetches w'.
Proof.
  intros Hinv. unfold fetchFulfilled.
  destruct (promises w !! p) as [[fieldIds []]|] eqn:Hp; try discriminate.
  unfold _loadCellValuesInFieldIdsAsync_merge.
  destruct (mergeEntries fieldIds newRecordsById (default ∅ (recordsById (store w))))
    as [merged [e|]]; intros [= <-]; intros q ids f Hq Hf; simpl in *.
  - apply settle_lookup in Hq as [(_ & Hst & _)|[Hne Hq]]; [done|].
    by apply (Hinv q ids f).
  - apply settle_lookup in Hq as [(_ & Hst & _)|[Hne Hq]]; [done|].
    rewrite markLoaded_pending. simpl.
    pose proof (Hinv q ids f Hq Hf) as Hmark.
    rewrite bool_decide_eq_false_2; [done|].
    intros Hin. pose proof (Hinv p fieldIds f Hp Hin) as Hmark'.
    rewrite Hmark in Hmark'. congruence.
Qed.

Lemma fetchRejected_covers p e w w' :
  pendingMarkersCoverFetches w ->
  fetchRejected p e w = Some w' ->
  pendingMarkersCoverFetches w'.
Proof.
  intros Hinv. unfold fetchRejected.
  destruct (promises w !! p) as [[fieldIds []]|] eqn:Hp; try discriminate.
  intros [= <-]. intros q ids f Hq Hf. simpl in *.
  apply settle_lookup in Hq as [(_ & Hst & _)|[Hne Hq]]; [done|].
  by apply (Hinv q ids f).
Qed.

(** The other steps touch neither the promise table nor the pending markers. *)
Lemma covers_transfer w w' :
  promises w' = promises w ->
  _pendingCellValuesLoadPromiseByFieldId (store w')
  = _pendingCellValuesLoadPromiseByFieldId (store w) ->
  pendingMarkersCoverFetches w -> pendingMarkersCoverFetches w'.
Proof. unfold pendingMarkersCoverFetches. intros -> ->. done. Qed.

Lemma releaseLoop_loads fieldIds zero w :
  promises (fst (releaseLoop fieldIds zero w)) = promises w
  /\ _pendingCellValuesLoadPromiseByFieldId (store (fst (releaseLoop fieldIds zero w)))
     = _pendingCellValuesLoadPromiseByFieldId (store w).
Proof.
  revert zero w. induction fieldIds as [|f rest IH]; intros zero w; simpl; [done|].
  destruct (default 0 (_cellValuesRetainCountByFieldId (store w) !! f) - 1 <? 0); simpl.
  - destruct (IH (zero ++ [f])
                (withStore (fun s =>
                   setRetainCount s (<[f := 0]> (_cellValuesRetainCountByFieldId s)))
                   (emit (ConsoleLog "Field data over-released") w))) as [-> ->].
    done.
  - destruct (default 0 (_cellValuesRetainCountByFieldId (store w) !! f) - 1 =? 0).
    + match goal with |- context [releaseLoop rest ?z ?w1] =>
        destruct (IH z w1) as [-> ->] end. done.
    + match goal with |- context [releaseLoop rest ?z ?w1] =>
        destruct (IH z w1) as [-> ->] end. done.
Qed.

Lemma unloadCellValuesInFieldIds_loads fieldIds w :
  promises (unloadCellValuesInFieldIds fieldIds w) = promises w
  /\ _pendingCellValuesLoadPromiseByFieldId (store (unloadCellValuesInFieldIds fieldIds w))
     = _pendingCellValuesLoadPromiseByFieldId (store w).
Proof.
  unfold unloadCellValuesInFieldIds.
  pose proof (releaseLoop_loads fieldIds [] w) as Hloop.
  destruct (releaseLoop fieldIds [] w) as [w1 zero]. simpl in Hloop.
  case_bool_decide; simpl; done.
Qed.

Lemma unloadTimerCallback_loads zero w :
  promises (unloadTimerCallback zero w) = promises w
  /\ _pendingCellValuesLoadPromiseByFieldId (store (unloadTimerCallback zero w))
     = _pendingCellValuesLoadPromiseByFieldId (store w).
Proof.
  unfold unloadTimerCallback. case_bool_decide; simpl; [|done].
  split; [done|].
  destruct (afterUnload_frame
              (Some (List.filter (retainCountIsZero (store w)) zero))
              (clearFlags (List.filter (retainCountIsZero (store w)) zero) (store w)))
    as (_ & _ & _ & _ & -> & _).
  by destruct (clearFlags_frame (List.filter (retainCountIsZero (store w)) zero) (store w))
    as (_ & _ & _ & _ & _ & -> & _).
Qed.

Lemma dirtyLoop_loads dirtyEntries acc w :
  promises (dirtyLoop dirtyEntries acc w).1.1 = promises w
  /\ _pendingCellValuesLoadPromiseByFieldId (store (dirtyLoop dirtyEntries acc w).1.1)
     = _pendingCellValuesLoadPromiseByFieldId (store w).
Proof.
  revert acc w. induction dirtyEntries as [|[rid paths] rest IH]; intros acc w; simpl; [done|].
  destruct (_isDirty paths).
  - destruct (recordsById (store w)) as [existing|]; [|done].
    case_bool_decide.
    + match goal with |- context [dirtyLoop rest ?a ?w1] =>
        destruct (IH a w1) as [-> ->] end. done.
    + match goal with |- context [dirtyLoop rest ?a ?w1] =>
        destruct (IH a w1) as [-> ->] end. done.
  - destruct (_recordModelsById (store w) !! rid).
    + match goal with |- context [dirtyLoop rest ?a ?w1] =>
        destruct (IH a w1) as [-> ->] end. done.
    + match goal with |- context [dirtyLoop rest ?a ?w1] =>
        destruct (IH a w1) as [-> ->] end. done.
Qed.

Lemma triggerOnChangeForDirtyPaths_loads dirtyPaths w :
  promises (triggerOnChangeForDirtyPaths dirtyPaths w).1 = promises w
  /\ _pendingCellValuesLoadPromiseByFieldId
       (store (triggerOnChangeForDirtyPaths dirtyPaths w).1)
     = _pendingCellValuesLoadPromiseByFieldId (store w).
Proof.
  unfold triggerOnChangeForDirtyPaths.
  destruct (isRecordMetadataLoaded (store w)); [|done].
  destruct (dirtyRecordsById dirtyPaths) as [dirtyEntries|]; [|done].
  pose proof (dirtyLoop_loads dirtyEntries (mkDirtyAcc [] [] []) w) as Hloop.
  destruct (dirtyLoop dirtyEntries (mkDirtyAcc [] [] []) w) as [[w1 acc] [e|]];
    simpl in *; [done|].
  repeat (match goal with |- context [if ?b then _ else _] => destruct b end; simpl); done.
Qed.

Lemma step_covers a w w' :
  pendingMarkersCoverFetches w -> step a w = Some w' -> pendingMarkersCoverFetches w'.
Proof.
  intros Hinv. destruct a; simpl.
  - intros [= <-]. by apply loadCellValuesInFieldIdsAsync_covers.
  - intros [= <-]. destruct (unloadCellValuesInFieldIds_loads fieldIds w).
    by eapply covers_transfer.
  - by apply fetchFulfilled_covers.
  - by apply fetchRejected_covers.
  - unfold timerFires. destruct (timers w) as [|zero rest]; [done|]. intros [= <-].
    destruct (unloadTimerCallback_loads zero (setTimers rest w)).
    by eapply covers_transfer.
  - intros [= <-]. destruct (triggerOnChangeForDirtyPaths_loads dirtyPaths w).
    by eapply covers_transfer.
  - intros [= <-]. unfold _unloadData. simpl.
    destruct (afterUnload_frame None (store w)) as (_ & _ & _ & _ & Hp & _).
    eapply covers_transfer; [| |exact Hinv]; [done|exact Hp].
  - intros [= <-]. eapply covers_transfer; [| |exact Hinv]; done.
Qed.

Lemma run_covers actions w w' :
  pendingMarkersCoverFetches w -> run actions w = Some w' -> pendingMarkersCoverFetches w'.
Proof.
  revert w. induction actions as [|a rest IH]; intros w Hinv; simpl.
  - by intros [= <-].
  - destruct (step a w) as [w1|] eqn:Hstep; [|done].
    apply IH. by eapply step_covers.
Qed.

Lemma reachable_covers w : reachable w -> pendingMarkersCoverFetches w.
Proof.
  intros (tbl & primary & fields & r & actions & Hrun).
  eapply run_covers; [|done]. intros p ids f Hp. simpl in Hp. by rewrite lookup_nil in Hp.
Qed.

(** C1: in a reachable world, a call of [loadCellValuesInFieldIdsAsync]
    batches exactly the requested fields that are neither loaded nor loading
    into at most one new fetch; a requested field that is loading is joined
    to its pending promise, keeps that promise as its marker and is not
    fetched again; and, before the call as after it, no field is covered by
    two outstanding fetches. *)
Theorem load_joins_pending_fetch_and_batches_cold_fields
    (w : World) (fieldIds : list FieldId) :
  reachable w ->
  let cold := List.filter (isCold (store w)) fieldIds in
  let w' := fst (loadCellValuesInFieldIdsAsync fieldIds w) in
  let awaited := snd (loadCellValuesInFieldIdsAsync fieldIds w) in
  (forall fieldId : FieldId,
     fieldId ∈ cold <->
     fieldId ∈ fieldIds /\ fieldFlag (store w) fieldId = false
     /\ pendingLoadPromise (store w) fieldId = None)
  /\ trace w'
     = trace w
       ++ match cold with
          | [] => []
          | _ :: _ => [FetchAndSubscribeToCellValuesInFields (tableId (store w)) cold]
          end
  /\ (forall (fieldId : FieldId) (p : PromiseId),
        fieldId ∈ fieldIds ->
        fieldFlag (store w) fieldId = false ->
        pendingLoadPromise (store w) fieldId = Some p ->
        p ∈ awaited /\ (fieldId ∉ cold) /\ pendingLoadPromise (store w') fieldId = Some p)
  /\ (forall (fieldId : FieldId) (p q : PromiseId),
        outstandingFetch w' p fieldId -> outstandingFetch w' q fieldId -> p = q)
  /\ (forall (fieldId : FieldId) (p q : PromiseId),
        outstandingFetch w p fieldId -> outstandingFetch w q fieldId -> p = q).
Proof.
  intros Hreach. cbv zeta.
  pose proof (loadCellValuesInFieldIdsAsync_covers fieldIds w (reachable_covers w Hreach))
    as Hinv.
  assert (forall fieldId : FieldId,
            fieldId ∈ List.filter (isCold (store w)) fieldIds <->
            fieldId ∈ fieldIds /\ fieldFlag (store w) fieldId = false
            /\ pendingLoadPromise (store w) fieldId = None) as Hcold.
  { intros fieldId. rewrite list_elem_of_In, List.filter_In, <- list_elem_of_In.
    by rewrite isCold_spec. }
  split; [exact Hcold|]. split; [|split; [|split]].
  - pose proof (loadCellValuesInFieldIdsAsync_spec fieldIds w) as Hspec.
    cbv zeta in Hspec. rewrite Hspec.
    destruct (List.filter (isCold (store w)) fieldIds); simpl; [by rewrite app_nil_r|done].
  - intros fieldId p Hin Hflag Hpending.
    assert (fieldId ∉ List.filter (isCold (store w)) fieldIds) as Hnotcold.
    { rewrite Hcold. intros (_ & _ & Hnone). congruence. }
    pose proof (loadCellValuesInFieldIdsAsync_spec fieldIds w) as Hspec.
    cbv zeta in Hspec. rewrite Hspec.
    assert (p ∈ omap (joinedPromise (store w)) fieldIds) as Hjoined.
    { apply list_elem_of_omap. exists fieldId. split; [done|].
      unfold joinedPromise. by rewrite Hflag. }
    destruct (List.filter (isCold (store w)) fieldIds) as [|c cold] eqn:Hfilter.
    + simpl. done.
    + remember (c :: cold) as batch eqn:Hbatch. clear Hbatch. simpl.
      split; [by apply elem_of_app; left|]. split; [done|].
      unfold pendingLoadPromise in *. simpl.
      by rewrite markPending_lookup_notin.
  - intros fieldId p q (ids1 & Hp & Hf1) (ids2 & Hq & Hf2).
    pose proof (Hinv p ids1 fieldId Hp Hf1) as Hmark1.
    pose proof (Hinv q ids2 fieldId Hq Hf2) as Hmark2.
    congruence.
  - intros fieldId p q (ids1 & Hp & Hf1) (ids2 & Hq & Hf2).
    pose proof (reachable_covers w Hreach p ids1 fieldId Hp Hf1) as Hmark1.
    pose proof (reachable_covers w Hreach q ids2 fieldId Hq Hf2) as Hmark2.
    congruence.
Qed.

(** A failed fetch leaves the loaded flags and the pending markers as they
    were: the fields of the batch stay marked with the rejected promise. *)
Lemma fetchRejected_keeps_markers p e w w' :
  fetchRejected p e w = Some w' ->
  store w' = store w
  /\ trace w' = trace w
  /\ isRejected (promises w') p = true.
Proof.
  unfold fetchRejected.
  destruct (promises w !! p) as [[fieldIds []]|] eqn:Hp; try discriminate.
  intros [= <-]. simpl. repeat split.
  unfold isRejected, settle. rewrite Hp.
  rewrite list_lookup_insert_eq by (by eapply lookup_lt_Some). done.
Qed.

(** A field whose marker is a promise is joined to it and never fetched,
    whatever the state of that promise. *)
Lemma marked_field_is_not_fetched w (fieldId : FieldId) (p : PromiseId) :
  fieldFlag (store w) fieldId = false ->
  pendingLoadPromise (store w) fieldId = Some p ->
  loadCellValuesInFieldIdsAsync [fieldId] w
  = (withStore (fun s =>
       setRetainCount s (retainField (_cellValuesRetainCountByFieldId s) fieldId)) w,
     [p]).
Proof.
  intros Hflag Hpending.
  pose proof (loadCellValuesInFieldIdsAsync_spec [fieldId] w) as Hspec.
  cbv zeta in Hspec. rewrite Hspec. simpl.
  unfold isCold, joinedPromise. rewrite Hflag, Hpending. simpl. done.
Qed.

(** C2: the fetch of [fldA] fails.  No flag is set and the joined caller is
    rejected, as claimed; but the pending marker of [fldA] still holds the
    rejected promise, so the next load of [fldA] issues no fetch (the trace
    still shows the single original fetch), is joined to the rejected promise
    and is rejected in turn. *)
Theorem failed_fetch_is_never_retried :
  fetchRejected 0 (BackendError "network error") loadingWorld = Some failedWorld
  /\ snd (loadCellValuesInFieldIdsAsync ["fldA"] emptyWorld) = [0%nat]
  /\ fieldFlag (store failedWorld) "fldA" = false
  /\ awaitAll failedWorld [0%nat] = JoinRejected
  /\ pendingLoadPromise (store failedWorld) "fldA" = Some 0%nat
  /\ trace failedWorld = [FetchAndSubscribeToCellValuesInFields "tblA" ["fldA"]]
  /\ trace (fst (loadCellValuesInFieldIdsAsync ["fldA"] failedWorld))
     = [FetchAndSubscribeToCellValuesInFields "tblA" ["fldA"]]
  /\ snd (loadCellValuesInFieldIdsAsync ["fldA"] failedWorld) = [0%nat]
  /\ awaitAll (fst (loadCellValuesInFieldIdsAsync ["fldA"] failedWorld)) [0%nat]
     = JoinRejected.
Proof. repeat split; vm_compute; reflexivity. Qed.

(** * The properties on the example stores *)

Lemma fully_loaded_store_answers_true_for_unknown_field :
  isDataLoaded fullyLoadedStore = true
  /\ fieldFlag fullyLoadedStore "fldZ" = false
  /\ areCellValuesLoadedForFieldId fullyLoadedStore "fldZ" = true.
Proof.
  split; [reflexivity|]. split; [vm_compute; reflexivity|].
  apply (areCellValuesLoadedForFieldId_when_data_loaded fullyLoadedStore "fldZ").
  reflexivity.
Defined.

Lemma second_load_fetches_only_the_cold_field :
  reachable loadingWorld
  /\ trace (fst (loadCellValuesInFieldIdsAsync ["fldA"; "fldB"] loadingWorld))
     = [FetchAndSubscribeToCellValuesInFields "tblA" ["fldA"];
        FetchAndSubscribeToCellValuesInFields "tblA" ["fldB"]]
  /\ 0%nat ∈ snd (loadCellValuesInFieldIdsAsync ["fldA"; "fldB"] loadingWorld).
Proof.
  assert (reachable loadingWorld) as Hreach.
  { exists "tblA", "fldA", ["fldA"; "fldB"], None, [CallLoad ["fldA"]]. reflexivity. }
  split; [exact Hreach|].
  destruct (load_joins_pending_fetch_and_batches_cold_fields
              loadingWorld ["fldA"; "fldB"] Hreach) as (_ & Htrace & Hjoin & _).
  split.
  - rewrite Htrace. vm_compute. reflexivity.
  - apply (Hjoin "fldA" 0%nat).
    + apply elem_of_cons. left. reflexivity.
    + vm_compute. reflexivity.
    + vm_compute. reflexivity.
Defined.

Lemma over_release_timer_unsubscribes_example :
  trace (unloadTimerCallback ["fldA"] (unloadCellValuesInFieldIds ["fldA"] emptyWorld))
  = trace (unloadCellValuesInFieldIds ["fldA"] emptyWorld)
    ++ [UnsubscribeFromCellValuesInFields "tblA" ["fldA"]]
  /\ _areCellValuesLoadedByFieldId (store emptyWorld) !! "fldA" = None
  /\ _areCellValuesLoadedByFieldId
       (store (unloadTimerCallback ["fldA"]
                 (unloadCellValuesInFieldIds ["fldA"] emptyWorld)))
       !! "fldA" = Some false
  /\ _recordModelsById
       (store (unloadTimerCallback ["fldA"]
                 (unloadCellValuesInFieldIds ["fldA"] emptyWorld))) = ∅.
Proof.
  assert (["fldA"] ≠ @nil string) as Hnonempty by discriminate.
  assert (forall fieldId : string, fieldId ∈ ["fldA"] ->
            default 0 (_cellValuesRetainCountByFieldId (store emptyWorld) !! fieldId) = 0
            /\ fieldFlag (store emptyWorld) fieldId = false) as Hunloaded.
  { intros fieldId Hin. apply list_elem_of_singleton in Hin. rewrite Hin.
    split; vm_compute; reflexivity. }
  destruct (unload_of_unloaded_fields_schedules_unload ["fldA"] emptyWorld
              Hnonempty Hunloaded) as (_ & Hzero & Htimer).
  destruct (Htimer (unloadCellValuesInFieldIds ["fldA"] emptyWorld) Hzero)
    as (_ & Htrace & Hflags & _ & Hdrop & _).
  split; [rewrite Htrace; vm_compute; reflexivity|].
  split; [vm_compute; reflexivity|].
  split.
  - apply (Hflags "fldA"). apply elem_of_cons. left. reflexivity.
  - apply Hdrop. vm_compute. reflexivity.
Defined.

(** C3, as claimed, fails: [fldA] is unloaded, with a retain count of zero,
    and unloading it once more makes the timer issue a backend unsubscribe. *)
Lemma unload_of_unloaded_field_unsubscribes :
  _cellValuesRetainCountByFieldId (store unloadedWorld) !! "fldA" = Some 0
  /\ fieldFlag (store unloadedWorld) "fldA" = false
  /\ exists w',
       timerFires (unloadCellValuesInFieldIds ["fldA"] unloadedWorld) = Some w'
       /\ trace w'
          = trace unloadedWorld
            ++ [ConsoleLog "Field data over-released";
                UnsubscribeFromCellValuesInFields "tblA" ["fldA"]].
Proof.
  split; [vm_compute; reflexivity|]. split; [vm_compute; reflexivity|].
  eexists. split; [vm_compute; reflexivity|]. vm_compute. reflexivity.
Qed.

Lemma scenario_diff_fires_with_both_record_ids :
  trace (fst (triggerOnChangeForDirtyPaths scenarioDirtyPaths (newWorld loadedStore)))
  = [RecordModelTrigger "recA";
     OnChange "records" (RecordsChange [] ["recB"]);
     OnChange "recordIds" (RecordsChange [] ["recB"]);
     OnChange "cellValues" (CellValuesChange ["recA"; "recB"] ["fldA"]);
     OnChange "cellValuesInField:fldA" (CellValuesInFieldChange ["recA"; "recB"] "fldA")].
Proof.
  assert (recordsById (store (newWorld loadedStore)) = Some {[ "recA" := recA ]})
    as Hrecords by reflexivity.
  assert (is_Some (({[ "recA" := recA ]} : gmap string RecordData) !! "recA")) as HR1.
  { exists recA. vm_compute. reflexivity. }
  assert ((({[ "recA" := recA ]} : gmap string RecordData) !! "recB") = None) as HR2.
  { vm_compute. reflexivity. }
  destruct (dirty_paths_scenario_notifications (newWorld loadedStore) {[ "recA" := recA ]}
              "recA" "recB" "fldA"
              [("recA", cellsChanged ["fldA"]); ("recB", structurallyChanged)]
              Hrecords HR1 HR2 (or_introl eq_refl)) as (w' & Hrun & Htrace).
  change (triggerOnChangeForDirtyPaths scenarioDirtyPaths (newWorld loadedStore))
    with (triggerOnChangeForDirtyPaths
            {| dirtyRecordsById :=
                 Some [("recA", cellsChanged ["fldA"]); ("recB", structurallyChanged)] |}
            (newWorld loadedStore)).
  rewrite Hrun. simpl. rewrite Htrace. vm_compute. reflexivity.
Defined.

(** C4, as claimed, fails: the [cellValues] and [cellValuesInField:fldA]
    notifications carry the removed record [recB] next to [recA]. *)
Lemma dirty_paths_scenario_payload_has_removed_record :
  onChangeCalls
    (trace (fst (triggerOnChangeForDirtyPaths scenarioDirtyPaths (newWorld loadedStore))))
  ≠ [OnChange "records" (RecordsChange [] ["recB"]);
     OnChange "recordIds" (RecordsChange [] ["recB"]);
     OnChange "cellValues" (CellValuesChange ["recA"] ["fldA"]);
     OnChange "cellValuesInField:fldA" (CellValuesInFieldChange ["recA"] "fldA")].
Proof. vm_compute. discriminate. Qed.

Lemma merging_fldA_keeps_fldB_example :
  exists merged,
    recordsById (fst (_loadCellValuesInFieldIdsAsync_merge ["fldA"]
                        [("recA", incomingRecA); ("recB", incomingRecB)] loadedStore))
    = Some merged
    /\ (exists recordObj,
          merged !! "recA" = Some recordObj
          /\ cellOf recordObj "fldA" = Some (VStr "a2")
          /\ cellOf recordObj "fldB" = Some (VStr "b"))
    /\ merged !! "recB" = Some incomingRecB.
Proof.
  assert (NoDup [("recA", incomingRecA); ("recB", incomingRecB)].*1) as Hnodup.
  { apply (bool_decide_unpack _). vm_compute. exact I. }
  destruct (merge_overwrites_exactly_the_batch_fields ["fldA"]
              [("recA", incomingRecA); ("recB", incomingRecB)] loadedStore
              (fst (_loadCellValuesInFieldIdsAsync_merge ["fldA"]
                      [("recA", incomingRecA); ("recB", incomingRecB)] loadedStore))
              (changedKeysForFieldIds ["fldA"]) Hnodup)
    as (merged & Hstore & Hresident & Hinserted & _).
  { vm_compute. reflexivity. }
  exists merged. split; [by rewrite Hstore|]. split.
  - destruct (Hresident "recA" recA) as (recordObj & Hr & _ & _ & Hframe & Hover & _).
    { vm_compute. reflexivity. }
    exists recordObj. split; [exact Hr|]. split.
    + rewrite (Hover incomingRecA "fldA").
      * vm_compute. reflexivity.
      * apply elem_of_cons. left. reflexivity.
      * apply elem_of_cons. left. reflexivity.
    + rewrite (Hframe "fldB").
      * vm_compute. reflexivity.
      * intros Hin. apply list_elem_of_singleton in Hin. discriminate.
  - apply Hinserted.
    + vm_compute. reflexivity.
    + apply elem_of_cons. right. apply elem_of_cons. left. reflexivity.
Defined.

Lemma comment_count_mismatch_throws_example :
  (exists merged msg,
     _loadCellValuesInFieldIdsAsync_merge ["fldA"]
       [("recB", incomingRecB); ("recA", outOfSyncRecA)] loadedStore
     = (setRecordsById loadedStore (Some merged), inr (InvariantViolation msg))
     /\ merged !! "recA" = Some recA)
  /\ (exists merged,
        _loadCellValuesInFieldIdsAsync_merge ["fldA"] [("recB", incomingRecB)] loadedStore
        = (setRecordsById loadedStore (Some merged), inl (changedKeysForFieldIds ["fldA"]))).
Proof.
  split.
  - assert (NoDup [("recB", incomingRecB); ("recA", outOfSyncRecA)].*1) as Hnodup.
    { apply (bool_decide_unpack _). vm_compute. exact I. }
    destruct (merge_halts_on_out_of_sync_metadata ["fldA"]
                [("recB", incomingRecB); ("recA", outOfSyncRecA)] loadedStore Hnodup)
      as [Hhalt _].
    apply (Hhalt "recA" outOfSyncRecA recA).
    + apply elem_of_cons. right. apply elem_of_cons. left. reflexivity.
    + vm_compute. reflexivity.
    + left. vm_compute. discriminate.
  - assert (NoDup [("recB", incomingRecB)].*1) as Hnodup.
    { apply (bool_decide_unpack _). vm_compute. exact I. }
    destruct (merge_halts_on_out_of_sync_metadata ["fldA"]
                [("recB", incomingRecB)] loadedStore Hnodup) as [_ Hproceeds].
    apply Hproceeds; [reflexivity|]. intros recordId new existing Hin Hresident.
    apply list_elem_of_singleton in Hin. injection Hin as -> ->.
    vm_compute in Hresident. discriminate.
Defined.

Lemma reretained_field_survives_timer_example :
  exists w',
    timerFires reretainedWorld = Some w'
    /\ trace w' = trace reretainedWorld
    /\ _areCellValuesLoadedByFieldId (store w') !! "fldA" = Some true.
Proof.
  exists (default emptyWorld (timerFires reretainedWorld)).
  assert (timerFires reretainedWorld = Some (default emptyWorld (timerFires reretainedWorld)))
    as Hfire by (vm_compute; reflexivity).
  split; [exact Hfire|].
  destruct (unload_timer_skips_retained_field reretainedWorld
              (default emptyWorld (timerFires reretainedWorld)) "fldA" 1 Hfire)
    as (_ & Hflag & _).
  - vm_compute. reflexivity.
  - lia.
  - split; [vm_compute; reflexivity|]. rewrite Hflag. vm_compute. reflexivity.
Defined.

Lemma unload_data_drops_records_example :
  recordsById unloadedStore = Some {[ "recA" := recA ]}
  /\ _recordModelsById (store (_unloadData (newWorld unloadedStore))) = ∅
  /\ recordsById (store (_unloadData (newWorld unloadedStore))) = None.
Proof.
  split; [reflexivity|].
  destruct (unload_drops_record_map_when_nothing_is_loaded
              (newWorld unloadedStore) (_unloadData (newWorld unloadedStore)))
    as [Hmodels Hrecords].
  - left. reflexivity.
  - vm_compute. reflexivity.
  - apply someFieldFlag_false. vm_compute. reflexivity.
  - split; [exact Hmodels|]. apply Hrecords. vm_compute. reflexivity.
Defined.

Lemma empty_snapshot_broadcasts_example :
  exists w',
    fetchFulfilled 0 [] loadingWorld = Some w'
    /\ trace w'
       = [FetchAndSubscribeToCellValuesInFields "tblA" ["fldA"];
          OnChange "cellValuesInField:fldA" NoPayload;
          OnChange "records" NoPayload; OnChange "recordIds" NoPayload;
          OnChange "cellValues" NoPayload].
Proof.
  destruct (batch_load_broadcasts_all_keys 0 ["fldA"] [] loadingWorld
              (changedKeysForFieldIds ["fldA"])) as [(w' & Hrun & Htrace) _].
  - vm_compute. reflexivity.
  - vm_compute. reflexivity.
  - exists w'. split; [exact Hrun|]. rewrite Htrace. vm_compute. reflexivity.
Defined.

(** * Further properties of the store *)

(** ** Watch keys *)

Lemma prefix_append (p rest : string) : String.prefix p (p +:+ rest) = true.
Proof.
  induction p as [|a p IH]; simpl.
  - by destruct rest.
  - destruct (Ascii.ascii_dec a a); [exact IH|done].
Qed.


Lemma substringFrom_append (p rest : string) :
  substringFrom (String.length p) (p +:+ rest) = rest.
Proof. induction p as [|a p IH]; simpl; [by destruct rest|exact IH]. Qed.

Lemma startsWith_field_key (fieldId : FieldId) :
  startsWith (WatchableCellValuesInFieldKeyPrefix +:+ fieldId)
    WatchableCellValuesInFieldKeyPrefix = true.
Proof. apply prefix_append. Qed.

(** X1: the routing of watch keys to field ids.  A key
    [cellValuesInField:F] asks for the field [F], whatever [F] is; [records]
    and [recordIds] ask for the primary field; [cellValues] and the per-view
    keys ask for no field. *)
Theorem watch_key_routing (s : RecordStore) :
  (forall fieldId : FieldId,
     _getFieldIdsToLoadFromWatchableKeys s ["cellValuesInField:" +:+ fieldId] = [fieldId])
  /\ _getFieldIdsToLoadFromWatchableKeys s ["records"] = [_primaryFieldId s]
  /\ _getFieldIdsToLoadFromWatchableKeys s ["recordIds"] = [_primaryFieldId s]
  /\ _getFieldIdsToLoadFromWatchableKeys s ["cellValues"] = []
  /\ (forall viewId : string,
        _getFieldIdsToLoadFromWatchableKeys s ["recordIdsInView:" +:+ viewId] = []
        /\ _getFieldIdsToLoadFromWatchableKeys s ["recordColorsInView:" +:+ viewId] = []).
Proof.
  split; [|repeat split; reflexivity].
  intros fieldId.
  change ("cellValuesInField:" +:+ fieldId)
    with (WatchableCellValuesInFieldKeyPrefix +:+ fieldId).
  cbn [_getFieldIdsToLoadFromWatchableKeys].
  rewrite startsWith_field_key.
  by rewrite (substringFrom_append WatchableCellValuesInFieldKeyPrefix fieldId).
Qed.

(** X2: decoding the keys built from a list of field ids gives the list
    back, in order and with its repetitions. *)
Theorem field_keys_round_trip (s : RecordStore) (fieldIds : list FieldId) :
  _getFieldIdsToLoadFromWatchableKeys s
    (map (fun fieldId => "cellValuesInField:" +:+ fieldId) fieldIds)
  = fieldIds.
Proof.
  induction fieldIds as [|f rest IH]; [done|].
  cbn [map _getFieldIdsToLoadFromWatchableKeys].
  change ("cellValuesInField:" +:+ f) with (WatchableCellValuesInFieldKeyPrefix +:+ f).
  rewrite startsWith_field_key.
  rewrite (substringFrom_append WatchableCellValuesInFieldKeyPrefix f).
  by rewrite IH.
Qed.

(** ** Retain and release *)

Lemma occurrences_cons (fieldId f : FieldId) (rest : list FieldId) :
  occurrences fieldId (f :: rest)
  = (if bool_decide (f = fieldId) then 1 else 0) + occurrences fieldId rest.
Proof.
  unfold occurrences. simpl.
  destruct (String.string_dec f fieldId) as [Heq|Hne].
  - rewrite bool_decide_eq_true_2 by done. lia.
  - rewrite bool_decide_eq_false_2 by done. lia.
Qed.

Lemma occurrences_nonneg (fieldId : FieldId) (fieldIds : list FieldId) :
  0 <= occurrences fieldId fieldIds.
Proof. unfold occurrences. lia. Qed.

Lemma occurrences_pos (fieldId : FieldId) (fieldIds : list FieldId) :
  fieldId ∈ fieldIds -> 1 <= occurrences fieldId fieldIds.
Proof.
  intros Hin%list_elem_of_In. unfold occurrences.
  apply (count_occ_In String.string_dec) in Hin. lia.
Qed.


(** Retaining a list of fields adds to each count the number of times the
    field is listed. *)
Lemma retain_all_count (fieldIds : list FieldId) (counts : gmap string Z) (fieldId : FieldId) :
  default 0 (foldl retainField counts fieldIds !! fieldId)
  = default 0 (counts !! fieldId) + occurrences fieldId fieldIds.
Proof.
  revert counts. induction fieldIds as [|f rest IH]; intros counts.
  - unfold occurrences. simpl. lia.
  - cbn [foldl]. rewrite IH, occurrences_cons. unfold retainField.
    case_bool_decide as Heq.
    + subst f. destruct (counts !! fieldId) as [n|]; rewrite lookup_insert_eq; simpl; lia.
    + destruct (counts !! f) as [n|]; rewrite lookup_insert_ne by done; lia.
Qed.


Lemma loadCellValuesInFieldIdsAsync_counts (fieldIds : list FieldId) (w : World) :
  _cellValuesRetainCountByFieldId (store (fst (loadCellValuesInFieldIdsAsync fieldIds w)))
  = foldl retainField (_cellValuesRetainCountByFieldId (store w)) fieldIds.
Proof.
  pose proof (loadCellValuesInFieldIdsAsync_spec fieldIds w) as Hspec.
  cbv zeta in Hspec. rewrite Hspec.
  by destruct (List.filter (isCold (store w)) fieldIds).
Qed.

(** Releasing fields that are each retained at least as often as they are
    listed: no log line, and each count goes down by the number of times the
    field is listed. *)
Lemma releaseLoop_retained (fieldIds zero : list FieldId) (w : World) :
  (forall fieldId : FieldId,
     occurrences fieldId fieldIds <= retainCountOf (store w) fieldId) ->
  exists counts zero',
    releaseLoop fieldIds zero w
    = (withStore (fun s => setRetainCount s counts) w, zero')
    /\ (forall fieldId : FieldId,
          default 0 (counts !! fieldId)
          = retainCountOf (store w) fieldId - occurrences fieldId fieldIds)
    /\ ((forall fieldId : FieldId, fieldId ∈ fieldIds ->
           occurrences fieldId fieldIds < retainCountOf (store w) fieldId) ->
        zero' = zero).
Proof.
  revert zero w. induction fieldIds as [|f rest IH]; intros zero w Henough.
  - exists (_cellValuesRetainCountByFieldId (store w)), zero. simpl.
    split; [by destruct w as [[] ? ? ?]|]. split; [|done].
    intros fieldId. unfold retainCountOf, occurrences. simpl. lia.
  - cbn [releaseLoop].
    pose proof (Henough f) as Hf. rewrite occurrences_cons in Hf.
    rewrite bool_decide_eq_true_2 in Hf by done.
    pose proof (occurrences_nonneg f rest) as Hocc.
    unfold retainCountOf in Hf.
    destruct (Z.ltb_spec (default 0 (_cellValuesRetainCountByFieldId (store w) !! f) - 1) 0)
      as [Hneg|Hpos]; [lia|].
    set (c := default 0 (_cellValuesRetainCountByFieldId (store w) !! f) - 1) in *.
    set (w2 := withStore (fun s =>
                 setRetainCount s (<[f := c]> (_cellValuesRetainCountByFieldId s))) w).
    assert (forall fieldId : FieldId,
              retainCountOf (store w2) fieldId
              = retainCountOf (store w) fieldId
                - (if bool_decide (f = fieldId) then 1 else 0)) as Hcount.
    { intros fieldId. unfold retainCountOf, w2. simpl. case_bool_decide as Heq.
      - subst fieldId. rewrite lookup_insert_eq. simpl. unfold c. lia.
      - rewrite lookup_insert_ne by done. lia. }
    assert (forall fieldId : FieldId,
              occurrences fieldId rest <= retainCountOf (store w2) fieldId) as Henough2.
    { intros fieldId. rewrite Hcount. pose proof (Henough fieldId) as He.
      rewrite occurrences_cons in He. lia. }
    assert (forall z, exists counts zero',
              releaseLoop rest z w2 = (withStore (fun s => setRetainCount s counts) w, zero')
              /\ (forall fieldId : FieldId,
                    default 0 (counts !! fieldId)
                    = retainCountOf (store w) fieldId - occurrences fieldId (f :: rest))
              /\ ((forall fieldId : FieldId, fieldId ∈ f :: rest ->
                     occurrences fieldId (f :: rest) < retainCountOf (store w) fieldId) ->
                  zero' = z)) as Hrest.
    { intros z. destruct (IH z w2 Henough2) as (counts & zero' & Hrun & Hcounts & Hzero).
      exists counts, zero'. split; [|split].
      - rewrite Hrun. by destruct w as [[] ? ? ?].
      - intros fieldId. rewrite Hcounts, Hcount, occurrences_cons. lia.
      - intros Hstrict. apply Hzero. intros fieldId Hin. rewrite Hcount.
        pose proof (Hstrict fieldId) as Hs. rewrite occurrences_cons in Hs.
        assert (fieldId ∈ f :: rest) as Hin' by (by apply elem_of_cons; right).
        specialize (Hs Hin'). lia. }
    destruct (Z.eqb_spec c 0) as [Hzero|Hnonzero].
    + destruct (Hrest (zero ++ [f])) as (counts & zero' & Hrun & Hcounts & Hz).
      exists counts, zero'. split; [exact Hrun|]. split; [exact Hcounts|].
      intros Hstrict. exfalso.
      pose proof (Hstrict f) as Hs. rewrite occurrences_cons in Hs.
      rewrite bool_decide_eq_true_2 in Hs by done.
      assert (f ∈ f :: rest) as Hin by (by apply elem_of_cons; left).
      specialize (Hs Hin). unfold retainCountOf in Hs. unfold c in Hzero. lia.
    + destruct (Hrest zero) as (counts & zero' & Hrun & Hcounts & Hz).
      exists counts, zero'. done.
Qed.

Lemma unload_after_load_balanced (fieldIds : list FieldId) (w : World) :
  retainCountsNonNegative (store w) ->
  let w1 := fst (loadCellValuesInFieldIdsAsync fieldIds w) in
  let w2 := unloadCellValuesInFieldIds fieldIds w1 in
  (forall fieldId : FieldId,
     retainCountOf (store w2) fieldId = retainCountOf (store w) fieldId)
  /\ trace w2 = trace w1
  /\ promises w2 = promises w1
  /\ ((forall fieldId : FieldId, fieldId ∈ fieldIds ->
         0 < retainCountOf (store w) fieldId) ->
      timers w2 = timers w1).
Proof.
  intros Hnonneg. cbv zeta.
  set (w1 := fst (loadCellValuesInFieldIdsAsync fieldIds w)).
  assert (forall fieldId : FieldId,
            retainCountOf (store w1) fieldId
            = retainCountOf (store w) fieldId + occurrences fieldId fieldIds) as Hretained.
  { intros fieldId. unfold retainCountOf, w1.
    rewrite loadCellValuesInFieldIdsAsync_counts. apply retain_all_count. }
  assert (forall fieldId : FieldId, 0 <= retainCountOf (store w) fieldId) as Hge.
  { intros fieldId. unfold retainCountOf.
    destruct (_cellValuesRetainCountByFieldId (store w) !! fieldId) as [n|] eqn:Hn;
      simpl; [by eapply Hnonneg|lia]. }
  destruct (releaseLoop_retained fieldIds [] w1) as (counts & zero' & Hrun & Hcounts & Hzero).
  { intros fieldId. rewrite Hretained. specialize (Hge fieldId). lia. }
  unfold unloadCellValuesInFieldIds. rewrite Hrun.
  assert (forall fieldId : FieldId,
            default 0 (counts !! fieldId) = retainCountOf (store w) fieldId) as Hback.
  { intros fieldId. rewrite Hcounts, Hretained. lia. }
  split; [|split; [|split]].
  - intros fieldId. case_bool_decide; unfold retainCountOf; simpl; apply Hback.
  - by case_bool_decide.
  - by case_bool_decide.
  - intros Hpos. rewrite Hzero.
    + rewrite bool_decide_eq_false_2 by (simpl; lia). done.
    + intros fieldId Hin. rewrite Hretained. specialize (Hpos fieldId Hin). lia.
Qed.

(** X3: a release that follows a retain of the same fields is balanced.  In a
    store whose counts are not negative, [unloadCellValuesInFieldIds] after
    [loadCellValuesInFieldIdsAsync] on the same list gives every field the
    count it had, logs no over-release, touches no promise, and, when every
    listed field was already retained before, sets no unload timer. *)
Theorem release_after_retain_is_balanced (fieldIds : list FieldId) (w : World) :
  retainCountsNonNegative (store w) ->
  let w1 := fst (loadCellValuesInFieldIdsAsync fieldIds w) in
  let w2 := unloadCellValuesInFieldIds fieldIds w1 in
  (forall fieldId : FieldId,
     retainCountOf (store w2) fieldId = retainCountOf (store w) fieldId)
  /\ trace w2 = trace w1
  /\ promises w2 = promises w1
  /\ ((forall fieldId : FieldId, fieldId ∈ fieldIds ->
         0 < retainCountOf (store w) fieldId) ->
      timers w2 = timers w1).
Proof. apply unload_after_load_balanced. Qed.

(** X4: churn.  In a store whose counts are not negative, once a list of
    fields was requested again, an unload timer that closes over some of
    these fields does nothing when it fires: the world is left as it is. *)
Theorem unload_timer_after_reload_does_nothing
    (fieldIds fieldIdsWithZeroRetainCount : list FieldId) (w : World) :
  retainCountsNonNegative (store w) ->
  (forall fieldId : FieldId,
     fieldId ∈ fieldIdsWithZeroRetainCount -> fieldId ∈ fieldIds) ->
  unloadTimerCallback fieldIdsWithZeroRetainCount
    (fst (loadCellValuesInFieldIdsAsync fieldIds w))
  = fst (loadCellValuesInFieldIdsAsync fieldIds w).
Proof.
  intros Hnonneg Hsub. unfold unloadTimerCallback.
  set (w1 := fst (loadCellValuesInFieldIdsAsync fieldIds w)).
  assert (List.filter (retainCountIsZero (store w1)) fieldIdsWithZeroRetainCount = [])
    as Hfilter.
  { induction fieldIdsWithZeroRetainCount as [|f rest IH]; [done|]. simpl.
    assert (f ∈ fieldIds) as Hin by (apply Hsub; by apply elem_of_cons; left).
    assert (retainCountIsZero (store w1) f = false) as ->.
    { unfold retainCountIsZero. apply bool_decide_eq_false_2. intros Hzero.
      pose proof (retain_all_count fieldIds (_cellValuesRetainCountByFieldId (store w)) f)
        as Hcount.
      unfold w1 in Hzero. rewrite loadCellValuesInFieldIdsAsync_counts in Hzero.
      rewrite Hzero in Hcount. simpl in Hcount.
      pose proof (occurrences_pos f fieldIds Hin) as Hocc.
      destruct (_cellValuesRetainCountByFieldId (store w) !! f) as [n|] eqn:Hn;
        simpl in Hcount; [|lia].
      pose proof (Hnonneg f n Hn). lia. }
    apply IH. intros g Hg. apply Hsub. by apply elem_of_cons; right. }
  rewrite Hfilter. by rewrite bool_decide_eq_false_2 by (simpl; lia).
Qed.

(** ** What the steps leave alone *)

Lemma markLoaded_frame fieldIds s :
  tableId (markLoaded fieldIds s) = tableId s
  /\ isDataLoaded (markLoaded fieldIds s) = isDataLoaded s
  /\ isDeleted (markLoaded fieldIds s) = isDeleted s
  /\ _recordModelsById (markLoaded fieldIds s) = _recordModelsById s
  /\ _cellValuesRetainCountByFieldId (markLoaded fieldIds s)
     = _cellValuesRetainCountByFieldId s.
Proof.
  revert s. induction fieldIds as [|f rest IH]; intros s; simpl; [done|].
  match goal with |- context [markLoaded rest ?s1] =>
    destruct (IH s1) as (H1 & H2 & H3 & H4 & H5) end.
  rewrite H1, H2, H3, H4, H5. done.
Qed.

(** The diff loop changes nothing of the store but the record model cache,
    which it can only shrink, and it throws only when the record map is
    absent. *)
Lemma dirtyLoop_frame dirtyEntries acc w :
  let w' := (dirtyLoop dirtyEntries acc w).1.1 in
  promises w' = promises w
  /\ timers w' = timers w
  /\ (exists models,
        store w' = setRecordModelsById (store w) models
        /\ forall recordId : RecordId,
             is_Some (models !! recordId) ->
             models !! recordId = _recordModelsById (store w) !! recordId)
  /\ (is_Some (recordsById (store w)) -> (dirtyLoop dirtyEntries acc w).2 = None).
Proof.
  cbv zeta. revert acc w.
  assert (forall w : World,
            exists models,
              store w = setRecordModelsById (store w) models
              /\ forall recordId : RecordId,
                   is_Some (models !! recordId) ->
                   models !! recordId = _recordModelsById (store w) !! recordId) as Hsame.
  { intros w. exists (_recordModelsById (store w)).
    split; [by destruct w as [[] ? ? ?]|done]. }
  induction dirtyEntries as [|[rid paths] rest IH]; intros acc w.
  - simpl. split_and!; [done|done|apply Hsame|done].
  - cbn [dirtyLoop].
    destruct (_isDirty paths).
    + destruct (recordsById (store w)) as [existing|] eqn:Hrecords.
      * case_bool_decide as Hhas.
        -- match goal with |- context [dirtyLoop rest ?a ?w1] =>
             destruct (IH a w1) as (Hp & Ht & (models & Hs & Hsub) & Hok) end.
           rewrite Hp, Ht. split_and!; [done|done| |].
           ++ exists models. done.
           ++ intros _. apply Hok. by rewrite Hrecords.
        -- match goal with |- context [dirtyLoop rest ?a ?w1] =>
             destruct (IH a w1) as (Hp & Ht & (models & Hs & Hsub) & Hok) end.
           rewrite Hp, Ht. simpl in *. split_and!; [done|done| |].
           ++ exists models. split; [by rewrite Hs|].
              intros recordId Hsome. rewrite (Hsub recordId Hsome).
              destruct (decide (rid = recordId)) as [->|Hne].
              ** rewrite (Hsub recordId Hsome) in Hsome.
                 rewrite lookup_delete_eq in Hsome. by destruct Hsome.
              ** by rewrite lookup_delete_ne.
           ++ intros _. apply Hok. by rewrite Hrecords.
      * simpl. split_and!; [done|done|apply Hsame|].
        intros [? ?]. done.
    + destruct (_recordModelsById (store w) !! rid) as [model|] eqn:Hmodel.
      * match goal with |- context [dirtyLoop rest ?a ?w1] =>
          destruct (IH a w1) as (Hp & Ht & (models & Hs & Hsub) & Hok) end.
        rewrite Hp, Ht. simpl in *. split_and!; [done|done| |done].
        exists models. done.
      * match goal with |- context [dirtyLoop rest ?a ?w1] =>
          destruct (IH a w1) as (Hp & Ht & (models & Hs & Hsub) & Hok) end.
        rewrite Hp, Ht. split_and!; [done|done| |done].
        exists models. done.
Qed.

Lemma triggerOnChangeForDirtyPaths_frame (dirtyPaths : DirtyPaths) (w : World) :
  snd (triggerOnChangeForDirtyPaths dirtyPaths w) = None
  /\ promises (fst (triggerOnChangeForDirtyPaths dirtyPaths w)) = promises w
  /\ timers (fst (triggerOnChangeForDirtyPaths dirtyPaths w)) = timers w
  /\ exists models,
       store (fst (triggerOnChangeForDirtyPaths dirtyPaths w))
       = setRecordModelsById (store w) models
       /\ forall recordId : RecordId,
            is_Some (models !! recordId) ->
            models !! recordId = _recordModelsById (store w) !! recordId.
Proof.
  assert (exists models,
            store w = setRecordModelsById (store w) models
            /\ forall recordId : RecordId,
                 is_Some (models !! recordId) ->
                 models !! recordId = _recordModelsById (store w) !! recordId) as Hsame.
  { exists (_recordModelsById (store w)). split; [by destruct w as [[] ? ? ?]|done]. }
  unfold triggerOnChangeForDirtyPaths, isRecordMetadataLoaded.
  case_bool_decide as Hloaded; [|by split_and!].
  destruct (dirtyRecordsById dirtyPaths) as [dirtyEntries|]; [|by split_and!].
  pose proof (dirtyLoop_frame dirtyEntries (mkDirtyAcc [] [] []) w) as Hloop.
  cbv zeta in Hloop. destruct Hloop as (Hp & Ht & Hmodels & Hok).
  specialize (Hok Hloaded).
  destruct (dirtyLoop dirtyEntries (mkDirtyAcc [] [] []) w) as [[w1 acc] res].
  simpl in *. subst res.
  repeat (match goal with |- context [if ?b then _ else _] => destruct b end; simpl);
    split_and!; done.
Qed.

(** X5: on a live table a diff never makes [triggerOnChangeForDirtyPaths]
    throw (its inner invariant on the record map cannot fail), and it changes
    nothing of the store but the record model cache, where it only removes
    models: record map, flags, markers, counts, promises and timers are as
    before. *)
Theorem dirty_paths_never_throw_and_only_evict_models
    (dirtyPaths : DirtyPaths) (w : World) :
  isDeleted (store w) = false ->
  snd (triggerOnChangeForDirtyPaths dirtyPaths w) = None
  /\ promises (fst (triggerOnChangeForDirtyPaths dirtyPaths w)) = promises w
  /\ timers (fst (triggerOnChangeForDirtyPaths dirtyPaths w)) = timers w
  /\ exists models,
       store (fst (triggerOnChangeForDirtyPaths dirtyPaths w))
       = setRecordModelsById (store w) models
       /\ forall recordId : RecordId,
            is_Some (models !! recordId) ->
            models !! recordId = _recordModelsById (store w) !! recordId.
Proof. intros _. apply triggerOnChangeForDirtyPaths_frame. Qed.

(** ** Invariants of reachable worlds *)

Lemma fetchFulfilled_counts p newRecordsById w w' :
  fetchFulfilled p newRecordsById w = Some w' ->
  _cellValuesRetainCountByFieldId (store w') = _cellValuesRetainCountByFieldId (store w)
  /\ timers w' = timers w.
Proof.
  unfold fetchFulfilled.
  destruct (promises w !! p) as [[fieldIds []]|]; try discriminate.
  unfold _loadCellValuesInFieldIdsAsync_merge.
  destruct (mergeEntries fieldIds newRecordsById (default ∅ (recordsById (store w))))
    as [merged [e|]]; intros [= <-]; simpl; [done|].
  split; [|done].
  match goal with |- context [markLoaded fieldIds ?s1] =>
    destruct (markLoaded_frame fieldIds s1) as (_ & _ & _ & _ & ->) end.
  done.
Qed.

Lemma unloadTimerCallback_counts zero w :
  _cellValuesRetainCountByFieldId (store (unloadTimerCallback zero w))
  = _cellValuesRetainCountByFieldId (store w).
Proof.
  unfold unloadTimerCallback. case_bool_decide; simpl; [|done].
  match goal with |- context [_afterUnloadDataOrUnloadCellValuesInFieldIds ?ids ?s1] =>
    destruct (afterUnload_frame ids s1) as (_ & _ & _ & _ & _ & ->) end.
  by destruct (clearFlags_frame (List.filter (retainCountIsZero (store w)) zero) (store w))
    as (_ & _ & _ & _ & _ & _ & ->).
Qed.

Lemma retainField_nonneg counts (f : FieldId) :
  map_Forall (fun _ n => 0 <= n) counts ->
  map_Forall (fun _ n => 0 <= n) (retainField counts f).
Proof.
  intros Hnonneg. unfold retainField.
  destruct (counts !! f) as [n|] eqn:Hn; apply map_Forall_insert_2; try done.
  pose proof (Hnonneg f n Hn). simpl in *. lia.
Qed.

Lemma releaseLoop_nonneg fieldIds zero w :
  retainCountsNonNegative (store w) ->
  retainCountsNonNegative (store (fst (releaseLoop fieldIds zero w))).
Proof.
  revert zero w. induction fieldIds as [|f rest IH]; intros zero w Hnonneg; [done|].
  cbn [releaseLoop].
  destruct (Z.ltb_spec (default 0 (_cellValuesRetainCountByFieldId (store w) !! f) - 1) 0)
    as [Hneg|Hpos].
  - simpl. apply IH. simpl. by apply map_Forall_insert_2.
  - destruct (Z.eqb_spec (default 0 (_cellValuesRetainCountByFieldId (store w) !! f) - 1) 0);
      apply IH; simpl; by apply map_Forall_insert_2.
Qed.

Lemma step_counts_nonneg a w w' :
  retainCountsNonNegative (store w) -> step a w = Some w' ->
  retainCountsNonNegative (store w').
Proof.
  intros Hnonneg. destruct a; simpl.
  - intros [= <-]. unfold retainCountsNonNegative.
    rewrite loadCellValuesInFieldIdsAsync_counts.
    revert Hnonneg. unfold retainCountsNonNegative.
    generalize (_cellValuesRetainCountByFieldId (store w)).
    induction fieldIds as [|f rest IH]; intros counts Hc; [done|].
    cbn [foldl]. apply IH. by apply retainField_nonneg.
  - intros [= <-]. unfold unloadCellValuesInFieldIds.
    pose proof (releaseLoop_nonneg fieldIds [] w Hnonneg) as Hloop.
    destruct (releaseLoop fieldIds [] w) as [w1 zero]. simpl in Hloop.
    by case_bool_decide.
  - intros Hstep. apply fetchFulfilled_counts in Hstep as [Hcounts _].
    unfold retainCountsNonNegative. by rewrite Hcounts.
  - intros Hstep. apply fetchRejected_keeps_markers in Hstep as (Hstore & _).
    by rewrite Hstore.
  - unfold timerFires. destruct (timers w) as [|zero rest]; [done|]. intros [= <-].
    unfold retainCountsNonNegative. by rewrite unloadTimerCallback_counts.
  - intros [= <-].
    destruct (triggerOnChangeForDirtyPaths_frame dirtyPaths w)
      as (_ & _ & _ & models & Hstore & _).
    unfold retainCountsNonNegative. by rewrite Hstore.
  - intros [= <-]. unfold _unloadData, retainCountsNonNegative. simpl.
    by destruct (afterUnload_frame None (store w)) as (_ & _ & _ & _ & _ & ->).
  - intros [= <-]. done.
Qed.

Lemma reachable_counts_nonneg w : reachable w -> retainCountsNonNegative (store w).
Proof.
  intros (tbl & primary & fields & r & actions & Hrun).
  assert (forall acts w0 w1,
            retainCountsNonNegative (store w0) -> run acts w0 = Some w1 ->
            retainCountsNonNegative (store w1)) as Hruns.
  { induction acts as [|a rest IH]; intros w0 w1 H0; simpl; [by intros [= <-]|].
    destruct (step a w0) as [w2|] eqn:Hstep; [|done].
    apply IH. by eapply step_counts_nonneg. }
  eapply Hruns; [|exact Hrun]. intros f n Hn. simpl in Hn. by rewrite lookup_empty in Hn.
Qed.

(** X6: in every world reachable from a new store, no retain count is
    negative: a load only adds to the counts, and an unload writes a count
    only after clamping it at zero. *)
Theorem retain_counts_are_never_negative (w : World) :
  reachable w -> retainCountsNonNegative (store w).
Proof. apply reachable_counts_nonneg. Qed.

Lemma loadCellValuesInFieldIdsAsync_markers fieldIds w :
  markersPointAtCoveringFetches w ->
  markersPointAtCoveringFetches (fst (loadCellValuesInFieldIdsAsync fieldIds w)).
Proof.
  intros Hinv. pose proof (loadCellValuesInFieldIdsAsync_spec fieldIds w) as Hspec.
  cbv zeta in Hspec. rewrite Hspec. clear Hspec.
  destruct (List.filter (isCold (store w)) fieldIds) as [|c cold] eqn:Hcold.
  - exact Hinv.
  - remember (c :: cold) as batch eqn:Hbatch. clear Hbatch Hcold.
    intros f p. unfold pendingLoadPromise. simpl.
    destruct (decide (f ∈ batch)) as [Hin|Hnotin].
    + rewrite markPending_lookup_in by done. simpl. intros [= <-].
      exists batch, Pending. split; [|done].
      rewrite lookup_app_r by lia. by rewrite Nat.sub_diag.
    + rewrite markPending_lookup_notin by done. intros Hmark.
      destruct (Hinv f p Hmark) as (ids & st & Hp & Hf).
      exists ids, st. split; [|done]. by apply lookup_app_l_Some.
Qed.

Lemma settle_other p st ps (q : nat) :
  q ≠ p -> settle p st ps !! q = ps !! q.
Proof.
  intros Hne. unfold settle. destruct (ps !! p); [|done].
  by rewrite list_lookup_insert_ne.
Qed.

Lemma settle_same p st ps fieldIds st0 :
  ps !! p = Some (mkLoadPromise fieldIds st0) ->
  settle p st ps !! p = Some (mkLoadPromise fieldIds st).
Proof.
  intros Hp. unfold settle. rewrite Hp. simpl.
  by rewrite list_lookup_insert_eq by (by eapply lookup_lt_Some).
Qed.

Lemma settle_fieldIds p st ps :
  map promiseFieldIds (settle p st ps) = map promiseFieldIds ps.
Proof.
  unfold settle. destruct (ps !! p) as [lp|] eqn:Hp; [|done].
  change (promiseFieldIds <$> <[p := mkLoadPromise (promiseFieldIds lp) st]> ps
          = promiseFieldIds <$> ps).
  rewrite list_fmap_insert. simpl. apply list_insert_id.
  by rewrite list_lookup_fmap, Hp.
Qed.

(** Settling a promise keeps the field list of every promise. *)
Lemma settle_keeps_fields p st ps (q : nat) fieldIds st0 :
  ps !! q = Some (mkLoadPromise fieldIds st0) ->
  exists st1, settle p st ps !! q = Some (mkLoadPromise fieldIds st1).
Proof.
  intros Hq. destruct (decide (q = p)) as [->|Hne].
  - exists st. by eapply settle_same.
  - exists st0. by rewrite settle_other.
Qed.

Lemma fetchFulfilled_markers p newRecordsById w w' :
  markersPointAtCoveringFetches w ->
  fetchFulfilled p newRecordsById w = Some w' ->
  markersPointAtCoveringFetches w'.
Proof.
  intros Hinv. unfold fetchFulfilled.
  destruct (promises w !! p) as [[fieldIds []]|] eqn:Hp; try discriminate.
  unfold _loadCellValuesInFieldIdsAsync_merge.
  destruct (mergeEntries fieldIds newRecordsById (default ∅ (recordsById (store w))))
    as [merged [e|]]; intros [= <-]; intros f q; unfold pendingLoadPromise; simpl.
  - intros Hmark. destruct (Hinv f q Hmark) as (ids & st & Hq & Hf).
    destruct (settle_keeps_fields p (Rejected e) _ _ _ _ Hq) as [st1 Hq1]. eauto.
  - rewrite markLoaded_pending. simpl. case_bool_decide as Hin; [done|]. intros Hmark.
    destruct (Hinv f q Hmark) as (ids & st & Hq & Hf).
    destruct (settle_keeps_fields p (Fulfilled (changedKeysForFieldIds fieldIds)) _ _ _ _ Hq)
      as [st1 Hq1].
    eauto.
Qed.

Lemma fetchRejected_markers p e w w' :
  markersPointAtCoveringFetches w ->
  fetchRejected p e w = Some w' ->
  markersPointAtCoveringFetches w'.
Proof.
  intros Hinv. unfold fetchRejected.
  destruct (promises w !! p) as [[fieldIds []]|] eqn:Hp; try discriminate.
  intros [= <-]. intros f q Hmark. simpl in *.
  destruct (Hinv f q Hmark) as (ids & st & Hq & Hf).
  destruct (settle_keeps_fields p (Rejected e) _ _ _ _ Hq) as [st1 Hq1]. eauto.
Qed.

Lemma markers_transfer w w' :
  promises w' = promises w ->
  _pendingCellValuesLoadPromiseByFieldId (store w')
  = _pendingCellValuesLoadPromiseByFieldId (store w) ->
  markersPointAtCoveringFetches w -> markersPointAtCoveringFetches w'.
Proof.
  unfold markersPointAtCoveringFetches, pendingLoadPromise. intros -> ->. done.
Qed.

Lemma step_markers a w w' :
  markersPointAtCoveringFetches w -> step a w = Some w' ->
  markersPointAtCoveringFetches w'.
Proof.
  intros Hinv. destruct a; simpl.
  - intros [= <-]. by apply loadCellValuesInFieldIdsAsync_markers.
  - intros [= <-]. destruct (unloadCellValuesInFieldIds_loads fieldIds w).
    by eapply markers_transfer.
  - by apply fetchFulfilled_markers.
  - by apply fetchRejected_markers.
  - unfold timerFires. destruct (timers w) as [|zero rest]; [done|]. intros [= <-].
    destruct (unloadTimerCallback_loads zero (setTimers rest w)).
    by eapply markers_transfer.
  - intros [= <-]. destruct (triggerOnChangeForDirtyPaths_loads dirtyPaths w).
    by eapply markers_transfer.
  - intros [= <-]. unfold _unloadData. simpl.
    destruct (afterUnload_frame None (store w)) as (_ & _ & _ & _ & Hp & _).
    eapply markers_transfer; [| |exact Hinv]; [done|exact Hp].
  - intros [= <-]. eapply markers_transfer; [| |exact Hinv]; done.
Qed.

Lemma reachable_markers w : reachable w -> markersPointAtCoveringFetches w.
Proof.
  intros (tbl & primary & fields & r & actions & Hrun).
  assert (forall acts w0 w1,
            markersPointAtCoveringFetches w0 -> run acts w0 = Some w1 ->
            markersPointAtCoveringFetches w1) as Hruns.
  { induction acts as [|a rest IH]; intros w0 w1 H0; simpl; [by intros [= <-]|].
    destruct (step a w0) as [w2|] eqn:Hstep; [|done].
    apply IH. by eapply step_markers. }
  eapply Hruns; [|exact Hrun]. intros f p Hmark.
  unfold pendingLoadPromise in Hmark. simpl in Hmark. by rewrite lookup_empty in Hmark.
Qed.

(** X7: in every reachable world, the pending marker of a field is a promise
    of the promise table whose fetch asked for that field; so every promise
    a load call awaits is, after the call, a promise of the table whose
    fetch asked for one of the fields of the call. *)
Theorem markers_and_joined_promises_cover_requested_fields
    (w : World) (fieldIds : list FieldId) :
  reachable w ->
  markersPointAtCoveringFetches w
  /\ forall p : PromiseId,
       p ∈ snd (loadCellValuesInFieldIdsAsync fieldIds w) ->
       exists ids st (fieldId : FieldId),
         promises (fst (loadCellValuesInFieldIdsAsync fieldIds w)) !! p
         = Some (mkLoadPromise ids st)
         /\ fieldId ∈ fieldIds /\ fieldId ∈ ids.
Proof.
  intros Hreach. pose proof (reachable_markers w Hreach) as Hinv.
  split; [exact Hinv|].
  pose proof (loadCellValuesInFieldIdsAsync_spec fieldIds w) as Hspec.
  cbv zeta in Hspec. rewrite Hspec. clear Hspec.
  assert (forall p : PromiseId,
            p ∈ omap (joinedPromise (store w)) fieldIds ->
            exists ids st (fieldId : FieldId),
              promises w !! p = Some (mkLoadPromise ids st)
              /\ fieldId ∈ fieldIds /\ fieldId ∈ ids) as Hjoined.
  { intros p (f & Hf & Hj)%list_elem_of_omap. unfold joinedPromise in Hj.
    destruct (fieldFlag (store w) f); [done|].
    destruct (Hinv f p Hj) as (ids & st & Hp & Hcovers). eauto 6. }
  destruct (List.filter (isCold (store w)) fieldIds) as [|c cold] eqn:Hcold; simpl.
  - exact Hjoined.
  - intros p [Hin|Hin]%elem_of_app.
    + destruct (Hjoined p Hin) as (ids & st & f & Hp & Hf & Hcovers).
      exists ids, st, f. split; [by apply lookup_app_l_Some|done].
    + apply list_elem_of_singleton in Hin as ->.
      exists (c :: cold), Pending, c. split_and!.
      * rewrite lookup_app_r by lia. by rewrite Nat.sub_diag.
      * assert (c ∈ List.filter (isCold (store w)) fieldIds) as Hc
          by (rewrite Hcold; by apply elem_of_cons; left).
        by apply list_elem_of_In, List.filter_In in Hc as [Hc%list_elem_of_In _].
      * by apply elem_of_cons; left.
Qed.

(** ** What the steps send to the collaborators *)

Lemma releaseLoop_trace fieldIds zero w :
  exists evs,
    trace (fst (releaseLoop fieldIds zero w)) = trace w ++ evs
    /\ forall e, e ∈ evs -> exists msg, e = ConsoleLog msg.
Proof.
  revert zero w. induction fieldIds as [|f rest IH]; intros zero w.
  - exists []. split; [by rewrite app_nil_r|]. by intros e Hin%elem_of_nil.
  - cbn [releaseLoop].
    destruct (default 0 (_cellValuesRetainCountByFieldId (store w) !! f) - 1 <? 0).
    + simpl.
      match goal with |- context [releaseLoop rest ?z ?w1] =>
        destruct (IH z w1) as (evs & Htrace & Hlogs) end.
      exists (ConsoleLog "Field data over-released" :: evs).
      split; [rewrite Htrace; simpl; by rewrite <- app_assoc|].
      intros e [->|Hin]%elem_of_cons; eauto.
    + destruct (default 0 (_cellValuesRetainCountByFieldId (store w) !! f) - 1 =? 0);
        match goal with |- context [releaseLoop rest ?z ?w1] =>
          destruct (IH z w1) as (evs & Htrace & Hlogs) end;
        exists evs; done.
Qed.

Lemma dirtyLoop_trace dirtyEntries acc w (known : gmap string RecordModel) :
  (forall recordId : RecordId,
     is_Some (_recordModelsById (store w) !! recordId) -> is_Some (known !! recordId)) ->
  exists evs,
    trace (dirtyLoop dirtyEntries acc w).1.1 = trace w ++ evs
    /\ forall e, e ∈ evs ->
         exists recordId, e = RecordModelTrigger recordId /\ is_Some (known !! recordId).
Proof.
  revert acc w. induction dirtyEntries as [|[rid paths] rest IH]; intros acc w Hknown.
  - exists []. split; [by rewrite app_nil_r|]. by intros e Hin%elem_of_nil.
  - cbn [dirtyLoop]. destruct (_isDirty paths).
    + destruct (recordsById (store w)) as [existing|].
      * case_bool_decide.
        -- match goal with |- context [dirtyLoop rest ?a ?w1] =>
             destruct (IH a w1) as (evs & Htrace & Hevs) end; [done|].
           exists evs. done.
        -- match goal with |- context [dirtyLoop rest ?a ?w1] =>
             destruct (IH a w1) as (evs & Htrace & Hevs) end.
           { intros recordId. simpl. intros [m Hm]. apply Hknown.
             apply lookup_delete_Some in Hm as [_ Hm]. eauto. }
           exists evs. done.
      * exists []. split; [by rewrite app_nil_r|]. by intros e Hin%elem_of_nil.
    + destruct (_recordModelsById (store w) !! rid) as [model|] eqn:Hmodel.
      * match goal with |- context [dirtyLoop rest ?a ?w1] =>
          destruct (IH a w1) as (evs & Htrace & Hevs) end; [done|].
        exists (RecordModelTrigger rid :: evs).
        split; [rewrite Htrace; simpl; by rewrite <- app_assoc|].
        intros e [->|Hin]%elem_of_cons; [|by apply Hevs].
        exists rid. split; [done|]. apply Hknown. eauto.
      * match goal with |- context [dirtyLoop rest ?a ?w1] =>
          destruct (IH a w1) as (evs & Htrace & Hevs) end; [done|].
        exists evs. done.
Qed.

Lemma step_emits a w w' :
  step a w = Some w' ->
  exists evs, trace w' = trace w ++ evs /\ forall e, e ∈ evs -> mayEmit a w e.
Proof.
  assert (forall (t : list Event), exists evs : list Event,
            t = t ++ evs /\ forall e, e ∈ evs -> mayEmit a w e) as Hnone.
  { intros t. exists []. split; [by rewrite app_nil_r|]. by intros e Hin%elem_of_nil. }
  destruct a; cbn [step].
  - intros [= <-]. pose proof (loadCellValuesInFieldIdsAsync_spec fieldIds w) as Hspec.
    cbv zeta in Hspec. rewrite Hspec. clear Hspec.
    destruct (List.filter (isCold (store w)) fieldIds) as [|c cold] eqn:Hcold.
    + apply Hnone.
    + remember (c :: cold) as batch eqn:Hbatch. cbn [fst trace]. eexists. split; [done|].
      intros e Hin. apply list_elem_of_singleton in Hin as ->. unfold mayEmit.
      split; [done|]. split; [by subst batch|].
      intros f Hf. rewrite <- Hcold in Hf.
      by apply list_elem_of_In, List.filter_In in Hf as [Hf%list_elem_of_In _].
  - intros [= <-]. unfold unloadCellValuesInFieldIds.
    destruct (releaseLoop_trace fieldIds [] w) as (evs & Htrace & Hlogs).
    destruct (releaseLoop fieldIds [] w) as [w1 zero]. cbn [fst] in Htrace.
    exists evs. split; [by case_bool_decide|].
    intros e Hin. destruct (Hlogs e Hin) as [msg ->]. done.
  - unfold fetchFulfilled.
    destruct (promises w !! p) as [[fieldIds []]|] eqn:Hp; try discriminate.
    unfold _loadCellValuesInFieldIdsAsync_merge.
    destruct (mergeEntries fieldIds newRecordsById (default ∅ (recordsById (store w))))
      as [merged [e|]]; intros [= <-]; cbn [trace setPromises withStore emitAll];
      [apply Hnone|].
    eexists. split; [done|].
    intros e (key & -> & Hkey)%list_elem_of_fmap. unfold mayEmit. eauto.
  - unfold fetchRejected.
    destruct (promises w !! p) as [[fieldIds []]|] eqn:Hp; try discriminate.
    intros [= <-]. cbn [trace setPromises]. apply Hnone.
  - unfold timerFires. destruct (timers w) as [|zero rest] eqn:Htimers; [done|].
    intros [= <-]. unfold unloadTimerCallback. cbn [store setTimers].
    destruct (List.filter (retainCountIsZero (store w)) zero) as [|f toUnload] eqn:Hfilter.
    + rewrite bool_decide_eq_false_2 by (simpl; lia). cbn [trace setTimers]. apply Hnone.
    + rewrite bool_decide_eq_true_2 by (simpl; lia).
      remember (f :: toUnload) as batch eqn:Hbatch.
      cbn [_unloadCellValuesInFieldIds trace store setTimers withStore emit].
      eexists. split; [done|].
      intros e Hin. apply list_elem_of_singleton in Hin as ->. unfold mayEmit.
      destruct (clearFlags_frame batch (store w)) as (-> & _).
      split; [done|]. split; [by subst batch|].
      intros g Hg. rewrite <- Hfilter in Hg.
      by apply filter_retainCountIsZero_elem in Hg as [_ Hg].
  - intros [= <-]. unfold triggerOnChangeForDirtyPaths.
    destruct (isRecordMetadataLoaded (store w)); [|apply Hnone].
    destruct (dirtyRecordsById dirtyPaths) as [dirtyEntries|] eqn:Hdirty; [|apply Hnone].
    destruct (dirtyLoop_trace dirtyEntries (mkDirtyAcc [] [] []) w
                (_recordModelsById (store w))) as (evs & Htrace & Hevs); [done|].
    destruct (dirtyLoop dirtyEntries (mkDirtyAcc [] [] []) w) as [[w1 acc] [e|]];
      cbn [fst snd] in *.
    + exists evs. split; [done|]. intros e0 Hin.
      destruct (Hevs e0 Hin) as (rid & -> & Hsome). done.
    + assert (forall e0, e0 ∈ evs -> mayEmit (DirtyPathsArrive dirtyPaths) w e0) as Hloop.
      { intros e0 Hin. destruct (Hevs e0 Hin) as (rid & -> & Hsome). done. }
      assert (forall fieldIds recordIds e0,
                e0 ∈ map (fun fieldId =>
                            OnChange (WatchableCellValuesInFieldKeyPrefix +:+ fieldId)
                              (CellValuesInFieldChange recordIds fieldId)) fieldIds ->
                mayEmit (DirtyPathsArrive dirtyPaths) w e0) as Hfields.
      { intros fieldIds recordIds e0 (f & -> & _)%list_elem_of_fmap. done. }
      cbn [trace emitAll].
      destruct (bool_decide (0 < length (addedRecordIds acc))%nat
                || bool_decide (0 < length (removedRecordIds acc))%nat);
        destruct (bool_decide (0 < length (dirtyFieldIdsSet acc))%nat
                  && bool_decide (0 < length (map fst dirtyEntries))%nat);
        cbn [trace emit]; rewrite Htrace, <- ?app_assoc;
        (eexists; split; [reflexivity|]);
        intros e0 Hin;
        repeat (apply elem_of_app in Hin as [Hin|Hin]);
        try (by apply Hloop);
        try (by eapply Hfields);
        try (apply list_elem_of_singleton in Hin as ->; unfold mayEmit; by eauto).
  - intros [= <-]. unfold _unloadData. cbn [trace withStore emit]. eexists. split; [done|].
    intros e Hin. by apply list_elem_of_singleton in Hin as ->.
  - intros [= <-]. cbn [trace withStore]. apply Hnone.
Qed.

(** X8: what each kind of step may send out.  Every step only appends to the
    trace, and the appended calls are: for a load call, a fetch of the
    store's table for a non-empty list of requested fields; for an unload
    call, console log lines only; for a fulfilled fetch, payload-free
    notifications for the changed keys of its batch; for the unload timer, an
    unsubscribe of the store's table for a non-empty list of fields whose
    count is zero; for a diff, forwards to record models that exist and the
    four kinds of notifications, each under its own key; for a full-table
    unload, the table unsubscribe; for a rejected fetch and a change of the
    base data, nothing. *)
Theorem each_step_sends_only_its_own_calls (a : Action) (w w' : World) :
  step a w = Some w' ->
  exists evs, trace w' = trace w ++ evs /\ forall e, e ∈ evs -> mayEmit a w e.
Proof. apply step_emits. Qed.

Lemma fetchesOf_app (evs1 evs2 : list Event) :
  fetchesOf (evs1 ++ evs2) = fetchesOf evs1 ++ fetchesOf evs2.
Proof. unfold fetchesOf. apply omap_app. Qed.

Lemma fetchesOf_none (evs : list Event) :
  (forall e, e ∈ evs ->
     match e with FetchAndSubscribeToCellValuesInFields _ _ => False | _ => True end) ->
  fetchesOf evs = [].
Proof.
  induction evs as [|e rest IH]; intros Hnone; [done|].
  unfold fetchesOf in *. simpl.
  pose proof (Hnone e) as He. destruct e; simpl in *;
    try (apply IH; intros e' Hin; apply Hnone; by apply elem_of_cons; right).
  exfalso. apply He. by apply elem_of_cons; left.
Qed.

Lemma step_promise_fields a w w' :
  (forall fieldIds, a ≠ CallLoad fieldIds) ->
  step a w = Some w' ->
  map promiseFieldIds (promises w') = map promiseFieldIds (promises w).
Proof.
  intros Hnotload. destruct a; cbn [step].
  - by destruct (Hnotload fieldIds).
  - intros [= <-]. by destruct (unloadCellValuesInFieldIds_loads fieldIds w) as [-> _].
  - unfold fetchFulfilled.
    destruct (promises w !! p) as [[fieldIds []]|]; try discriminate.
    destruct (_loadCellValuesInFieldIdsAsync_merge fieldIds newRecordsById (store w))
      as [s1 [keys|e]]; intros [= <-]; simpl; apply settle_fieldIds.
  - unfold fetchRejected.
    destruct (promises w !! p) as [[fieldIds []]|]; try discriminate.
    intros [= <-]. simpl. apply settle_fieldIds.
  - unfold timerFires. destruct (timers w) as [|zero rest]; [done|]. intros [= <-].
    by destruct (unloadTimerCallback_loads zero (setTimers rest w)) as [-> _].
  - intros [= <-]. by destruct (triggerOnChangeForDirtyPaths_loads dirtyPaths w) as [-> _].
  - intros [= <-]. done.
  - intros [= <-]. done.
Qed.

Lemma step_fetch_log a w w' :
  fetchesOf (trace w) = map promiseFieldIds (promises w) ->
  step a w = Some w' ->
  fetchesOf (trace w') = map promiseFieldIds (promises w').
Proof.
  intros Hinv Hstep.
  assert ((exists fieldIds, a = CallLoad fieldIds)
          \/ ~ (exists fieldIds, a = CallLoad fieldIds)) as [[fieldIds ->]|Hother].
  { destruct a; eauto; right; intros [? ?]; discriminate. }
  - cbn [step] in Hstep. injection Hstep as <-.
    pose proof (loadCellValuesInFieldIdsAsync_spec fieldIds w) as Hspec.
    cbv zeta in Hspec. rewrite Hspec. clear Hspec.
    destruct (List.filter (isCold (store w)) fieldIds) as [|c cold]; [exact Hinv|].
    cbn [fst trace promises]. rewrite fetchesOf_app, map_app, Hinv. done.
  - destruct (step_emits a w w' Hstep) as (evs & -> & Hevs).
    rewrite fetchesOf_app, Hinv, (fetchesOf_none evs).
    + rewrite app_nil_r. symmetry. apply (step_promise_fields a w w'); [|done].
      intros fieldIds ->. apply Hother. eauto.
    + intros e Hin. specialize (Hevs e Hin).
      destruct e; [|done..]. destruct a; try done. exfalso. apply Hother. eauto.
Qed.

Lemma reachable_fetch_log w :
  reachable w -> fetchesOf (trace w) = map promiseFieldIds (promises w).
Proof.
  intros (tbl & primary & fields & r & actions & Hrun).
  assert (forall acts w0 w1,
            fetchesOf (trace w0) = map promiseFieldIds (promises w0) ->
            run acts w0 = Some w1 ->
            fetchesOf (trace w1) = map promiseFieldIds (promises w1)) as Hruns.
  { induction acts as [|a rest IH]; intros w0 w1 H0; simpl; [by intros [= <-]|].
    destruct (step a w0) as [w2|] eqn:Hstep; [|done].
    apply IH. by eapply step_fetch_log. }
  eapply Hruns; [|exact Hrun]. reflexivity.
Qed.

(** X9: in every reachable world the fetches sent to the backend are, one by
    one and in order, the promises of the promise table: the [k]-th fetch of
    the trace asked for exactly the fields of promise [k], so no fetch is ever
    sent without a promise that tracks it, and no promise exists without
    its fetch. *)
Theorem fetch_log_is_the_promise_table (w : World) :
  reachable w -> fetchesOf (trace w) = map promiseFieldIds (promises w).
Proof. apply reachable_fetch_log. Qed.

(** ** Fired keys are watchable keys *)

Lemma field_key_is_watchable (fieldId : FieldId) :
  _isWatchableKey (WatchableCellValuesInFieldKeyPrefix +:+ fieldId) = true.
Proof.
  unfold _isWatchableKey. rewrite startsWith_field_key.
  by rewrite orb_true_r.
Qed.

Lemma changedKeys_watchable (fieldIds : list FieldId) (key : string) :
  key ∈ changedKeysForFieldIds fieldIds -> _isWatchableKey key = true.
Proof.
  unfold changedKeysForFieldIds. rewrite !elem_of_app.
  intros [[Hin|Hin]|[Hin|Hin]].
  - apply list_elem_of_fmap in Hin as (f & -> & _). apply field_key_is_watchable.
  - by apply list_elem_of_singleton in Hin as ->.
  - by apply list_elem_of_singleton in Hin as ->.
  - by apply list_elem_of_singleton in Hin as ->.
Qed.

Lemma step_fires_watchable a w w' :
  firesOnlyWatchableKeys (trace w) -> step a w = Some w' ->
  firesOnlyWatchableKeys (trace w').
Proof.
  intros Hinv Hstep. destruct (step_emits a w w' Hstep) as (evs & -> & Hevs).
  intros key payload [Hin|Hin]%elem_of_app; [by eapply Hinv|].
  specialize (Hevs _ Hin). destruct a; try done; unfold mayEmit in Hevs.
  - destruct payload; try done. destruct Hevs as (fieldIds & _ & Hkey).
    by eapply changedKeys_watchable.
  - destruct payload; try done.
    + by destruct Hevs as [-> | ->].
    + by subst key.
    + subst key. apply field_key_is_watchable.
Qed.

Lemma reachable_fires_watchable w : reachable w -> firesOnlyWatchableKeys (trace w).
Proof.
  intros (tbl & primary & fields & r & actions & Hrun).
  assert (forall acts w0 w1,
            firesOnlyWatchableKeys (trace w0) -> run acts w0 = Some w1 ->
            firesOnlyWatchableKeys (trace w1)) as Hruns.
  { induction acts as [|a rest IH]; intros w0 w1 H0; simpl; [by intros [= <-]|].
    destruct (step a w0) as [w2|] eqn:Hstep; [|done].
    apply IH. by eapply step_fires_watchable. }
  eapply Hruns; [|exact Hrun]. intros key payload Hin. by apply elem_of_nil in Hin.
Qed.

(** X10: the store only fires keys it accepts for watching.  In every
    reachable world each key passed to [_onChange] satisfies
    [_isWatchableKey], and so does every changed key that [_loadDataAsync]
    returns for the full-table load, whatever the field ids of the schema. *)
Theorem fired_keys_are_watchable (w : World) :
  reachable w ->
  firesOnlyWatchableKeys (trace w)
  /\ forall tableDataRecordsById s key,
       key ∈ snd (_loadDataAsync_continuation tableDataRecordsById s) ->
       _isWatchableKey key = true.
Proof.
  intros Hreach. split; [by apply reachable_fires_watchable|].
  intros tableData s key. unfold _loadDataAsync_continuation. cbn [snd].
  intros [Hin|Hin]%elem_of_app.
  - repeat (apply elem_of_cons in Hin as [->|Hin]; [done|]). by apply elem_of_nil in Hin.
  - apply list_elem_of_fmap in Hin as (f & -> & _). apply field_key_is_watchable.
Qed.

(** ** Answers of the backend *)

(** X11: when the fetch of a batch is answered and the merge goes through,
    every field of the batch is flagged loaded (so
    [areCellValuesLoadedForFieldId] answers [true]) and its pending marker is
    cleared, whatever its retain count is by then; the flags and markers of
    the other fields, the retain counts and the timers are untouched; the
    promise is fulfilled with the changed keys, a caller awaiting it alone is
    fulfilled, and the record metadata is loaded. *)
Theorem fulfilled_fetch_marks_its_batch_loaded
    (p : PromiseId) (fieldIds : list FieldId) (newRecordsById : list (RecordId * RecordData))
    (w : World) (changedKeys : list WatchableRecordStoreKey) :
  promises w !! p = Some (mkLoadPromise fieldIds Pending) ->
  snd (_loadCellValuesInFieldIdsAsync_merge fieldIds newRecordsById (store w))
  = inl changedKeys ->
  exists w',
    fetchFulfilled p newRecordsById w = Some w'
    /\ (forall fieldId : FieldId, fieldId ∈ fieldIds ->
          fieldFlag (store w') fieldId = true
          /\ areCellValuesLoadedForFieldId (store w') fieldId = true
          /\ pendingLoadPromise (store w') fieldId = None)
    /\ (forall fieldId : FieldId, fieldId ∉ fieldIds ->
          _areCellValuesLoadedByFieldId (store w') !! fieldId
          = _areCellValuesLoadedByFieldId (store w) !! fieldId
          /\ _pendingCellValuesLoadPromiseByFieldId (store w') !! fieldId
             = _pendingCellValuesLoadPromiseByFieldId (store w) !! fieldId)
    /\ promises w' !! p = Some (mkLoadPromise fieldIds (Fulfilled changedKeys))
    /\ awaitAll w' [p] = JoinFulfilled
    /\ _cellValuesRetainCountByFieldId (store w')
       = _cellValuesRetainCountByFieldId (store w)
    /\ timers w' = timers w
    /\ isRecordMetadataLoaded (store w') = true.
Proof.
  intros Hp Hok. unfold fetchFulfilled. rewrite Hp.
  unfold _loadCellValuesInFieldIdsAsync_merge in *.
  destruct (mergeEntries fieldIds newRecordsById (default ∅ (recordsById (store w))))
    as [merged [e|]]; [discriminate|]. cbn [snd] in Hok. injection Hok as <-.
  eexists. split; [done|]. cbn [store promises timers withStore setPromises emitAll].
  assert (settle p (Fulfilled (changedKeysForFieldIds fieldIds)) (promises w) !! p
          = Some (mkLoadPromise fieldIds (Fulfilled (changedKeysForFieldIds fieldIds))))
    as Hsettled by (by eapply settle_same).
  split_and!.
  - intros f Hin.
    assert (fieldFlag (markLoaded fieldIds (setRecordsById (store w) (Some merged))) f = true)
      as Hflag.
    { unfold fieldFlag. rewrite markLoaded_flags. by rewrite bool_decide_eq_true_2. }
    split_and!; [done| |].
    + unfold areCellValuesLoadedForFieldId. rewrite Hflag. by rewrite orb_true_r.
    + unfold pendingLoadPromise. rewrite markLoaded_pending.
      by rewrite bool_decide_eq_true_2.
  - intros f Hnotin. rewrite markLoaded_flags, markLoaded_pending.
    by rewrite !bool_decide_eq_false_2.
  - done.
  - unfold awaitAll, isRejected, isFulfilled.
    cbn [existsb forallb promises emitAll withStore setPromises].
    by rewrite Hsettled.
  - by destruct (markLoaded_frame fieldIds (setRecordsById (store w) (Some merged)))
      as (_ & _ & _ & _ & ->).
  - done.
  - unfold isRecordMetadataLoaded. rewrite markLoaded_recordsById.
    apply bool_decide_eq_true_2. simpl. eauto.
Qed.

(** X12: when the fetch of a batch is answered on a live table and the merge
    throws, the promise is rejected with that error and nothing is fired; no flag,
    marker, count or timer changes, so the fields of the batch stay marked
    with the rejected promise; the record map is defined from then on, even
    if it was absent before. *)
Theorem answered_fetch_whose_merge_throws
    (p : PromiseId) (fieldIds : list FieldId) (newRecordsById : list (RecordId * RecordData))
    (w : World) (e : Error) :
  isDeleted (store w) = false ->
  promises w !! p = Some (mkLoadPromise fieldIds Pending) ->
  snd (_loadCellValuesInFieldIdsAsync_merge fieldIds newRecordsById (store w)) = inr e ->
  exists w',
    fetchFulfilled p newRecordsById w = Some w'
    /\ promises w' !! p = Some (mkLoadPromise fieldIds (Rejected e))
    /\ awaitAll w' [p] = JoinRejected
    /\ trace w' = trace w
    /\ _areCellValuesLoadedByFieldId (store w') = _areCellValuesLoadedByFieldId (store w)
    /\ _pendingCellValuesLoadPromiseByFieldId (store w')
       = _pendingCellValuesLoadPromiseByFieldId (store w)
    /\ _cellValuesRetainCountByFieldId (store w')
       = _cellValuesRetainCountByFieldId (store w)
    /\ timers w' = timers w
    /\ isRecordMetadataLoaded (store w') = true.
Proof.
  intros _ Hp Hthrow. unfold fetchFulfilled. rewrite Hp.
  unfold _loadCellValuesInFieldIdsAsync_merge in *.
  destruct (mergeEntries fieldIds newRecordsById (default ∅ (recordsById (store w))))
    as [merged [e'|]]; [|discriminate]. cbn [snd] in Hthrow. injection Hthrow as ->.
  eexists. split; [done|]. cbn [store promises timers trace withStore setPromises].
  assert (settle p (Rejected e) (promises w) !! p
          = Some (mkLoadPromise fieldIds (Rejected e))) as Hsettled
    by (by eapply settle_same).
  split_and!; try done.
  unfold awaitAll, isRejected. cbn [existsb promises withStore setPromises].
  by rewrite Hsettled.
Qed.

Lemma merge_into_empty_store
    (fieldIds : list FieldId) (newRecordsById : list (RecordId * RecordData))
    (s : RecordStore) :
  isDeleted s = false ->
  NoDup newRecordsById.*1 ->
  default ∅ (recordsById s) = ∅ ->
  _loadCellValuesInFieldIdsAsync_merge fieldIds newRecordsById s
  = (setRecordsById s (Some (list_to_map newRecordsById)),
     inl (changedKeysForFieldIds fieldIds)).
Proof.
  intros _ Hnodup Hempty. unfold _loadCellValuesInFieldIdsAsync_merge. rewrite Hempty.
  destruct (mergeEntries_in_sync fieldIds newRecordsById ∅ Hnodup) as [merged Hm].
  { intros recordId new existing _ Hresident. by rewrite lookup_empty in Hresident. }
  rewrite Hm. do 3 f_equal. apply map_eq. intros recordId.
  destruct (decide (recordId ∈ newRecordsById.*1)) as [Hin|Hnotin].
  - apply list_elem_of_fmap in Hin as ([rid new] & -> & Hin). simpl.
    pose proof (mergeEntries_entry _ _ _ _ _ _ Hm Hnodup Hin) as Hentry.
    rewrite lookup_empty in Hentry. rewrite Hentry. symmetry.
    by apply elem_of_list_to_map_1.
  - rewrite (mergeEntries_untouched _ _ _ _ _ _ Hm Hnotin), lookup_empty.
    symmetry. by apply not_elem_of_list_to_map_1.
Qed.

(** X13: a first load on a live table never throws.  When no record is
    resident (the record map is absent or empty), merging a snapshot with
    distinct record ids gives exactly the records of the snapshot, as the
    backend sent them. *)
Theorem first_load_takes_the_snapshot_as_it_is
    (fieldIds : list FieldId) (newRecordsById : list (RecordId * RecordData))
    (s : RecordStore) :
  isDeleted s = false ->
  NoDup newRecordsById.*1 ->
  default ∅ (recordsById s) = ∅ ->
  _loadCellValuesInFieldIdsAsync_merge fieldIds newRecordsById s
  = (setRecordsById s (Some (list_to_map newRecordsById)),
     inl (changedKeysForFieldIds fieldIds)).
Proof. apply merge_into_empty_store. Qed.

(** ** Record models *)

Lemma dirtyLoop_models dirtyEntries acc w records :
  recordsById (store w) = Some records ->
  let models' := _recordModelsById (store (dirtyLoop dirtyEntries acc w).1.1) in
  (forall (recordId : RecordId) paths,
     (recordId, paths) ∈ dirtyEntries -> _isDirty paths = true ->
     records !! recordId = None ->
     models' !! recordId = None)
  /\ (forall recordId : RecordId,
        (is_Some (records !! recordId)
         \/ forall paths, (recordId, paths) ∈ dirtyEntries -> _isDirty paths = false) ->
        models' !! recordId = _recordModelsById (store w) !! recordId).
Proof.
  cbv zeta. revert acc w.
  induction dirtyEntries as [|[rid paths] rest IH]; intros acc w Hrecords.
  - split; [by intros ? ? Hin%elem_of_nil|done].
  - cbn [dirtyLoop]. destruct (_isDirty paths) eqn:Hdirty.
    + rewrite Hrecords. case_bool_decide as Hhas.
      * match goal with |- context [dirtyLoop rest ?a ?w1] =>
          destruct (IH a w1 Hrecords) as [Hevict Hkeep] end.
        split.
        -- intros recordId paths' [[= -> ->]|Hin]%elem_of_cons Hd Hgone.
           ++ rewrite Hgone in Hhas. by destruct Hhas.
           ++ by eapply Hevict.
        -- intros recordId Hcase. apply Hkeep.
           destruct Hcase as [Hres|Hclean]; [by left|right].
           intros paths' Hin. apply Hclean. by apply elem_of_cons; right.
      * match goal with |- context [dirtyLoop rest ?a ?w1] =>
          pose proof (dirtyLoop_frame rest a w1) as Hframe;
          destruct (IH a w1 Hrecords) as [Hevict Hkeep] end.
        cbv zeta in Hframe. destruct Hframe as (_ & _ & (models & Hs & Hsub) & _).
        split.
        -- intros recordId paths' [[= -> ->]|Hin]%elem_of_cons Hd Hgone.
           ++ rewrite Hs. simpl.
              destruct (models !! rid) as [m|] eqn:Hm; [|done].
              rewrite (Hsub rid) in Hm by eauto. simpl in Hm.
              by rewrite lookup_delete_eq in Hm.
           ++ by eapply Hevict.
        -- intros recordId Hcase.
           assert (rid ≠ recordId) as Hne.
           { intros ->. destruct Hcase as [Hres|Hclean].
             - by apply Hhas.
             - specialize (Hclean paths). rewrite Hdirty in Hclean.
               assert (true = false) by (apply Hclean; by apply elem_of_cons; left).
               done. }
           rewrite Hkeep.
           ++ simpl. by rewrite lookup_delete_ne.
           ++ destruct Hcase as [Hres|Hclean]; [by left|right].
              intros paths' Hin. apply Hclean. by apply elem_of_cons; right.
    + assert (forall w1 a,
                recordsById (store w1) = Some records ->
                _recordModelsById (store w1) = _recordModelsById (store w) ->
                (forall (recordId : RecordId) paths',
                   (recordId, paths') ∈ (rid, paths) :: rest -> _isDirty paths' = true ->
                   records !! recordId = None ->
                   _recordModelsById (store (dirtyLoop rest a w1).1.1) !! recordId = None)
                /\ (forall recordId : RecordId,
                      (is_Some (records !! recordId)
                       \/ forall paths', (recordId, paths') ∈ (rid, paths) :: rest ->
                                         _isDirty paths' = false) ->
                      _recordModelsById (store (dirtyLoop rest a w1).1.1) !! recordId
                      = _recordModelsById (store w) !! recordId)) as Hstep.
      { intros w1 a Hrec1 Hsame. destruct (IH a w1 Hrec1) as [Hevict Hkeep]. split.
        - intros recordId paths' [[= -> ->]|Hin]%elem_of_cons Hd Hgone; [congruence|].
          by eapply Hevict.
        - intros recordId Hcase. rewrite Hkeep; [by rewrite Hsame|].
          destruct Hcase as [Hres|Hclean]; [by left|right].
          intros paths' Hin. apply Hclean. by apply elem_of_cons; right. }
      destruct (_recordModelsById (store w) !! rid); by apply Hstep.
Qed.

(** X14: record models across a diff.  With the record metadata loaded, the
    model of a record that the diff marks as structurally changed and that is
    no longer in the record map is evicted; the model of every record that is
    still in the record map, or that the diff does not mark, is the one it
    was (same identity).  After an eviction, once the record is in the record
    map again, [getRecordByIdIfExists] creates a new model with a new
    identity. *)
Theorem record_models_across_a_diff
    (w : World) (records : gmap string RecordData)
    (dirtyEntries : list (RecordId * DirtyRecordPaths)) :
  recordsById (store w) = Some records ->
  let w' := fst (triggerOnChangeForDirtyPaths (mkDirtyPaths (Some dirtyEntries)) w) in
  (forall (recordId : RecordId) paths,
     (recordId, paths) ∈ dirtyEntries -> _isDirty paths = true ->
     records !! recordId = None ->
     _recordModelsById (store w') !! recordId = None
     /\ forall (serial : nat) (records' : gmap string RecordData),
          is_Some (records' !! recordId) ->
          exists s',
            getRecordByIdIfExists serial recordId (setRecordsById (store w') (Some records'))
            = inl (s', Some (mkRecordModel recordId serial)))
  /\ (forall recordId : RecordId,
        (is_Some (records !! recordId)
         \/ forall paths, (recordId, paths) ∈ dirtyEntries -> _isDirty paths = false) ->
        _recordModelsById (store w') !! recordId
        = _recordModelsById (store w) !! recordId).
Proof.
  intros Hrecords. cbv zeta.
  unfold triggerOnChangeForDirtyPaths, isRecordMetadataLoaded.
  rewrite bool_decide_eq_true_2 by (rewrite Hrecords; eauto). cbn [dirtyRecordsById].
  pose proof (dirtyLoop_models dirtyEntries (mkDirtyAcc [] [] []) w records Hrecords)
    as Hmodels.
  pose proof (dirtyLoop_frame dirtyEntries (mkDirtyAcc [] [] []) w) as Hframe.
  cbv zeta in Hmodels, Hframe. destruct Hframe as (_ & _ & _ & Hok).
  rewrite Hrecords in Hok. specialize (Hok (ltac:(eauto))).
  destruct (dirtyLoop dirtyEntries (mkDirtyAcc [] [] []) w) as [[w1 acc] res].
  cbn [fst snd] in *. subst res.
  assert (forall w2 : World,
            store w2 = store w1 ->
            (forall (recordId : RecordId) paths,
               (recordId, paths) ∈ dirtyEntries -> _isDirty paths = true ->
               records !! recordId = None ->
               _recordModelsById (store w2) !! recordId = None
               /\ forall (serial : nat) (records' : gmap string RecordData),
                    is_Some (records' !! recordId) ->
                    exists s',
                      getRecordByIdIfExists serial recordId
                        (setRecordsById (store w2) (Some records'))
                      = inl (s', Some (mkRecordModel recordId serial)))
            /\ (forall recordId : RecordId,
                  (is_Some (records !! recordId)
                   \/ forall paths, (recordId, paths) ∈ dirtyEntries ->
                                    _isDirty paths = false) ->
                  _recordModelsById (store w2) !! recordId
                  = _recordModelsById (store w) !! recordId)) as Hfinal.
  { intros w2 ->. destruct Hmodels as [Hevict Hkeep]. split; [|exact Hkeep].
    intros recordId paths Hin Hd Hgone.
    pose proof (Hevict recordId paths Hin Hd Hgone) as Hnone.
    split; [exact Hnone|].
    intros serial records' [r Hr]. unfold getRecordByIdIfExists. simpl.
    rewrite Hr, Hnone. eauto. }
  apply Hfinal.
  repeat (match goal with |- context [if ?b then _ else _] => destruct b end); done.
Qed.

(** X15: [getRecordByIdIfExists] memoizes.  Once it has returned a model for
    an id, every later call for that id returns this very model and changes
    nothing; the first call touched neither the models of the other ids nor
    the record map, and it only answers for an id of the record map. *)
Theorem getRecordByIdIfExists_memoizes
    (serial : nat) (recordId : RecordId) (s s1 : RecordStore) (recordModel : RecordModel) :
  getRecordByIdIfExists serial recordId s = inl (s1, Some recordModel) ->
  (forall serial', getRecordByIdIfExists serial' recordId s1 = inl (s1, Some recordModel))
  /\ (forall other : RecordId, other ≠ recordId ->
        _recordModelsById s1 !! other = _recordModelsById s !! other)
  /\ recordsById s1 = recordsById s
  /\ exists records, recordsById s = Some records /\ is_Some (records !! recordId).
Proof.
  unfold getRecordByIdIfExists.
  destruct (recordsById s) as [records|] eqn:Hrecords; [|done].
  destruct (records !! recordId) as [r|] eqn:Hr; [|done].
  destruct (_recordModelsById s !! recordId) as [m|] eqn:Hm.
  - intros [= <- <-]. split_and!; [|done|done|eauto].
    intros serial'. by rewrite Hrecords, Hr, Hm.
  - intros [= <- <-]. split_and!; [| |done|eauto].
    + intros serial'. simpl. rewrite Hrecords, Hr. by rewrite lookup_insert_eq.
    + intros other Hne. simpl. by rewrite lookup_insert_ne.
Qed.

(** ** View data stores *)

(** X16: [getViewDataStore] memoizes per view id.  Once it has returned a
    view data store for a view, every later call for that view returns this
    very store without touching the cache, also when the view has meanwhile
    left the schema (the cache is consulted before the schema); a store is
    only ever created for a view of the schema, and the stores of the other
    views are not touched. *)
Theorem getViewDataStore_memoizes
    (serial : nat) (viewId : string) (r r1 : ViewRegistry) (viewDataStore : ViewDataStore) :
  getViewDataStore serial viewId r = inl (r1, viewDataStore) ->
  (forall (serial' : nat) (views' : gset string),
     getViewDataStore serial' viewId (mkViewRegistry views' (_viewDataStoresByViewId r1))
     = inl (mkViewRegistry views' (_viewDataStoresByViewId r1), viewDataStore))
  /\ (_viewDataStoresByViewId r !! viewId = None ->
      viewId ∈ viewsById r /\ viewDataStore = mkViewDataStore viewId serial)
  /\ (forall other : string, other ≠ viewId ->
        _viewDataStoresByViewId r1 !! other = _viewDataStoresByViewId r !! other)
  /\ viewsById r1 = viewsById r.
Proof.
  unfold getViewDataStore.
  destruct (_viewDataStoresByViewId r !! viewId) as [cached|] eqn:Hcached.
  - intros [= <- <-]. split_and!; [|done|done|done].
    intros serial' views'. simpl. by rewrite Hcached.
  - case_bool_decide as Hview; [|done]. intros [= <- <-]. simpl. split_and!; [|done| |done].
    + intros serial' views'. by rewrite lookup_insert_eq.
    + intros other Hne. by rewrite lookup_insert_ne.
Qed.

(** ** Full-table unload *)


(** X17: a full-table unload keeps what is loaded field by field.  When the
    full-table data is not loaded (any more), the table is not deleted and
    some field is flagged loaded, [_unloadData] unsubscribes from the table
    data and keeps the record map, the record models and the flags; in every
    record the cells of the fields flagged loaded are as they were, and the
    cell of every schema field that is not flagged is set to [undefined] (in
    records that have a cell table). *)
Theorem full_table_unload_keeps_fields_loaded_on_their_own
    (w : World) (loadedFieldId : FieldId) :
  isDataLoaded (store w) = false ->
  isDeleted (store w) = false ->
  fieldFlag (store w) loadedFieldId = true ->
  trace (_unloadData w) = trace w ++ [UnsubscribeFromTableData (tableId (store w))]
  /\ _recordModelsById (store (_unloadData w)) = _recordModelsById (store w)
  /\ _areCellValuesLoadedByFieldId (store (_unloadData w))
     = _areCellValuesLoadedByFieldId (store w)
  /\ forall (recordId : RecordId) recordObj,
       recordsById (store w) ≫= (fun records => records !! recordId) = Some recordObj ->
       exists recordObj',
         recordsById (store (_unloadData w)) ≫= (fun records => records !! recordId)
         = Some recordObj'
         /\ (forall fieldId : FieldId,
               fieldFlag (store w) fieldId = true ->
               cellOf recordObj' fieldId = cellOf recordObj fieldId)
         /\ (forall fieldId : FieldId,
               fieldId ∈ fieldsById (store w) ->
               fieldFlag (store w) fieldId = false ->
               is_Some (cellValuesByFieldId recordObj) ->
               cellOf recordObj' fieldId = Some VUndefined).
Proof.
  intros Hdata Hdel Hflag.
  pose proof (fieldFlag_true_any _ _ Hflag) as Hany.
  unfold _unloadData. cbn [trace store withStore emit].
  unfold _afterUnloadDataOrUnloadCellValuesInFieldIds. rewrite Hany, Hdel, Hdata.
  cbn [negb]. split_and!; [done|done|done|].
  intros recordId recordObj Hrec. cbn [recordsById setRecordsById].
  destruct (recordsById (store w)) as [records|]; simpl in Hrec; [|done].
  simpl. rewrite lookup_fmap, Hrec. simpl. eexists. split; [done|]. split.
  - intros fieldId Hloaded. apply clearRecord_cellOf.
    intros Hin%list_elem_of_In. apply List.filter_In in Hin as [_ Hin].
    by rewrite Hloaded in Hin.
  - intros fieldId Hschema Hunloaded [cells Hcells].
    unfold clearRecord, cellOf. rewrite Hcells. simpl.
    apply clearCells_lookup_in. apply list_elem_of_In, List.filter_In.
    split; [by apply list_elem_of_In|]. by rewrite Hunloaded.
Qed.

(** ** Watching and unwatching *)

Lemma getFieldIds_same_primary (s s' : RecordStore) (keys : list WatchableRecordStoreKey) :
  _primaryFieldId s' = _primaryFieldId s ->
  _getFieldIdsToLoadFromWatchableKeys s' keys = _getFieldIdsToLoadFromWatchableKeys s keys.
Proof.
  intros Hsame. induction keys as [|key rest IH]; [done|].
  cbn [_getFieldIdsToLoadFromWatchableKeys].
  unfold _getFieldIdForCausingRecordMetadataToLoad. by rewrite IH, Hsame.
Qed.

Lemma loadCellValuesInFieldIdsAsync_primary (fieldIds : list FieldId) (w : World) :
  _primaryFieldId (store (fst (loadCellValuesInFieldIdsAsync fieldIds w)))
  = _primaryFieldId (store w).
Proof.
  pose proof (loadCellValuesInFieldIdsAsync_spec fieldIds w) as Hspec.
  cbv zeta in Hspec. rewrite Hspec.
  by destruct (List.filter (isCold (store w)) fieldIds).
Qed.

(** X18: watching both [records] and [recordIds] requests the primary field
    twice in one call: its retain count goes up by two, and when the primary
    field is neither loaded nor loading the single fetch that is issued lists
    it twice. *)
Theorem watching_records_and_recordIds_requests_primary_twice (w : World) :
  watch ["records"; "recordIds"] w
  = fst (loadCellValuesInFieldIdsAsync
           [_primaryFieldId (store w); _primaryFieldId (store w)] w)
  /\ retainCountOf (store (watch ["records"; "recordIds"] w)) (_primaryFieldId (store w))
     = retainCountOf (store w) (_primaryFieldId (store w)) + 2
  /\ trace (watch ["records"; "recordIds"] w)
     = trace w
       ++ (if isCold (store w) (_primaryFieldId (store w))
           then [FetchAndSubscribeToCellValuesInFields (tableId (store w))
                   [_primaryFieldId (store w); _primaryFieldId (store w)]]
           else []).
Proof.
  assert (watch ["records"; "recordIds"] w
          = fst (loadCellValuesInFieldIdsAsync
                   [_primaryFieldId (store w); _primaryFieldId (store w)] w)) as Hwatch
    by reflexivity.
  rewrite Hwatch. split_and!; [done| |].
  - unfold retainCountOf. rewrite loadCellValuesInFieldIdsAsync_counts, retain_all_count.
    rewrite !occurrences_cons, !bool_decide_eq_true_2 by done.
    unfold occurrences. simpl. lia.
  - pose proof (loadCellValuesInFieldIdsAsync_spec
                  [_primaryFieldId (store w); _primaryFieldId (store w)] w) as Hspec.
    cbv zeta in Hspec. rewrite Hspec. simpl.
    destruct (isCold (store w) (_primaryFieldId (store w))); simpl; [done|].
    by rewrite app_nil_r.
Qed.

(** X19: unwatching the keys that were just watched is balanced.  In a store
    whose counts are not negative, [unwatch] after [watch] on the same valid
    keys gives every field the retain count it had, logs no over-release and
    touches no promise. *)
Theorem unwatch_after_watch_is_balanced
    (validKeys : list WatchableRecordStoreKey) (w : World) :
  retainCountsNonNegative (store w) ->
  (forall fieldId : FieldId,
     retainCountOf (store (unwatch validKeys (watch validKeys w))) fieldId
     = retainCountOf (store w) fieldId)
  /\ trace (unwatch validKeys (watch validKeys w)) = trace (watch validKeys w)
  /\ promises (unwatch validKeys (watch validKeys w)) = promises (watch validKeys w).
Proof.
  intros Hnonneg. unfold watch.
  set (fieldIds := _getFieldIdsToLoadFromWatchableKeys (store w) validKeys).
  destruct (bool_decide (0 < length fieldIds)%nat) eqn:Hlen; unfold unwatch.
  - rewrite (getFieldIds_same_primary (store w)) by apply loadCellValuesInFieldIdsAsync_primary.
    fold fieldIds. rewrite Hlen.
    pose proof (unload_after_load_balanced fieldIds w Hnonneg) as Hbalanced.
    cbv zeta in Hbalanced. destruct Hbalanced as (Hcounts & Htrace & Hpromises & _).
    done.
  - fold fieldIds. by rewrite Hlen.
Qed.

(** ** Scheduling of the unload *)

Lemma releaseLoop_schedule fieldIds zero w :
  (forall fieldId : FieldId, fieldId ∈ zero ->
     _cellValuesRetainCountByFieldId (store w) !! fieldId = Some 0) ->
  exists counts zero',
    store (fst (releaseLoop fieldIds zero w)) = setRetainCount (store w) counts
    /\ snd (releaseLoop fieldIds zero w) = zero'
    /\ promises (fst (releaseLoop fieldIds zero w)) = promises w
    /\ timers (fst (releaseLoop fieldIds zero w)) = timers w
    /\ (forall fieldId : FieldId, fieldId ∈ zero' ->
          counts !! fieldId = Some 0 /\ (fieldId ∈ zero \/ fieldId ∈ fieldIds))
    /\ (forall fieldId : FieldId, fieldId ∈ fieldIds ->
          counts !! fieldId = Some 0 -> fieldId ∈ zero')
    /\ (forall fieldId : FieldId, fieldId ∈ zero -> fieldId ∈ zero')
    /\ (forall fieldId : FieldId, fieldId ∉ fieldIds ->
          counts !! fieldId = _cellValuesRetainCountByFieldId (store w) !! fieldId).
Proof.
  revert zero w. induction fieldIds as [|f rest IH]; intros zero w Hzero.
  - exists (_cellValuesRetainCountByFieldId (store w)), zero. simpl.
    split_and!; try done.
    + by destruct (store w).
    + intros g Hg. split; [by apply Hzero|by left].
    + by intros g Hg%elem_of_nil.
  - cbn [releaseLoop].
    set (c0 := default 0 (_cellValuesRetainCountByFieldId (store w) !! f) - 1).
    assert (forall (w1 : World) (c1 : Z) (z : list FieldId),
              store w1 = store w -> promises w1 = promises w -> timers w1 = timers w ->
              (c1 = 0 -> z = zero ++ [f]) -> (c1 ≠ 0 -> z = zero /\ f ∉ zero) ->
              let w2 := withStore (fun s =>
                          setRetainCount s (<[f := c1]> (_cellValuesRetainCountByFieldId s)))
                          w1 in
              exists counts zero',
                store (fst (releaseLoop rest z w2)) = setRetainCount (store w) counts
                /\ snd (releaseLoop rest z w2) = zero'
                /\ promises (fst (releaseLoop rest z w2)) = promises w
                /\ timers (fst (releaseLoop rest z w2)) = timers w
                /\ (forall fieldId : FieldId, fieldId ∈ zero' ->
                      counts !! fieldId = Some 0
                      /\ (fieldId ∈ zero \/ fieldId ∈ f :: rest))
                /\ (forall fieldId : FieldId, fieldId ∈ f :: rest ->
                      counts !! fieldId = Some 0 -> fieldId ∈ zero')
                /\ (forall fieldId : FieldId, fieldId ∈ zero -> fieldId ∈ zero')
                /\ (forall fieldId : FieldId, fieldId ∉ f :: rest ->
                      counts !! fieldId
                      = _cellValuesRetainCountByFieldId (store w) !! fieldId)) as Hstep.
    { intros w1 c1 z Hstore Hp Ht Hpush Hskip. cbv zeta.
      set (w2 := withStore (fun s =>
                   setRetainCount s (<[f := c1]> (_cellValuesRetainCountByFieldId s))) w1).
      assert (forall g : FieldId, g ∈ z ->
                _cellValuesRetainCountByFieldId (store w2) !! g = Some 0) as Hz.
      { intros g Hg. unfold w2. simpl. rewrite Hstore.
        destruct (decide (c1 = 0)) as [->|Hne].
        - rewrite (Hpush eq_refl) in Hg. apply elem_of_app in Hg as [Hg|Hg].
          + destruct (decide (f = g)) as [->|Hfg]; [by rewrite lookup_insert_eq|].
            rewrite lookup_insert_ne by done. by apply Hzero.
          + apply list_elem_of_singleton in Hg as ->. by rewrite lookup_insert_eq.
        - destruct (Hskip Hne) as [-> Hfresh].
          assert (f ≠ g) by (intros ->; done).
          rewrite lookup_insert_ne by done. by apply Hzero. }
      destruct (IH z w2 Hz) as (counts & zero' & Hs & Hsnd & Hp' & Ht' & Hin & Hall & Hmono & Hout).
      exists counts, zero'. split_and!.
      - rewrite Hs. unfold w2. simpl. rewrite Hstore. by destruct (store w).
      - done.
      - by rewrite Hp'.
      - by rewrite Ht'.
      - intros g Hg. destruct (Hin g Hg) as [Hc [Hgz|Hgr]].
        + split; [done|].
          destruct (decide (c1 = 0)) as [Hc1|Hc1].
          * rewrite (Hpush Hc1) in Hgz. apply elem_of_app in Hgz as [?|Hgf]; [by left|].
            apply list_elem_of_singleton in Hgf as ->. right. by apply elem_of_cons; left.
          * destruct (Hskip Hc1) as [-> _]. by left.
        + split; [done|]. right. by apply elem_of_cons; right.
      - intros g Hg Hc. destruct (decide (g ∈ rest)) as [Hrest|Hrest]; [by apply Hall|].
        apply elem_of_cons in Hg as [->|Hg]; [|done].
        rewrite (Hout f Hrest) in Hc. unfold w2 in Hc. simpl in Hc.
        rewrite lookup_insert_eq in Hc. injection Hc as ->.
        apply Hmono. rewrite (Hpush eq_refl). apply elem_of_app. right.
        by apply list_elem_of_singleton.
      - intros g Hg. apply Hmono.
        destruct (decide (c1 = 0)) as [Hc1|Hc1].
        + rewrite (Hpush Hc1). by apply elem_of_app; left.
        + by destruct (Hskip Hc1) as [-> _].
      - intros g Hg. apply not_elem_of_cons in Hg as [Hne Hg].
        rewrite (Hout g Hg). unfold w2. simpl. rewrite Hstore.
        by rewrite lookup_insert_ne. }
    destruct (Z.ltb_spec c0 0) as [Hneg|Hpos].
    + rewrite Z.eqb_refl. apply (Hstep (emit (ConsoleLog "Field data over-released") w) 0);
        try done.
    + destruct (Z.eqb_spec c0 0) as [Hc|Hc].
      * apply (Hstep w c0); try done.
      * apply (Hstep w c0); try done. intros _. split; [done|].
        intros Hin. apply Hzero in Hin. unfold c0 in *. rewrite Hin in *. simpl in *. lia.
Qed.

(** X20: what an unload call schedules.  [unloadCellValuesInFieldIds] changes
    nothing of the store but the retain counts of the listed fields and
    touches no promise; it sets one timer when, after the call, some listed
    field has the count zero, and none otherwise; the timer closes over
    exactly the listed fields whose count is zero after the call. *)
Theorem unload_call_schedules_the_fields_at_zero (fieldIds : list FieldId) (w : World) :
  exists counts zero,
    store (unloadCellValuesInFieldIds fieldIds w) = setRetainCount (store w) counts
    /\ promises (unloadCellValuesInFieldIds fieldIds w) = promises w
    /\ timers (unloadCellValuesInFieldIds fieldIds w)
       = timers w ++ (if bool_decide (zero = []) then [] else [zero])
    /\ (forall fieldId : FieldId,
          fieldId ∈ zero <-> fieldId ∈ fieldIds /\ counts !! fieldId = Some 0)
    /\ (forall fieldId : FieldId, fieldId ∉ fieldIds ->
          counts !! fieldId = _cellValuesRetainCountByFieldId (store w) !! fieldId).
Proof.
  destruct (releaseLoop_schedule fieldIds [] w)
    as (counts & zero & Hs & Hsnd & Hp & Ht & Hin & Hall & _ & Hout).
  { by intros f Hf%elem_of_nil. }
  exists counts, zero. unfold unloadCellValuesInFieldIds.
  destruct (releaseLoop fieldIds [] w) as [w1 z]. cbn [fst snd] in *. subst z.
  assert (forall fieldId : FieldId,
            fieldId ∈ zero <-> fieldId ∈ fieldIds /\ counts !! fieldId = Some 0) as Hiff.
  { intros f. split.
    - intros Hf. destruct (Hin f Hf) as [Hc [Hnil|Hids]]; [by apply elem_of_nil in Hnil|done].
    - intros [Hf Hc]. by apply Hall. }
  destruct zero as [|z0 zero].
  - rewrite bool_decide_eq_false_2 by (simpl; lia).
    rewrite bool_decide_eq_true_2 by done. rewrite app_nil_r.
    split_and!; [exact Hs|exact Hp|exact Ht|exact Hiff|exact Hout].
  - rewrite bool_decide_eq_true_2 by (simpl; lia).
    rewrite bool_decide_eq_false_2 by done. cbn [store promises timers setTimers].
    split_and!; [exact Hs|exact Hp|by rewrite Ht|exact Hiff|exact Hout].
Qed.

(** ** The life of the record metadata *)

Lemma retainField_lookup counts (fieldId : FieldId) :
  retainField counts fieldId !! fieldId = Some (default 0 (counts !! fieldId) + 1).
Proof.
  unfold retainField. destruct (counts !! fieldId) as [n|]; by rewrite lookup_insert_eq.
Qed.

(** X21: the record metadata from load to unload.  On a store where nothing
    is loaded or resident, the primary field is neither loading nor retained
    and no timer is set: [loadRecordMetadataAsync] issues one fetch of the
    primary field; when the backend answers, the metadata is loaded and the
    four changed keys are fired; [unloadRecordMetadata] then sets the unload
    timer; and when the timer fires the backend is unsubscribed, the record
    map and the record models are dropped and the metadata is not loaded any
    more, with the count at zero, no marker and no timer left. *)
Theorem record_metadata_load_unload_cycle
    (w : World) (newRecordsById : list (RecordId * RecordData)) :
  isCold (store w) (_primaryFieldId (store w)) = true ->
  retainCountOf (store w) (_primaryFieldId (store w)) = 0 ->
  areAnyFieldsLoaded (store w) = false ->
  isDeleted (store w) = false ->
  default ∅ (recordsById (store w)) = ∅ ->
  timers w = [] ->
  NoDup newRecordsById.*1 ->
  exists w2 w4,
    fetchFulfilled (length (promises w)) newRecordsById (fst (loadRecordMetadataAsync w))
    = Some w2
    /\ isRecordMetadataLoaded (store w2) = true
    /\ recordsById (store w2) = Some (list_to_map newRecordsById)
    /\ timerFires (unloadRecordMetadata w2) = Some w4
    /\ trace w4
       = trace w
         ++ [FetchAndSubscribeToCellValuesInFields (tableId (store w))
               [_primaryFieldId (store w)];
             OnChange ("cellValuesInField:" +:+ _primaryFieldId (store w)) NoPayload;
             OnChange "records" NoPayload; OnChange "recordIds" NoPayload;
             OnChange "cellValues" NoPayload;
             UnsubscribeFromCellValuesInFields (tableId (store w))
               [_primaryFieldId (store w)]]
    /\ isRecordMetadataLoaded (store w4) = false
    /\ _recordModelsById (store w4) = ∅
    /\ fieldFlag (store w4) (_primaryFieldId (store w)) = false
    /\ pendingLoadPromise (store w4) (_primaryFieldId (store w)) = None
    /\ retainCountOf (store w4) (_primaryFieldId (store w)) = 0
    /\ timers w4 = [].
Proof.
  intros Hcold Hcount Hany Hdel Hempty Htimers Hnodup.
  apply areAnyFieldsLoaded_false in Hany as [Hdata Hflags].
  unfold loadRecordMetadataAsync, unloadRecordMetadata,
    _getFieldIdForCausingRecordMetadataToLoad, retainCountOf in *.
  pose proof (loadCellValuesInFieldIdsAsync_spec [_primaryFieldId (store w)] w) as Hspec.
  cbv zeta in Hspec. cbn [List.filter] in Hspec. rewrite Hcold in Hspec.
  rewrite Hspec. clear Hspec Hcold.
  destruct w as [[tbl dl del recs fields f models flags markers counts] ps ts tr].
  simpl in *. subst dl del ts.
  unfold fetchFulfilled. simpl.
  rewrite lookup_app_r by lia. rewrite Nat.sub_diag. simpl.
  pose proof (merge_into_empty_store [f] newRecordsById
                (setPendingLoadPromise
                   (setRetainCount
                      (mkRecordStore tbl false false recs fields f models flags markers counts)
                      (retainField counts f))
                   (<[f := Some (length ps)]> markers)) eq_refl Hnodup Hempty) as Hmerge.
  simpl in Hmerge. rewrite Hmerge. clear Hmerge.
  eexists. eexists. split; [reflexivity|]. simpl.
  split; [by apply bool_decide_eq_true_2; eauto|]. split; [reflexivity|].
  unfold unloadCellValuesInFieldIds. simpl.
  rewrite retainField_lookup, Hcount. simpl.
  change (0 + 1 - 1) with 0.
  unfold timerFires, unloadTimerCallback, setTimers, withStore, emitAll, setPromises. simpl.
  unfold retainCountIsZero. simpl. rewrite !lookup_insert_eq.
  rewrite !(bool_decide_eq_true_2 (Some 0 = Some 0)) by done. simpl.
  unfold _unloadCellValuesInFieldIds, _afterUnloadDataOrUnloadCellValuesInFieldIds,
    withStore, emit, areAnyFieldsLoaded. simpl.
  match goal with |- context [someFieldFlag ?s'] =>
    assert (someFieldFlag s' = false) as -> end.
  { apply someFieldFlag_false. intros g. simpl.
    destruct (decide (f = g)) as [->|Hne]; [by rewrite lookup_insert_eq|].
    rewrite !lookup_insert_ne by done. apply Hflags. }
  simpl. split; [reflexivity|]. simpl.
  unfold fieldFlag, pendingLoadPromise, isRecordMetadataLoaded. simpl.
  rewrite !lookup_insert_eq. simpl.
  split_and!; try done.
  by rewrite <- !app_assoc.
Qed.

(** * The further properties on the example stores *)

Lemma balanced_release_on_loaded_store :
  retainCountOf
    (store (unloadCellValuesInFieldIds ["fldA"; "fldB"]
              (fst (loadCellValuesInFieldIdsAsync ["fldA"; "fldB"] (newWorld loadedStore)))))
    "fldA"
  = 1.
Proof.
  assert (retainCountsNonNegative (store (newWorld loadedStore))) as Hnonneg.
  { apply (bool_decide_unpack
             (map_Forall (fun _ n => 0 <= n)
                (_cellValuesRetainCountByFieldId (store (newWorld loadedStore))))).
    vm_compute. exact I. }
  destruct (release_after_retain_is_balanced ["fldA"; "fldB"] (newWorld loadedStore) Hnonneg)
    as (Hcounts & _).
  rewrite Hcounts. vm_compute. reflexivity.
Defined.

Lemma reloaded_field_survives_its_timer :
  trace (unloadTimerCallback ["fldA"]
           (fst (loadCellValuesInFieldIdsAsync ["fldA"] unloadedWorld)))
  = trace (fst (loadCellValuesInFieldIdsAsync ["fldA"] unloadedWorld)).
Proof.
  assert (retainCountsNonNegative (store unloadedWorld)) as Hnonneg.
  { apply (bool_decide_unpack
             (map_Forall (fun _ n => 0 <= n)
                (_cellValuesRetainCountByFieldId (store unloadedWorld)))).
    vm_compute. exact I. }
  rewrite (unload_timer_after_reload_does_nothing ["fldA"] ["fldA"] unloadedWorld Hnonneg).
  - reflexivity.
  - intros fieldId Hin. exact Hin.
Defined.

Lemma unloadedWorld_is_reachable : reachable unloadedWorld.
Proof.
  exists "tblA", "fldA", ["fldA"; "fldB"], None,
    [CallLoad ["fldA"]; BackendFulfils 0 [("recA", recA)]; CallUnload ["fldA"]; TimerFires].
  vm_compute. reflexivity.
Defined.

Lemma failedWorld_is_reachable : reachable failedWorld.
Proof.
  exists "tblA", "fldA", ["fldA"; "fldB"], None,
    [CallLoad ["fldA"]; BackendRejects 0 (BackendError "network error")].
  vm_compute. reflexivity.
Defined.

Lemma counts_of_unloaded_world_are_not_negative :
  retainCountsNonNegative (store unloadedWorld).
Proof. exact (retain_counts_are_never_negative unloadedWorld unloadedWorld_is_reachable). Defined.

Lemma marker_of_failed_world_covers_fldA :
  exists ids st,
    promises failedWorld !! 0%nat = Some (mkLoadPromise ids st) /\ "fldA" ∈ ids.
Proof.
  destruct (markers_and_joined_promises_cover_requested_fields failedWorld ["fldA"]
              failedWorld_is_reachable) as [Hmarkers _].
  apply (Hmarkers "fldA" 0%nat). vm_compute. reflexivity.
Defined.

Lemma diff_on_loaded_store_does_not_throw :
  snd (triggerOnChangeForDirtyPaths scenarioDirtyPaths (newWorld loadedStore)) = None.
Proof.
  destruct (dirty_paths_never_throw_and_only_evict_models scenarioDirtyPaths
              (newWorld loadedStore)) as [Hok _].
  - reflexivity.
  - exact Hok.
Defined.

Lemma over_release_only_logs :
  exists evs,
    trace (unloadCellValuesInFieldIds ["fldA"] unloadedWorld) = trace unloadedWorld ++ evs
    /\ forall e, e ∈ evs -> mayEmit (CallUnload ["fldA"]) unloadedWorld e.
Proof.
  apply (each_step_sends_only_its_own_calls (CallUnload ["fldA"]) unloadedWorld).
  reflexivity.
Defined.

Lemma fetch_log_of_unloaded_world :
  fetchesOf (trace unloadedWorld) = [["fldA"]]
  /\ map promiseFieldIds (promises unloadedWorld) = [["fldA"]].
Proof.
  pose proof (fetch_log_is_the_promise_table unloadedWorld unloadedWorld_is_reachable)
    as Hlog.
  split; [|rewrite <- Hlog]; vm_compute; reflexivity.
Defined.

Lemma keys_fired_in_unloaded_world_are_watchable :
  firesOnlyWatchableKeys (trace unloadedWorld).
Proof.
  exact (proj1 (fired_keys_are_watchable unloadedWorld unloadedWorld_is_reachable)).
Defined.

Lemma fulfilled_fldA_is_loaded :
  exists w',
    fetchFulfilled 0 [("recA", recA)] loadingWorld = Some w'
    /\ areCellValuesLoadedForFieldId (store w') "fldA" = true
    /\ awaitAll w' [0%nat] = JoinFulfilled.
Proof.
  destruct (fulfilled_fetch_marks_its_batch_loaded 0 ["fldA"] [("recA", recA)] loadingWorld
              (changedKeysForFieldIds ["fldA"]))
    as (w' & Hrun & Hbatch & _ & _ & Hawait & _).
  - vm_compute. reflexivity.
  - vm_compute. reflexivity.
  - exists w'. split; [exact Hrun|]. split; [|exact Hawait].
    apply (Hbatch "fldA"). apply elem_of_cons. left. reflexivity.
Defined.

Lemma out_of_sync_answer_rejects_fldB :
  exists w',
    fetchFulfilled 0 [("recA", outOfSyncRecA)] loadingFldBWorld = Some w'
    /\ awaitAll w' [0%nat] = JoinRejected
    /\ trace w' = trace loadingFldBWorld.
Proof.
  destruct (answered_fetch_whose_merge_throws 0 ["fldB"] [("recA", outOfSyncRecA)]
              loadingFldBWorld (InvariantViolation "comment count out of sync"))
    as (w' & Hrun & _ & Hawait & Htrace & _).
  - vm_compute. reflexivity.
  - vm_compute. reflexivity.
  - vm_compute. reflexivity.
  - exists w'. split; [exact Hrun|]. split; [exact Hawait|exact Htrace].
Defined.

Lemma first_load_on_empty_store :
  recordsById
    (fst (_loadCellValuesInFieldIdsAsync_merge ["fldA"]
            [("recA", incomingRecA); ("recB", incomingRecB)] (store emptyWorld)))
  = Some (list_to_map [("recA", incomingRecA); ("recB", incomingRecB)]).
Proof.
  rewrite (first_load_takes_the_snapshot_as_it_is ["fldA"]
             [("recA", incomingRecA); ("recB", incomingRecB)] (store emptyWorld)).
  - reflexivity.
  - reflexivity.
  - apply (bool_decide_unpack _). vm_compute. exact I.
  - reflexivity.
Defined.

Lemma stale_model_is_evicted_and_resident_model_kept :
  _recordModelsById
    (store (fst (triggerOnChangeForDirtyPaths scenarioDirtyPaths (newWorld staleModelStore))))
    !! "recB" = None
  /\ _recordModelsById
       (store (fst (triggerOnChangeForDirtyPaths scenarioDirtyPaths
                      (newWorld staleModelStore))))
       !! "recA" = Some (mkRecordModel "recA" 0).
Proof.
  destruct (record_models_across_a_diff (newWorld staleModelStore) {[ "recA" := recA ]}
              [("recA", cellsChanged ["fldA"]); ("recB", structurallyChanged)] eq_refl)
    as [Hevict Hkeep].
  split.
  - apply (Hevict "recB" structurallyChanged).
    + apply elem_of_cons. right. apply elem_of_cons. left. reflexivity.
    + reflexivity.
    + vm_compute. reflexivity.
  - change (triggerOnChangeForDirtyPaths scenarioDirtyPaths (newWorld staleModelStore))
      with (triggerOnChangeForDirtyPaths
              {| dirtyRecordsById :=
                   Some [("recA", cellsChanged ["fldA"]); ("recB", structurallyChanged)] |}
              (newWorld staleModelStore)).
    rewrite (Hkeep "recA").
    + vm_compute. reflexivity.
    + left. exists recA. vm_compute. reflexivity.
Defined.

Lemma second_access_returns_the_same_model :
  getRecordByIdIfExists 8 "recA"
    (setRecordModelsById fullyLoadedStore {[ "recA" := mkRecordModel "recA" 7 ]})
  = inl (setRecordModelsById fullyLoadedStore {[ "recA" := mkRecordModel "recA" 7 ]},
         Some (mkRecordModel "recA" 7)).
Proof.
  destruct (getRecordByIdIfExists_memoizes 7 "recA" fullyLoadedStore
              (setRecordModelsById fullyLoadedStore {[ "recA" := mkRecordModel "recA" 7 ]})
              (mkRecordModel "recA" 7)) as [Hmemo _].
  - vm_compute. reflexivity.
  - exact (Hmemo 8%nat).
Defined.

Lemma view_store_outlives_its_view :
  getViewDataStore 4 "viwA"
    (mkViewRegistry ∅ {[ "viwA" := mkViewDataStore "viwA" 3 ]})
  = inl (mkViewRegistry ∅ {[ "viwA" := mkViewDataStore "viwA" 3 ]},
         mkViewDataStore "viwA" 3).
Proof.
  destruct (getViewDataStore_memoizes 3 "viwA" oneViewRegistry
              (mkViewRegistry {[ "viwA" ]} {[ "viwA" := mkViewDataStore "viwA" 3 ]})
              (mkViewDataStore "viwA" 3)) as [Hmemo _].
  - vm_compute. reflexivity.
  - exact (Hmemo 4%nat ∅).
Defined.

Lemma unload_data_keeps_fldA_and_clears_fldB :
  exists recordObj',
    recordsById (store (_unloadData (newWorld loadedStore)))
      ≫= (fun records => records !! "recA") = Some recordObj'
    /\ cellOf recordObj' "fldA" = Some (VStr "a")
    /\ cellOf recordObj' "fldB" = Some VUndefined.
Proof.
  destruct (full_table_unload_keeps_fields_loaded_on_their_own (newWorld loadedStore) "fldA")
    as (_ & _ & _ & Hrecords).
  - reflexivity.
  - reflexivity.
  - vm_compute. reflexivity.
  - destruct (Hrecords "recA" recA) as (recordObj' & Hlookup & Hkept & Hcleared).
    { vm_compute. reflexivity. }
    exists recordObj'. split; [exact Hlookup|]. split.
    + rewrite (Hkept "fldA"); vm_compute; reflexivity.
    + apply Hcleared.
      * apply elem_of_cons. right. apply elem_of_cons. left. reflexivity.
      * vm_compute. reflexivity.
      * exists {[ "fldA" := VStr "a"; "fldB" := VStr "b" ]}. reflexivity.
Defined.

Lemma unwatch_after_watch_on_loaded_store :
  retainCountOf
    (store (unwatch ["cellValuesInField:fldB"; "records"]
              (watch ["cellValuesInField:fldB"; "records"] (newWorld loadedStore))))
    "fldA"
  = 1.
Proof.
  assert (retainCountsNonNegative (store (newWorld loadedStore))) as Hnonneg.
  { apply (bool_decide_unpack
             (map_Forall (fun _ n => 0 <= n)
                (_cellValuesRetainCountByFieldId (store (newWorld loadedStore))))).
    vm_compute. exact I. }
  destruct (unwatch_after_watch_is_balanced ["cellValuesInField:fldB"; "records"]
              (newWorld loadedStore) Hnonneg) as (Hcounts & _).
  rewrite Hcounts. vm_compute. reflexivity.
Defined.

Lemma metadata_cycle_on_empty_world :
  exists w2 w4,
    fetchFulfilled 0 [("recA", recA)] (fst (loadRecordMetadataAsync emptyWorld)) = Some w2
    /\ isRecordMetadataLoaded (store w2) = true
    /\ timerFires (unloadRecordMetadata w2) = Some w4
    /\ isRecordMetadataLoaded (store w4) = false.
Proof.
  destruct (record_metadata_load_unload_cycle emptyWorld [("recA", recA)])
    as (w2 & w4 & Hrun & Hloaded & _ & Hfire & _ & Hunloaded & _).
  - vm_compute. reflexivity.
  - vm_compute. reflexivity.
  - vm_compute. reflexivity.
  - reflexivity.
  - reflexivity.
  - reflexivity.
  - apply (bool_decide_unpack _). vm_compute. exact I.
  - exists w2, w4. split; [exact Hrun|]. split; [exact Hloaded|].
    split; [exact Hfire|exact Hunloaded].
Defined.
